(** * The GitHub dashboard cache service (server.js and the commit-history
      helpers of the web client), embedded in Rocq.

    The file follows the source top-down: the JavaScript built-ins the server
    relies on (dates, JSON values), the pure helpers, the asynchronous
    programs (written in a small free monad whose nodes are the [await]
    points of the source), the event loop that interleaves them, and finally
    the theorems about the cache-refresh coordinator. *)

From Stdlib Require Import ZArith Lia List Bool Ascii String Permutation Sorted QArith.
From stdpp Require Import gmap strings pretty list fin_maps.

Local Open Scope string_scope.
Local Open Scope Z_scope.
Local Open Scope list_scope.

(* ===================================================================== *)
(** * ECMAScript time values *)
(* ===================================================================== *)

(** A [Date] holds a time value: milliseconds since 1970-01-01T00:00:00Z.
    A time value is an integer here.  Two rules of the [Date] API are outside
    the model: the range limit of 8.64e15 ms on either side of the epoch
    (beyond it a date is invalid), and the rule of [Date.UTC] that reads the
    years 0 to 99 as 1900 to 1999.  The first is met only by a history of
    more than 10^8 days, the second only by a clock set before the year
    100. *)
Module JsDate.

Definition msPerDay : Z := 86400000.

(** Day(t) and TimeWithinDay(t) of ECMA-262. *)
Definition Day (t : Z) : Z := t / msPerDay.
Definition TimeWithinDay (t : Z) : Z := t mod msPerDay.

(** The proleptic Gregorian calendar, by 400-year eras of 146097 days that
    start on 1 March: [doe] is the day of the era, [yoe] the year of the era,
    [doy] the day of the year counted from 1 March and [mp] the month counted
    from March. *)
Definition daysPerEra : Z := 146097.
Definition epochShift : Z := 719468.

Definition yoe_of_doe (doe : Z) : Z :=
  (doe - doe / 1460 + doe / 36524 - doe / 146096) / 365.

Definition doy_of_doe (doe : Z) : Z :=
  let yoe := yoe_of_doe doe in
  doe - (365 * yoe + yoe / 4 - yoe / 100).

Definition mp_of_doe (doe : Z) : Z := (5 * doy_of_doe doe + 2) / 153.

(** The day of the month, 1 to 31. *)
Definition dom_of_doe (doe : Z) : Z :=
  doy_of_doe doe - (153 * mp_of_doe doe + 2) / 5 + 1.

(** The month, 1 to 12. *)
Definition month_of_doe (doe : Z) : Z :=
  let mp := mp_of_doe doe in
  if mp <? 10 then mp + 3 else mp - 9.

Definition era_of_day (day : Z) : Z := (day + epochShift) / daysPerEra.
Definition doe_of_day (day : Z) : Z := (day + epochShift) mod daysPerEra.

Definition year_of_day (day : Z) : Z :=
  let doe := doe_of_day day in
  yoe_of_doe doe + era_of_day day * 400
  + (if month_of_doe doe <=? 2 then 1 else 0).

(** The day number of the first day of month [m] (1 to 12) of year [y]. *)
Definition day_of_civil (y m d : Z) : Z :=
  let y' := if m <=? 2 then y - 1 else y in
  let era := y' / 400 in
  let yoe := y' - era * 400 in
  let mp := if 2 <? m then m - 3 else m + 9 in
  let doy := (153 * mp + 2) / 5 + d - 1 in
  let doe := yoe * 365 + yoe / 4 - yoe / 100 + doy in
  era * daysPerEra + doe - epochShift.

(** [getUTCFullYear], [getUTCMonth] (0 to 11) and [getUTCDate] (1 to 31). *)
Definition getUTCFullYear (t : Z) : Z := year_of_day (Day t).
Definition getUTCMonth (t : Z) : Z := month_of_doe (doe_of_day (Day t)) - 1.
Definition getUTCDate (t : Z) : Z := dom_of_doe (doe_of_day (Day t)).

Definition getUTCHours (t : Z) : Z := TimeWithinDay t / 3600000.
Definition getUTCMinutes (t : Z) : Z := (TimeWithinDay t / 60000) mod 60.
Definition getUTCSeconds (t : Z) : Z := (TimeWithinDay t / 1000) mod 60.
Definition getUTCMilliseconds (t : Z) : Z := TimeWithinDay t mod 1000.

(** MakeDay(year, month, date): months outside 0..11 carry into the year,
    and the date counts on from the first of the month, so that it may be
    zero, negative or past the end of the month. *)
Definition MakeDay (year month date : Z) : Z :=
  let ym := year + month / 12 in
  let mn := month mod 12 in
  day_of_civil ym (mn + 1) 1 + date - 1.

Definition MakeDate (day time : Z) : Z := day * msPerDay + time.

(** [Date.UTC(year, month, date)]. *)
Definition UTC (year month date : Z) : Z := MakeDate (MakeDay year month date) 0.

(** [d.setUTCDate(date)]: the new time value of [d]. *)
Definition setUTCDate (t date : Z) : Z :=
  MakeDate (MakeDay (getUTCFullYear t) (getUTCMonth t) date) (TimeWithinDay t).

(** Decimal digits. *)
Definition digit (n : Z) : ascii :=
  ascii_of_nat (48 + Z.to_nat (n mod 10)).

Fixpoint pad (width : nat) (n : Z) (acc : string) : string :=
  match width with
  | O => acc
  | S w => pad w (n / 10) (String (digit n) acc)
  end.

(** The year of [toISOString]: four digits from 0 to 9999, otherwise a sign
    and six digits. *)
Definition isoYear (y : Z) : string :=
  if (0 <=? y) && (y <=? 9999) then pad 4 y ""
  else (if y <? 0 then "-" else "+") +:+ pad 6 (Z.abs y) "".

(** [d.toISOString()]: YYYY-MM-DDTHH:mm:ss.sssZ. *)
Definition toISOString (t : Z) : string :=
  isoYear (getUTCFullYear t) +:+ "-" +:+ pad 2 (getUTCMonth t + 1) ""
  +:+ "-" +:+ pad 2 (getUTCDate t) ""
  +:+ "T" +:+ pad 2 (getUTCHours t) ""
  +:+ ":" +:+ pad 2 (getUTCMinutes t) ""
  +:+ ":" +:+ pad 2 (getUTCSeconds t) ""
  +:+ "." +:+ pad 3 (getUTCMilliseconds t) "" +:+ "Z".

End JsDate.

(** [s.slice(0, n)] on a string. *)
Fixpoint slice0 (n : nat) (s : string) : string :=
  match n, s with
  | S k, String c r => String c (slice0 k r)
  | _, _ => ""
  end.

(* ===================================================================== *)
(** * The commit-history helpers *)
(* ===================================================================== *)

(** The three copies of these helpers in the repository (the client's
    commit-history module, the client's API module and the server) have the
    same body; the client's [buildEmptyCommitHistory] defaults [days] to 30. *)

Record CommitDayActivity := {
  date : string;
  commit_count : Z
}.

Definition startOfUtcDay (t : Z) : Z :=
  JsDate.UTC (JsDate.getUTCFullYear t) (JsDate.getUTCMonth t) (JsDate.getUTCDate t).

Definition formatUtcDate (t : Z) : string :=
  slice0 10 (JsDate.toISOString t).

(** The date at the head of [toISOString], for a day number. *)
Definition datePart (day : Z) : string :=
  JsDate.isoYear (JsDate.year_of_day day)
  +:+ "-" +:+ JsDate.pad 2 (JsDate.month_of_doe (JsDate.doe_of_day day) - 1 + 1) ""
  +:+ "-" +:+ JsDate.pad 2 (JsDate.dom_of_doe (JsDate.doe_of_day day)) "".

(** The loop [for (offset = days - 1; offset >= 0; offset -= 1)]: [n] counts
    the iterations that remain, the next one runs with offset [n - 1]. *)
Fixpoint historyLoop (today : Z) (n : nat) : list CommitDayActivity :=
  match n with
  | O => []
  | S k =>
      let offset := Z.of_nat k in
      let current := JsDate.setUTCDate today (JsDate.getUTCDate today - offset) in
      {| date := formatUtcDate current; commit_count := 0 |} :: historyLoop today k
  end.

(** [buildEmptyCommitHistory(days)], with [now] the value of [new Date()]. *)
Definition buildEmptyCommitHistory (now : Z) (days : Z) : list CommitDayActivity :=
  let today := startOfUtcDay now in
  historyLoop today (Z.to_nat days).

(** The client's signature [buildEmptyCommitHistory(days = 30)]. *)
Definition buildEmptyCommitHistoryDefault (now : Z) (days : option Z) : list CommitDayActivity :=
  buildEmptyCommitHistory now (default 30 days).

(* ===================================================================== *)
(** * JavaScript values and exceptions *)
(* ===================================================================== *)

(** Values as the server sees them: what [JSON.parse] returns, what the
    object literals of the source build, and [undefined] for a property
    that is not there.  Numbers are the integers ([NaN] appears only as the
    result of [Date.parse] and [Number.parseInt], modelled by [None]). *)
#[warnings="-register-all"] Inductive value : Type :=
| VUndefined
| VNull
| VBool (b : bool)
| VNum (n : Z)
| VStr (s : string)
| VArr (items : list value)
| VObj (fields : list (string * value)).

Inductive exn : Type :=
| Error (message : string)     (* [throw new Error(message)] in the source *)
| TypeError                    (* a property read on [null] or [undefined] *)
| SyntaxError                  (* [JSON.parse] on malformed text *)
| NetworkError                 (* [fetch] rejected *)
| RedisError                   (* a Redis command rejected *)
| FileError.                   (* [readFile] rejected *)

Inductive result (A : Type) : Type :=
| Ok (a : A)
| Err (e : exn).
Arguments Ok {A} a.
Arguments Err {A} e.

Definition rbind {A B : Type} (r : result A) (f : A -> result B) : result B :=
  match r with
  | Ok a => f a
  | Err e => Err e
  end.

Notation "x <-? r ; k" := (rbind r (fun x => k))
  (at level 100, r at next level, right associativity).

(** [array.map(f)] where [f] may throw: the first exception wins. *)
Fixpoint rmap {A B : Type} (f : A -> result B) (l : list A) : result (list B) :=
  match l with
  | [] => Ok []
  | x :: r => y <-? f x; ys <-? rmap f r; Ok (y :: ys)
  end.

Module Js.

(** ToBoolean. *)
Definition truthy (v : value) : bool :=
  match v with
  | VUndefined | VNull => false
  | VBool b => b
  | VNum n => negb (n =? 0)
  | VStr s => negb (String.eqb s "")
  | VArr _ | VObj _ => true
  end.

Definition nullish (v : value) : bool :=
  match v with
  | VUndefined | VNull => true
  | _ => false
  end.

Fixpoint lookup_field (k : string) (fields : list (string * value)) : value :=
  match fields with
  | [] => VUndefined
  | (k', v) :: r => if String.eqb k k' then v else lookup_field k r
  end.

(** [v.k] for the property names the server reads; none of them is a
    built-in property of a string, number, boolean or array, so on those
    the read gives [undefined].  On [null] and [undefined] it throws. *)
Definition get (v : value) (k : string) : result value :=
  match v with
  | VUndefined | VNull => Err TypeError
  | VObj fields => Ok (lookup_field k fields)
  | _ => Ok VUndefined
  end.

(** [v?.k]. *)
Definition getOpt (v : value) (k : string) : value :=
  match v with
  | VObj fields => lookup_field k fields
  | _ => VUndefined
  end.

(** [v ?? d]. *)
Definition orElse (v d : value) : value := if nullish v then d else v.

Definition isArray (v : value) : bool :=
  match v with VArr _ => true | _ => false end.

(** [typeof v === 'object'], which holds for [null] and for arrays too. *)
Definition typeofObject (v : value) : bool :=
  match v with VNull | VArr _ | VObj _ => true | _ => false end.

Definition typeofString (v : value) : bool :=
  match v with VStr _ => true | _ => false end.

End Js.

(** Text handed to [JSON.parse] (the value of the Redis key, the content of
    the snapshot file) is represented by what [JSON.parse] makes of it. *)
Inductive text : Type :=
| TextOf (v : value)       (* text that parses to [v] *)
| TextEmpty                (* the empty string *)
| TextMalformed.           (* any other text that [JSON.parse] rejects *)

Definition JSON_parse (t : text) : result value :=
  match t with
  | TextOf v => Ok v
  | TextEmpty | TextMalformed => Err SyntaxError
  end.

(** What a value reads back as after [JSON.stringify]: properties whose value
    is [undefined] are left out, [undefined] in an array becomes [null]. *)
Fixpoint jsonImage (v : value) : value :=
  match v with
  | VArr items =>
      VArr (map (fun x => match x with VUndefined => VNull | _ => jsonImage x end) items)
  | VObj fields =>
      VObj ((fix image (fs : list (string * value)) : list (string * value) :=
               match fs with
               | [] => []
               | (k, VUndefined) :: r => image r
               | (k, x) :: r => (k, jsonImage x) :: image r
               end) fields)
  | _ => v
  end.

(** [JSON.stringify(v)]: no text for [undefined]. *)
Definition JSON_stringify (v : value) : option text :=
  match v with
  | VUndefined => None
  | _ => Some (TextOf (jsonImage v))
  end.

(* ===================================================================== *)
(** * Configuration and host functions *)
(* ===================================================================== *)

(** The environment of the process.  The numeric settings hold the result of
    [Number.parseInt(..., 10)], with [None] for [NaN].  [redisClient] tells
    whether a Redis client is connected after start-up ([REDIS_URL] set and
    [connect()] succeeded); otherwise the variable is [null]. *)
Record config := {
  GITHUB_USERNAME : string;
  GITHUB_COMMIT_HISTORY_DAYS : option Z;
  GITHUB_CACHE_TTL_MINUTES : option Z;
  GITHUB_CACHE_REFRESH_MS : option Z;
  CACHE_REFRESH_TOKEN : string;
  GITHUB_TOKEN : string;
  redisClient : bool
}.

(** Built-ins and helpers whose results the coordinator only passes on:
    [Date.parse] (with the conversion of its argument to a string; [None] is
    [NaN]), [encodeURIComponent], and the two string functions of the server
    that prepare the readme ([decodeBase64Utf8], and [sanitizeReadmeContent],
    a chain of regular-expression replacements). *)
Record host := {
  Date_parse : value -> option Z;
  encodeURIComponent : string -> string;
  decodeBase64Utf8 : string -> string;
  sanitizeReadmeContent : string -> string
}.

Definition assertPositiveInteger (v : option Z) (fallback : Z) : Z :=
  match v with
  | Some n => if 0 <? n then n else fallback
  | None => fallback
  end.

Definition normalizedHistoryDays (cfg : config) : Z :=
  assertPositiveInteger (GITHUB_COMMIT_HISTORY_DAYS cfg) 180.
Definition normalizedTtlMinutes (cfg : config) : Z :=
  assertPositiveInteger (GITHUB_CACHE_TTL_MINUTES cfg) 30.
Definition normalizedRefreshMs (cfg : config) : Z :=
  assertPositiveInteger (GITHUB_CACHE_REFRESH_MS cfg) 900000.

(* ===================================================================== *)
(** * Pure helpers of the server *)
(* ===================================================================== *)

Section Helpers.

Context (h : host) (cfg : config).

Definition normalizeUser (user : value) : result value :=
  login <-? Js.get user "login";
  avatar_url <-? Js.get user "avatar_url";
  html_url <-? Js.get user "html_url";
  name <-? Js.get user "name";
  bio <-? Js.get user "bio";
  followers <-? Js.get user "followers";
  following <-? Js.get user "following";
  public_repos <-? Js.get user "public_repos";
  Ok (VObj [ ("login", login);
             ("avatar_url", avatar_url);
             ("html_url", html_url);
             ("name", Js.orElse name VNull);
             ("bio", Js.orElse bio VNull);
             ("followers", followers);
             ("following", following);
             ("public_repos", public_repos) ]).

Definition normalizeRepo (repo : value) : result value :=
  id <-? Js.get repo "id";
  name <-? Js.get repo "name";
  html_url <-? Js.get repo "html_url";
  description <-? Js.get repo "description";
  created_at <-? Js.get repo "created_at";
  updated_at <-? Js.get repo "updated_at";
  pushed_at <-? Js.get repo "pushed_at";
  language <-? Js.get repo "language";
  stargazers_count <-? Js.get repo "stargazers_count";
  open_issues_count <-? Js.get repo "open_issues_count";
  forks_count <-? Js.get repo "forks_count";
  topics <-? Js.get repo "topics";
  archived <-? Js.get repo "archived";
  Ok (VObj [ ("id", id);
             ("name", name);
             ("html_url", html_url);
             ("description", Js.orElse description VNull);
             ("created_at", created_at);
             ("updated_at", updated_at);
             ("pushed_at", pushed_at);
             ("language", Js.orElse language VNull);
             ("stargazers_count", stargazers_count);
             ("open_issues_count", open_issues_count);
             ("forks_count", forks_count);
             ("topics", if Js.isArray topics then topics else VArr []);
             ("archived", VBool (Js.truthy archived)) ]).

(** The comparator [(a, b) => Date.parse(b.pushed_at) - Date.parse(a.pushed_at)]
    on normalized repositories (objects, so the reads do not throw); [None]
    is [NaN], which [sort] takes as zero. *)
Definition byPushedAtDesc (a b : value) : option Z :=
  match Date_parse h (Js.getOpt b "pushed_at"), Date_parse h (Js.getOpt a "pushed_at") with
  | Some tb, Some ta => Some (tb - ta)
  | _, _ => None
  end.

(** [array.sort(cmp)] as a stable insertion sort: [x] goes in front of the
    first element it is strictly smaller than.  For a comparator that
    orders the elements this is the result of every stable sort.  When a
    comparison is [NaN] the order that [sort] leaves depends on the engine;
    the model then gives one of the permutations, and no theorem says
    which. *)
Fixpoint sortInsert (cmp : value -> value -> option Z) (x : value) (l : list value) : list value :=
  match l with
  | [] => [x]
  | y :: r =>
      match cmp x y with
      | Some c => if c <? 0 then x :: y :: r else y :: sortInsert cmp x r
      | None => y :: sortInsert cmp x r
      end
  end.

Definition sortBy (cmp : value -> value -> option Z) (l : list value) : list value :=
  fold_left (fun acc x => sortInsert cmp x acc) l [].

Definition historyValue (hist : list CommitDayActivity) : value :=
  VArr (map (fun d => VObj [ ("date", VStr (date d)); ("commit_count", VNum (commit_count d)) ]) hist).

(** [buildPayload({ user, repos, readme, commitHistory })], with [now] the
    value of [new Date()]. *)
Definition buildPayload (now : Z) (user repos readme commitHistory : value) : value :=
  VObj [ ("meta", VObj [ ("username", VStr (GITHUB_USERNAME cfg));
                         ("fetched_at", VStr (JsDate.toISOString now));
                         ("source", VStr "github-api");
                         ("cache_ttl_minutes", VNum (normalizedTtlMinutes cfg)) ]);
         ("user", user);
         ("repos", repos);
         ("readme", readme);
         ("commit_history", commitHistory) ].

(** [reposSnapshot.find((repo) => repo && typeof repo.owner === 'object')?.owner]. *)
Fixpoint findOwner (items : list value) : value :=
  match items with
  | [] => VUndefined
  | repo :: r =>
      if Js.truthy repo && Js.typeofObject (Js.getOpt repo "owner")
      then Js.getOpt repo "owner"
      else findOwner r
  end.

Definition stringOr (v : value) (d : string) : string :=
  match v with VStr s => s | _ => d end.

(** [buildFallbackPayloadFromSnapshot(reposSnapshot)]: [None] is [null]. *)
Definition buildFallbackPayloadFromSnapshot (now : Z) (reposSnapshot : value) : result (option value) :=
  match reposSnapshot with
  | VArr [] => Ok None
  | VArr items =>
      normalized <-? rmap normalizeRepo items;
      let repos := sortBy byPushedAtDesc normalized in
      let owner := findOwner items in
      let login := stringOr (Js.getOpt owner "login") (GITHUB_USERNAME cfg) in
      Ok (Some (buildPayload now
        (VObj [ ("login", VStr login);
                ("avatar_url", VStr (stringOr (Js.getOpt owner "avatar_url")
                   ("https://avatars.githubusercontent.com/" +:+ encodeURIComponent h login)));
                ("html_url", VStr (stringOr (Js.getOpt owner "html_url")
                   ("https://github.com/" +:+ encodeURIComponent h login)));
                ("name", VNull);
                ("bio", VNull);
                ("followers", VNum 0);
                ("following", VNum 0);
                ("public_repos", VNum (Z.of_nat (length repos))) ])
        (VArr repos)
        (VStr "")
        (historyValue (buildEmptyCommitHistory now (normalizedHistoryDays cfg)))))
  | _ => Ok None
  end.

(** [isPayloadFresh(payload)], with [now] the value of [Date.now()]. *)
Definition isPayloadFresh (now : Z) (payload : value) : bool :=
  let fetched_at := Js.getOpt (Js.getOpt payload "meta") "fetched_at" in
  if negb (Js.truthy fetched_at) then false
  else
    match Date_parse h fetched_at with
    | None => false
    | Some fetchedAt => now - fetchedAt <=? normalizedTtlMinutes cfg * 60000
    end.

End Helpers.

(* ===================================================================== *)
(** * Asynchronous programs *)
(* ===================================================================== *)

(** A promise is named by the order of its creation. *)
Definition pid := nat.

(** What [fetch] resolves to, as far as [githubRequest] looks at it; [body] is
    the outcome of [response.json()]. *)
Record response := {
  ok : bool;
  status : Z;
  statusText : string;
  body : result value
}.

(** The operations a task waits for.  Each is an [await] of the source. *)
Inductive io : Type :=
| Fetch (url : string) (authorization : option string)
| FetchAll (urls : list string) (authorization : option string)
                                   (* the requests under one [Promise.all] *)
| RedisGet (key : string)
| RedisSet (key : string) (t : text)
| ReadFile (path : string)
| Await (p : pid)                  (* [await] of a promise held in a variable *)
| Yield.                           (* [await] of the call of an async function
                                      that has run to its end *)

Definition reply_of (e : io) : Type :=
  match e with
  | Fetch _ _ => result response
  | FetchAll _ _ => list (result response)
  | RedisGet _ => result (option text)
  | RedisSet _ _ => result unit
  | ReadFile _ => result text
  | Await _ => result value
  | Yield => unit
  end.

(** Programs: the synchronous steps read the clock and the two module
    variables [inMemoryCache] and [refreshPromise]; [Async] calls an async
    function without awaiting it and gets its promise; [Io] suspends the task
    until the event loop hands it the reply. *)
Inductive prog (A : Type) : Type :=
| Ret (a : A)
| Throw (e : exn)
| Now (k : Z -> prog A)
| GetCache (k : value -> prog A)
| SetCache (v : value) (k : prog A)
| GetRefreshPromise (k : option pid -> prog A)
| SetRefreshPromise (p : option pid) (k : prog A)
| Async (body : prog value) (k : pid -> prog A)
| Io (e : io) (k : reply_of e -> prog A).

Arguments Ret {A} a.
Arguments Throw {A} e.
Arguments Now {A} k.
Arguments GetCache {A} k.
Arguments SetCache {A} v k.
Arguments GetRefreshPromise {A} k.
Arguments SetRefreshPromise {A} p k.
Arguments Async {A} body k.
Arguments Io {A} e k.

(** Run [P] and hand its outcome, a value or an exception, to [k]: the common
    form of sequencing, [try]/[catch] and [try]/[finally]. *)
Fixpoint attempt {A B : Type} (P : prog A) (k : result A -> prog B) : prog B :=
  match P with
  | Ret a => k (Ok a)
  | Throw e => k (Err e)
  | Now f => Now (fun t => attempt (f t) k)
  | GetCache f => GetCache (fun v => attempt (f v) k)
  | SetCache v f => SetCache v (attempt f k)
  | GetRefreshPromise f => GetRefreshPromise (fun p => attempt (f p) k)
  | SetRefreshPromise p f => SetRefreshPromise p (attempt f k)
  | Async body f => Async body (fun p => attempt (f p) k)
  | Io e f => Io e (fun x => attempt (f x) k)
  end.

Definition lift {A : Type} (r : result A) : prog A :=
  match r with
  | Ok a => Ret a
  | Err e => Throw e
  end.

Definition bind {A B : Type} (P : prog A) (f : A -> prog B) : prog B :=
  attempt P (fun r => match r with Ok a => f a | Err e => Throw e end).

Definition tryCatch {A : Type} (P : prog A) (handler : exn -> prog A) : prog A :=
  attempt P (fun r => match r with Ok a => Ret a | Err e => handler e end).

Definition tryFinally {A : Type} (P : prog A) (cleanup : prog unit) : prog A :=
  attempt P (fun r => bind cleanup (fun _ => lift r)).

(** [await f(...)] for an async function [f]: the body runs, then the caller
    resumes on a later turn of the event loop with its outcome. *)
Definition awaitCall {A : Type} (P : prog A) : prog A :=
  attempt P (fun r => Io Yield (fun _ => lift r)).

(** [await p] for a promise [p]. *)
Definition awaitPromise (p : pid) : prog value :=
  Io (Await p) lift.

Notation "x <- P ;; Q" := (bind P (fun x => Q))
  (at level 100, P at next level, right associativity).
Notation "P ;; Q" := (bind P (fun _ => Q))
  (at level 100, right associativity).

(** What an Express handler sends: the status code, the [X-Cache-Status]
    header if set, and the JSON body. *)
Inductive cacheStatus : Type := HIT | MISS | REFRESH | STALE | FALLBACK.

Record reply := {
  code : Z;
  xCacheStatus : option cacheStatus;
  json : value
}.

Definition GITHUB_API_BASE : string := "https://api.github.com".

Section Programs.

Context (h : host) (cfg : config).

Definition cacheKey : string :=
  "github-dashboard-cache:" +:+ GITHUB_USERNAME cfg +:+ ":v1".

Definition authorization : option string :=
  if String.eqb (GITHUB_TOKEN cfg) "" then None
  else Some ("Bearer " +:+ GITHUB_TOKEN cfg).

(** [githubRequest] after [fetch] has settled. *)
Definition afterFetch (r : result response) : prog value :=
  match r with
  | Err e => Throw e
  | Ok resp =>
      if negb (ok resp) then
        Io Yield (fun _ =>
          let details :=
            match body resp with
            | Ok payload =>
                match Js.getOpt payload "message" with
                | VStr m => if Js.truthy (VStr m) then " - " +:+ m else ""
                | _ => ""
                end
            | Err _ => ""
            end in
          Throw (Error ("GitHub request failed: " +:+ pretty (status resp) +:+ " "
                        +:+ statusText resp +:+ details)))
      else lift (body resp)
  end.

Definition githubRequest (pathname : string) : prog value :=
  Io (Fetch (GITHUB_API_BASE +:+ pathname) authorization) afterFetch.

(** [Math.max(1, payloadSize)] for one event. *)
Definition eventCommits (event : value) : Z :=
  let payload := Js.getOpt event "payload" in
  let payloadSize :=
    match Js.getOpt payload "size" with
    | VNum n => n
    | _ => match Js.getOpt payload "commits" with
           | VArr commits => Z.of_nat (length commits)
           | _ => 1
           end
    end in
  Z.max 1 payloadSize.

(** One turn of [for (const event of events)]: the map and the flag
    [reachedOlderEvents]. *)
Definition countEvent (rangeStart : option Z) (acc : gmap string Z * bool) (event : value)
  : result (gmap string Z * bool) :=
  let '(historyByDate, reachedOlderEvents) := acc in
  created_at <-? Js.get event "created_at";
  match Date_parse h created_at with
  | None => Ok acc
  | Some eventTime =>
      if match rangeStart with Some rs => eventTime <? rs | None => false end
      then Ok (historyByDate, true)
      else
        match Js.getOpt event "type" with
        | VStr ty =>
            if String.eqb ty "PushEvent" then
              let dayKey := formatUtcDate eventTime in
              match historyByDate !! dayKey with
              | None => Ok acc
              | Some n => Ok (<[dayKey := n + eventCommits event]> historyByDate, reachedOlderEvents)
              end
            else Ok acc
        | _ => Ok acc
        end
  end.

Fixpoint countEvents (rangeStart : option Z) (acc : gmap string Z * bool) (events : list value)
  : result (gmap string Z * bool) :=
  match events with
  | [] => Ok acc
  | event :: r => acc' <-? countEvent rangeStart acc event; countEvents rangeStart acc' r
  end.

(** [for (let page = 1; page <= maxPages; page += 1)], with [left] pages to go. *)
Fixpoint pagesLoop (username : string) (rangeStart : option Z) (left : nat) (page : Z)
    (historyByDate : gmap string Z) : prog (gmap string Z) :=
  match left with
  | O => Ret historyByDate
  | S left' =>
      events <- awaitCall (githubRequest ("/users/" +:+ username
                 +:+ "/events/public?per_page=100&page=" +:+ pretty page)) ;;
      match events with
      | VArr [] => Ret historyByDate
      | VArr items =>
          match countEvents rangeStart (historyByDate, false) items with
          | Err e => Throw e
          | Ok (historyByDate', reachedOlderEvents) =>
              if reachedOlderEvents then Ret historyByDate'
              else pagesLoop username rangeStart left' (page + 1) historyByDate'
          end
      | _ => Ret historyByDate
      end
  end.

Definition fetchCommitHistory (username : string) (days : Z) : prog (list CommitDayActivity) :=
  Now (fun now =>
    let baseHistory := buildEmptyCommitHistory now days in
    let historyByDate : gmap string Z :=
      list_to_map (map (fun day => (date day, commit_count day)) (rev baseHistory)) in
    match baseHistory with
    | [] => Throw TypeError
    | first :: _ =>
        let rangeStart := Date_parse h (VStr (date first +:+ "T00:00:00.000Z")) in
        let maxPages : nat :=
          if days <=? 30 then 3%nat else if days <=? 60 then 5%nat
          else if days <=? 120 then 7%nat else 10%nat in
        historyByDate' <- pagesLoop username rangeStart maxPages 1 historyByDate ;;
        Ret (map (fun day =>
               {| date := date day;
                  commit_count := default 0 (historyByDate' !! date day) |}) baseHistory)
    end).

(** [fetchFreshPayload].  The three requests under [Promise.all] settle
    together in the model; when several of them fail, the exception of the
    first in the list is the one thrown (in the source, that of the first to
    fail, which only reaches the log). *)
Definition fetchFreshPayload : prog value :=
  let user := GITHUB_USERNAME cfg in
  Io (FetchAll [ GITHUB_API_BASE +:+ "/users/" +:+ user;
                 GITHUB_API_BASE +:+ "/users/" +:+ user +:+ "/repos?per_page=100";
                 GITHUB_API_BASE +:+ "/repos/" +:+ user +:+ "/" +:+ user +:+ "/readme" ]
               authorization)
     (fun rs =>
        match rs with
        | [r1; r2; r3] =>
            userResponse <- afterFetch r1 ;;
            reposResponse <- afterFetch r2 ;;
            readmeResponse <- afterFetch r3 ;;
            match reposResponse with
            | VArr items =>
                encoding <- lift (Js.get readmeResponse "encoding") ;;
                match encoding, Js.getOpt readmeResponse "content" with
                | VStr enc, VStr content =>
                    if String.eqb enc "base64" then
                      Now (fun now0 =>
                        let empty := buildEmptyCommitHistory now0 (normalizedHistoryDays cfg) in
                        attempt (awaitCall (fetchCommitHistory user (normalizedHistoryDays cfg)))
                          (fun fetched =>
                             let commitHistory :=
                               match fetched with Ok hist => hist | Err _ => empty end in
                             normalized <- lift (rmap normalizeRepo items) ;;
                             let repos := sortBy (byPushedAtDesc h) normalized in
                             normalizedUser <- lift (normalizeUser userResponse) ;;
                             Now (fun now =>
                               Ret (buildPayload cfg now normalizedUser (VArr repos)
                                      (VStr (sanitizeReadmeContent h (decodeBase64Utf8 h content)))
                                      (historyValue commitHistory)))))
                    else Throw (Error "Unsupported README format from GitHub API.")
                | _, _ => Throw (Error "Unsupported README format from GitHub API.")
                end
            | _ => Throw (Error "Invalid GitHub repos response.")
            end
        | _ => Throw NetworkError
        end).

Definition readCachedPayload : prog value :=
  if redisClient cfg then
    Io (RedisGet cacheKey) (fun got =>
      match got with
      | Err e => Throw e
      | Ok None => Ret VNull
      | Ok (Some TextEmpty) => Ret VNull
      | Ok (Some raw) => lift (JSON_parse raw)
      end)
  else GetCache Ret.

Definition writeCachedPayload (payload : value) : prog unit :=
  (if redisClient cfg then
     match JSON_stringify payload with
     | Some raw => Io (RedisSet cacheKey raw) lift
     | None => Throw TypeError
     end
   else Ret tt) ;;
  SetCache payload (Ret tt).

(** What [loadRepoSnapshot] makes of the outcome of [readFile]: the parsed
    array, or [null] when the read or [JSON.parse] threw or the value is not
    an array. *)
Definition snapshotValue (read : result text) : value :=
  match read with
  | Ok raw =>
      match JSON_parse raw with
      | Ok parsed => if Js.isArray parsed then parsed else VNull
      | Err _ => VNull
      end
  | Err _ => VNull
  end.

(** [loadRepoSnapshot], which reads the file [repos] of the working
    directory. *)
Definition loadRepoSnapshot : prog value :=
  Io (ReadFile "repos") (fun read => Ret (snapshotValue read)).

(** The body of the async function whose promise [refreshCache] keeps in
    [refreshPromise]. *)
Definition refreshBody : prog value :=
  payload <- awaitCall fetchFreshPayload ;;
  awaitCall (writeCachedPayload payload) ;;
  Ret payload.

Definition refreshCache : prog value :=
  GetRefreshPromise (fun refreshPromise =>
    match refreshPromise with
    | Some p => awaitPromise p
    | None =>
        Async refreshBody (fun p =>
          SetRefreshPromise (Some p)
            (tryFinally (awaitPromise p) (SetRefreshPromise None (Ret tt))))
    end).

Definition sendJson (st : option cacheStatus) (v : value) : reply :=
  {| code := 200; xCacheStatus := st; json := v |}.

Definition sendMessage (c : Z) (message : string) : reply :=
  {| code := c; xCacheStatus := None; json := VObj [ ("message", VStr message) ] |}.

(** The [catch] block of the read endpoint. *)
Definition getAfterFailure (cached : value) : prog reply :=
  if Js.truthy cached then Ret (sendJson (Some STALE) cached)
  else
    reposSnapshot <- awaitCall loadRepoSnapshot ;;
    Now (fun now =>
      fallbackPayload <- lift (buildFallbackPayloadFromSnapshot h cfg now reposSnapshot) ;;
      match fallbackPayload with
      | Some payload =>
          awaitCall (writeCachedPayload payload) ;;
          Ret (sendJson (Some FALLBACK) payload)
      | None =>
          Ret (sendMessage 503
                 "Unable to refresh GitHub data cache. Configure GH_API_TOKEN to increase API limits.")
      end).

(** The read endpoint once [readCachedPayload] has answered [cached]. *)
Definition getAfterRead (cached : value) : prog reply :=
  Now (fun now =>
    if Js.truthy cached && isPayloadFresh h cfg now cached
    then Ret (sendJson (Some HIT) cached)
    else
      attempt (awaitCall refreshCache) (fun refreshed =>
        match refreshed with
        | Ok fresh => Ret (sendJson (Some (if Js.truthy cached then REFRESH else MISS)) fresh)
        | Err _ => getAfterFailure cached
        end)).

(** [app.get('/api/github-dashboard', ...)]. *)
Definition getDashboard : prog reply :=
  cached <- awaitCall readCachedPayload ;;
  getAfterRead cached.

(** [app.post('/api/github-dashboard/refresh', ...)]; [token] is
    [req.headers['x-refresh-token']]. *)
Definition postRefresh (token : value) : prog reply :=
  let mismatch :=
    match token with
    | VStr t => negb (String.eqb t (CACHE_REFRESH_TOKEN cfg))
    | _ => true
    end in
  if negb (String.eqb (CACHE_REFRESH_TOKEN cfg) "") && mismatch
  then Ret (sendMessage 401 "Unauthorized refresh request.")
  else
    attempt (awaitCall refreshCache) (fun refreshed =>
      match refreshed with
      | Ok payload => Ret (sendJson (Some REFRESH) payload)
      | Err _ => Ret (sendMessage 503 "GitHub cache refresh failed.")
      end).

(** The callback of [setInterval]: [void refreshCache().catch(...)]. *)
Definition scheduledRefresh : prog unit :=
  attempt refreshCache (fun _ => Ret tt).

(** The warm-up at start: [refreshCache()], and on failure the snapshot. *)
Definition warmUp : prog unit :=
  attempt refreshCache (fun refreshed =>
    match refreshed with
    | Ok _ => Ret tt
    | Err _ =>
        reposSnapshot <- awaitCall loadRepoSnapshot ;;
        Now (fun now =>
          fallbackPayload <- lift (buildFallbackPayloadFromSnapshot h cfg now reposSnapshot) ;;
          match fallbackPayload with
          | Some payload => awaitCall (writeCachedPayload payload)
          | None => Ret tt
          end)
    end).

End Programs.

(* ===================================================================== *)
(** * The event loop *)
(* ===================================================================== *)

(** The module variables of the server that change after start-up, and the
    number of promises made by async calls so far. *)
Record srv := {
  inMemoryCache : value;
  refreshPromise : option pid;
  promiseCount : nat
}.

Definition withCache (v : value) (s : srv) : srv :=
  {| inMemoryCache := v; refreshPromise := refreshPromise s; promiseCount := promiseCount s |}.
Definition withRefreshPromise (p : option pid) (s : srv) : srv :=
  {| inMemoryCache := inMemoryCache s; refreshPromise := p; promiseCount := promiseCount s |}.
Definition withPromiseCount (n : nat) (s : srv) : srv :=
  {| inMemoryCache := inMemoryCache s; refreshPromise := refreshPromise s; promiseCount := n |}.

(** A task after a synchronous run: finished, or suspended at an [await]. *)
Inductive progress (A : Type) : Type :=
| Done (r : result A)
| Waiting (e : io) (k : reply_of e -> prog A).
Arguments Done {A} r.
Arguments Waiting {A} e k.

(** What a synchronous run did, in order. *)
Inductive action : Type :=
| WroteCache (v : value)                 (* [inMemoryCache = v] *)
| WroteRefreshPromise (p : option pid)   (* [refreshPromise = p] *)
| Called (p : pid) (st : progress value)   (* an async call, its promise, and
                                            where its body stands *)
| Asked (e : io)                         (* the operation now awaited *)
| Stored (key : string) (raw : text).    (* Redis has carried out [SET key raw] *)

(** JavaScript runs a task without interruption up to its next [await]:
    [run P now s] is that run, from the variables [s], with the clock at
    [now]. *)
Fixpoint run {A : Type} (P : prog A) (now : Z) (s : srv) : srv * list action * progress A :=
  match P with
  | Ret a => (s, [], Done (Ok a))
  | Throw e => (s, [], Done (Err e))
  | Now k => run (k now) now s
  | GetCache k => run (k (inMemoryCache s)) now s
  | SetCache v k =>
      let '(s', tr, st) := run k now (withCache v s) in
      (s', WroteCache v :: tr, st)
  | GetRefreshPromise k => run (k (refreshPromise s)) now s
  | SetRefreshPromise p k =>
      let '(s', tr, st) := run k now (withRefreshPromise p s) in
      (s', WroteRefreshPromise p :: tr, st)
  | Async body k =>
      let '(s1, tr1, st1) := run body now s in
      let p := promiseCount s1 in
      let '(s2, tr2, st2) := run (k p) now (withPromiseCount (S p) s1) in
      (s2, tr1 ++ Called p st1 :: tr2, st2)
  | Io e k => (s, [Asked e], Waiting e k)
  end.

(** What the event loop hands to a suspended task. *)
Inductive answer : Type :=
| AResponse (r : result response)
| AResponses (rs : list (result response))
| AGot (r : result (option text))
| ASet (r : result unit)
| AFile (r : result text)
| ASettled (r : result value)
| ATurn.

Definition coerce (e : io) (a : answer) : option (reply_of e) :=
  match e, a with
  | Fetch _ _, AResponse r => Some r
  | FetchAll urls _, AResponses rs =>
      if Nat.eqb (length rs) (length urls) then Some rs else None
  | RedisGet _, AGot r => Some r
  | RedisSet _ _, ASet r => Some r
  | ReadFile _, AFile r => Some r
  | Await _, ASettled r => Some r
  | Yield, ATurn => Some tt
  | _, _ => None
  end.

(** What the answer to an awaited operation tells about the store. *)
Definition acknowledged (e : io) (a : answer) : list action :=
  match e, a with
  | RedisSet key raw, ASet (Ok _) => [Stored key raw]
  | _, _ => []
  end.

Definition resume {A : Type} (st : progress A) (a : answer) (now : Z) (s : srv)
  : option (srv * list action * progress A) :=
  match st with
  | Done _ => None
  | Waiting e k =>
      match coerce e a with
      | Some x =>
          let '(s', tr, st') := run (k x) now s in
          Some (s', acknowledged e a ++ tr, st')
      | None => None
      end
  end.

(** One task followed through its turns.  Between two turns other tasks may
    have run: each turn says what the task is handed ([given]), the time
    ([at_]) and the variables as the task finds them ([found]).  The result
    is everything the task did, the variables as its last turn left them, and
    where it stands. *)
Record turn := {
  given : answer;
  at_ : Z;
  found : srv
}.

Fixpoint follow {A : Type} (st : progress A) (s : srv) (turns : list turn)
  : option (srv * list action * progress A) :=
  match turns with
  | [] => Some (s, [], st)
  | t :: rest =>
      match resume st (given t) (at_ t) (found t) with
      | Some (s', tr, st') =>
          match follow st' s' rest with
          | Some (s'', tr', st'') => Some (s'', tr ++ tr', st'')
          | None => None
          end
      | None => None
      end
  end.

Definition play {A : Type} (P : prog A) (now : Z) (s : srv) (turns : list turn)
  : option (srv * list action * progress A) :=
  let '(s', tr, st) := run P now s in
  match follow st s' turns with
  | Some (s'', tr', st') => Some (s'', tr ++ tr', st')
  | None => None
  end.

(** The time of the last of the turns, [now] if there is none. *)
Fixpoint lastTime (now : Z) (turns : list turn) : Z :=
  match turns with
  | [] => now
  | t :: rest => lastTime (at_ t) rest
  end.

Definition Turn (a : answer) (t : Z) (s : srv) : turn :=
  {| given := a; at_ := t; found := s |}.

(** The turns of a caller of [await refreshCache()]: the promise settles
    with [r], then the caller itself resumes. *)
Definition settleTurns (r : result value) (t2 : Z) (s2 : srv) (t3 : Z) (s3 : srv) : list turn :=
  [ Turn (ASettled r) t2 s2; Turn ATurn t3 s3 ].

(** The turns of [await loadRepoSnapshot()]. *)
Definition fileTurns (read : result text) (t4 : Z) (s4 : srv) (t5 : Z) (s5 : srv) : list turn :=
  [ Turn (AFile read) t4 s4; Turn ATurn t5 s5 ].

(** The turns of [await writeCachedPayload(payload)] when the store accepts
    the write. *)
Definition storeTurns (cfg : config) (t6 : Z) (s6 : srv) (t7 : Z) (s7 : srv) : list turn :=
  if redisClient cfg then [ Turn (ASet (Ok tt)) t6 s6; Turn ATurn t7 s7 ]
  else [ Turn ATurn t7 s7 ].

(** The changes of the store among the actions of a task: assignments to
    [inMemoryCache] and [SET] commands that Redis has carried out. *)
Inductive write : Type :=
| MemoryWrite (v : value)
| RedisWrite (key : string) (raw : text).

Fixpoint writes (tr : list action) : list write :=
  match tr with
  | [] => []
  | WroteCache v :: rest => MemoryWrite v :: writes rest
  | Stored key raw :: rest => RedisWrite key raw :: writes rest
  | _ :: rest => writes rest
  end.

(** The tasks of the event loop: a request that has not been answered, a
    background job (scheduler tick, warm-up), the body of a refresh with the
    promise it will settle. *)
Inductive task : Type :=
| TRequest (e : io) (k : reply_of e -> prog reply)
| TBackground (e : io) (k : reply_of e -> prog unit)
| TRefresh (p : pid) (e : io) (k : reply_of e -> prog value).

Record world := {
  shared : srv;
  redis : gmap string text;             (* the keys of the Redis server *)
  settled : gmap pid (result value);    (* the promises that have settled *)
  tasks : gmap nat task;
  taskCount : nat;
  replies : list (nat * result reply)   (* per request: what was sent, or the
                                           exception that left the handler *)
}.

(** What the outside does to a waiting operation: the network and the file
    system produce a reply, Redis and the event loop let the operation
    succeed or fail. *)
Inductive outcome : Type :=
| OResponse (r : result response)
| OResponses (rs : list (result response))
| OFile (r : result text)
| OSucceed
| OFail.

Inductive request : Type :=
| GetDashboard
| PostRefresh (token : value)
| Tick
| WarmUp.

Inductive event : Type :=
| Arrive (r : request) (now : Z)
| Deliver (t : nat) (o : outcome) (now : Z).

(** The async calls among the actions of a run. *)
Fixpoint calls (tr : list action) : list (pid * progress value) :=
  match tr with
  | [] => []
  | Called p st :: rest => (p, st) :: calls rest
  | _ :: rest => calls rest
  end.

(** The bodies of the async calls of one run become tasks, or settle their
    promise at once when they ran to their end. *)
Fixpoint adopt (cs : list (pid * progress value)) (w : world) : world :=
  match cs with
  | [] => w
  | (p, Done r) :: rest =>
      adopt rest {| shared := shared w; redis := redis w;
                    settled := <[p := r]> (settled w);
                    tasks := tasks w; taskCount := taskCount w; replies := replies w |}
  | (p, Waiting e k) :: rest =>
      adopt rest {| shared := shared w; redis := redis w; settled := settled w;
                    tasks := <[taskCount w := TRefresh p e k]> (tasks w);
                    taskCount := S (taskCount w); replies := replies w |}
  end.

Definition withShared (s : srv) (w : world) : world :=
  {| shared := s; redis := redis w; settled := settled w; tasks := tasks w;
     taskCount := taskCount w; replies := replies w |}.

Definition withTasks (ts : gmap nat task) (w : world) : world :=
  {| shared := shared w; redis := redis w; settled := settled w; tasks := ts;
     taskCount := taskCount w; replies := replies w |}.

(** Where task [t] stands after a run: suspended again, or finished. *)
Definition placeRequest (t : nat) (st : progress reply) (w : world) : world :=
  match st with
  | Waiting e k => withTasks (<[t := TRequest e k]> (tasks w)) w
  | Done r =>
      {| shared := shared w; redis := redis w; settled := settled w;
         tasks := delete t (tasks w); taskCount := taskCount w;
         replies := replies w ++ [(t, r)] |}
  end.

(** A background job that ends is taken off, also when it ends with an
    exception.  (Node ends the process on the unhandled rejection that the
    inner chain of the warm-up can leave: the model has the runs of the
    server and, after such a rejection, more.) *)
Definition placeBackground (t : nat) (st : progress unit) (w : world) : world :=
  match st with
  | Waiting e k => withTasks (<[t := TBackground e k]> (tasks w)) w
  | Done _ => withTasks (delete t (tasks w)) w
  end.

Definition placeRefresh (t : nat) (p : pid) (st : progress value) (w : world) : world :=
  match st with
  | Waiting e k => withTasks (<[t := TRefresh p e k]> (tasks w)) w
  | Done r =>
      {| shared := shared w; redis := redis w; settled := <[p := r]> (settled w);
         tasks := delete t (tasks w); taskCount := taskCount w; replies := replies w |}
  end.

(** The answer a waiting operation gets in world [w], and the world after it.
    A settled promise hands out its outcome; a [GET] that succeeds reads the
    key; a [SET] that succeeds stores the text, one that fails stores
    nothing. *)
Definition answerOf (w : world) (e : io) (o : outcome) : option (answer * world) :=
  match e, o with
  | Fetch _ _, OResponse r => Some (AResponse r, w)
  | FetchAll _ _, OResponses rs => Some (AResponses rs, w)
  | ReadFile _, OFile r => Some (AFile r, w)
  | RedisGet key, OSucceed => Some (AGot (Ok (redis w !! key)), w)
  | RedisGet _, OFail => Some (AGot (Err RedisError), w)
  | RedisSet key raw, OSucceed =>
      Some (ASet (Ok tt),
            {| shared := shared w; redis := <[key := raw]> (redis w); settled := settled w;
               tasks := tasks w; taskCount := taskCount w; replies := replies w |})
  | RedisSet _ _, OFail => Some (ASet (Err RedisError), w)
  | Await p, OSucceed =>
      match settled w !! p with
      | Some r => Some (ASettled r, w)
      | None => None
      end
  | Yield, OSucceed => Some (ATurn, w)
  | _, _ => None
  end.

Section Loop.

Context (h : host) (cfg : config).

Definition withTaskCount (n : nat) (w : world) : world :=
  {| shared := shared w; redis := redis w; settled := settled w; tasks := tasks w;
     taskCount := n; replies := replies w |}.

(** A request arrives: its handler runs up to its first [await]. *)
Definition arrive (r : request) (now : Z) (w : world) : world :=
  let t := taskCount w in
  let w0 := withTaskCount (S t) w in
  match r with
  | GetDashboard =>
      let '(s, tr, st) := run (getDashboard h cfg) now (shared w) in
      placeRequest t st (adopt (calls tr) (withShared s w0))
  | PostRefresh token =>
      let '(s, tr, st) := run (postRefresh h cfg token) now (shared w) in
      placeRequest t st (adopt (calls tr) (withShared s w0))
  | Tick =>
      let '(s, tr, st) := run (scheduledRefresh h cfg) now (shared w) in
      placeBackground t st (adopt (calls tr) (withShared s w0))
  | WarmUp =>
      let '(s, tr, st) := run (warmUp h cfg) now (shared w) in
      placeBackground t st (adopt (calls tr) (withShared s w0))
  end.

(** A waiting task gets its answer and runs up to its next [await]. *)
Definition deliver (t : nat) (o : outcome) (now : Z) (w : world) : option world :=
  match tasks w !! t with
  | None => None
  | Some (TRequest e k) =>
      match answerOf w e o with
      | Some (a, w1) =>
          match coerce e a with
          | Some x =>
              let '(s, tr, st) := run (k x) now (shared w1) in
              Some (placeRequest t st (adopt (calls tr) (withShared s w1)))
          | None => None
          end
      | None => None
      end
  | Some (TBackground e k) =>
      match answerOf w e o with
      | Some (a, w1) =>
          match coerce e a with
          | Some x =>
              let '(s, tr, st) := run (k x) now (shared w1) in
              Some (placeBackground t st (adopt (calls tr) (withShared s w1)))
          | None => None
          end
      | None => None
      end
  | Some (TRefresh p e k) =>
      match answerOf w e o with
      | Some (a, w1) =>
          match coerce e a with
          | Some x =>
              let '(s, tr, st) := run (k x) now (shared w1) in
              Some (placeRefresh t p st (adopt (calls tr) (withShared s w1)))
          | None => None
          end
      | None => None
      end
  end.

Definition step (ev : event) (w : world) : option world :=
  match ev with
  | Arrive r now => Some (arrive r now w)
  | Deliver t o now => deliver t o now w
  end.

Fixpoint steps (evs : list event) (w : world) : option world :=
  match evs with
  | [] => Some w
  | ev :: rest =>
      match step ev w with
      | Some w' => steps rest w'
      | None => None
      end
  end.

End Loop.

(** The process at start: nothing cached in memory, no refresh in flight;
    the Redis server holds whatever earlier runs left there. *)
Definition initial (kept : gmap string text) : world :=
  {| shared := {| inMemoryCache := VNull; refreshPromise := None; promiseCount := 0 |};
     redis := kept;
     settled := ∅;
     tasks := ∅;
     taskCount := 0;
     replies := [] |}.

Definition isRefresh (t : task) : bool :=
  match t with TRefresh _ _ _ => true | _ => false end.

(** The refresh operations in flight: the bodies started by [refreshCache]
    that have not run to their end. *)
Definition inFlight (w : world) : nat :=
  length (List.filter (fun it => isRefresh (snd it)) (map_to_list (tasks w))).

(** The store the coordinator reads: the Redis key when a client is
    connected, the variable [inMemoryCache] otherwise. *)
Inductive stored : Type :=
| InRedis (raw : option text)
| InMemory (v : value).

Definition store (cfg : config) (w : world) : stored :=
  if redisClient cfg then InRedis (redis w !! cacheKey cfg)
  else InMemory (inMemoryCache (shared w)).

(** What the requests of a run were sent: the status code and the
    [X-Cache-Status] header, or the exception that left the handler. *)
Definition sent (w : option world) : list (nat * result (Z * option cacheStatus)) :=
  match w with
  | Some w =>
      map (fun '(t, r) =>
             (t, match r with
                 | Ok rep => Ok (code rep, xCacheStatus rep)
                 | Err e => Err e
                 end)) (replies w)
  | None => []
  end.

(* ===================================================================== *)
(** * The discipline of [refreshPromise] *)
(* ===================================================================== *)

(** A program is [quiet] when it neither writes [refreshPromise] nor calls an
    async function without awaiting it: the body of a refresh is. *)
Inductive quiet {A : Type} : prog A -> Prop :=
| quiet_ret a : quiet (Ret a)
| quiet_throw e : quiet (Throw e)
| quiet_now k : (forall t, quiet (k t)) -> quiet (Now k)
| quiet_getCache k : (forall v, quiet (k v)) -> quiet (GetCache k)
| quiet_setCache v k : quiet k -> quiet (SetCache v k)
| quiet_io e k : (forall x, quiet (k x)) -> quiet (Io e k).

(** How far a task is in the protocol of [refreshCache]: it does not hold the
    handle ([Idle]); it has read [refreshPromise] as [null] and is about to
    start the refresh ([Claiming]); it has the promise [p] of the refresh and
    must store it ([Claimed]); it has stored [p] and must await it
    ([Holding]); it has been resumed and must clear the handle
    ([Releasing]). *)
Inductive phase : Type :=
| Idle
| Claiming
| Claimed (p : pid)
| Holding (p : pid)
| Releasing.

Inductive follows {A : Type} : phase -> prog A -> Prop :=
| follows_ret a : follows Idle (Ret a)
| follows_throw e : follows Idle (Throw e)
| follows_now k : (forall t, follows Idle (k t)) -> follows Idle (Now k)
| follows_getCache k : (forall v, follows Idle (k v)) -> follows Idle (GetCache k)
| follows_setCache v k : follows Idle k -> follows Idle (SetCache v k)
| follows_io e k : (forall x, follows Idle (k x)) -> follows Idle (Io e k)
| follows_read k :
    follows Claiming (k None) ->
    (forall p, follows Idle (k (Some p))) ->
    follows Idle (GetRefreshPromise k)
| follows_call body k :
    quiet body ->
    (forall p, follows (Claimed p) (k p)) ->
    follows Claiming (Async body k)
| follows_store p k :
    follows (Holding p) k ->
    follows (Claimed p) (SetRefreshPromise (Some p) k)
| follows_await p k :
    (forall r, follows Releasing (k r)) ->
    follows (Holding p) (Io (Await p) k)
| follows_clear k :
    follows Idle k ->
    follows Releasing (SetRefreshPromise None k).

(** Whether the answer to an awaited operation means that the store has
    changed. *)
Definition storedBy (e : io) : reply_of e -> bool :=
  match e with
  | RedisSet _ _ => fun r => match r with Ok _ => true | Err _ => false end
  | _ => fun _ => false
  end.

(** [written G b P]: on every path of [P] that changes the store, or that
    starts after a change ([b]), the outcome satisfies [G]. *)
Inductive written {A : Type} (G : result A -> Prop) : bool -> prog A -> Prop :=
| written_ret b a : (b = true -> G (Ok a)) -> written G b (Ret a)
| written_throw b e : (b = true -> G (Err e)) -> written G b (Throw e)
| written_now b k : (forall t, written G b (k t)) -> written G b (Now k)
| written_getCache b k : (forall v, written G b (k v)) -> written G b (GetCache k)
| written_setCache b v k : written G true k -> written G b (SetCache v k)
| written_getPromise b k :
    (forall p, written G b (k p)) -> written G b (GetRefreshPromise k)
| written_setPromise b p k : written G b k -> written G b (SetRefreshPromise p k)
| written_async b body k :
    (forall now s, writes (snd (fst (run body now s))) = []) ->
    (forall p, written G b (k p)) ->
    written G b (Async body k)
| written_io b e k :
    (forall x, written G (b || storedBy e x) (k x)) -> written G b (Io e k).

(* ===================================================================== *)
(** * A host and a configuration for the examples *)
(* ===================================================================== *)

Module Sample.

Definition digitValue (c : ascii) : option Z :=
  let n := Z.of_nat (nat_of_ascii c) in
  if (48 <=? n) && (n <=? 57) then Some (n - 48) else None.

Fixpoint number (acc : Z) (cs : list ascii) : option Z :=
  match cs with
  | [] => Some acc
  | c :: r =>
      match digitValue c with
      | Some d => number (acc * 10 + d) r
      | None => None
      end
  end.

Definition field (from len : nat) (cs : list ascii) : option Z :=
  number 0 (firstn len (skipn from cs)).

Definition charAt (i : nat) (cs : list ascii) (c : ascii) : bool :=
  match nth_error cs i with
  | Some c' => Ascii.eqb c c'
  | None => false
  end.

(** [Date.parse] on the format of [toISOString], YYYY-MM-DDTHH:mm:ss.sssZ;
    everything else is [NaN] for this host. *)
Definition parseIso (v : value) : option Z :=
  match v with
  | VStr s =>
      let cs := list_ascii_of_string s in
      if Nat.eqb (length cs) 24
         && charAt 4 cs "-" && charAt 7 cs "-" && charAt 10 cs "T"
         && charAt 13 cs ":" && charAt 16 cs ":" && charAt 19 cs "." && charAt 23 cs "Z"
      then
        match field 0 4 cs, field 5 2 cs, field 8 2 cs,
              field 11 2 cs, field 14 2 cs, field 17 2 cs, field 20 3 cs with
        | Some y, Some mo, Some d, Some hh, Some mi, Some ss, Some ms =>
            if (1 <=? mo) && (mo <=? 12) && (1 <=? d) && (d <=? 31)
               && (hh <=? 23) && (mi <=? 59) && (ss <=? 59)
            then Some (JsDate.MakeDate (JsDate.MakeDay y (mo - 1) d)
                         (hh * 3600000 + mi * 60000 + ss * 1000 + ms))
            else None
        | _, _, _, _, _, _, _ => None
        end
      else None
  | _ => None
  end.

Definition plainHost : host :=
  {| Date_parse := parseIso;
     encodeURIComponent := fun s => s;
     decodeBase64Utf8 := fun s => s;
     sanitizeReadmeContent := fun s => s |}.

(** No Redis, no refresh token, defaults everywhere. *)
Definition memoryConfig : config :=
  {| GITHUB_USERNAME := "nyxnix";
     GITHUB_COMMIT_HISTORY_DAYS := Some 3;
     GITHUB_CACHE_TTL_MINUTES := Some 30;
     GITHUB_CACHE_REFRESH_MS := Some 900000;
     CACHE_REFRESH_TOKEN := "";
     GITHUB_TOKEN := "";
     redisClient := false |}.

(** A connected Redis client and a refresh token. *)
Definition redisConfig : config :=
  {| GITHUB_USERNAME := "nyxnix";
     GITHUB_COMMIT_HISTORY_DAYS := Some 3;
     GITHUB_CACHE_TTL_MINUTES := Some 30;
     GITHUB_CACHE_REFRESH_MS := Some 900000;
     CACHE_REFRESH_TOKEN := "s3cret";
     GITHUB_TOKEN := "ghp_token";
     redisClient := true |}.

Definition okResponse (v : value) : result response :=
  Ok {| ok := true; status := 200; statusText := "OK"; body := Ok v |}.

Definition rateLimited : result response :=
  Ok {| ok := false; status := 403; statusText := "Forbidden";
        body := Ok (VObj [ ("message", VStr "API rate limit exceeded") ]) |}.

Definition userJson : value :=
  VObj [ ("login", VStr "nyxnix"); ("avatar_url", VStr "https://a/nyxnix");
         ("html_url", VStr "https://github.com/nyxnix"); ("name", VNull);
         ("followers", VNum 3); ("following", VNum 4); ("public_repos", VNum 1) ].

Definition repoJson : value :=
  VObj [ ("id", VNum 1); ("name", VStr "nyxnx.dev");
         ("html_url", VStr "https://github.com/nyxnix/nyxnx.dev");
         ("pushed_at", VStr "2026-10-30T10:00:00.000Z");
         ("owner", VObj [ ("login", VStr "Nyxnix") ]) ].

Definition readmeJson : value :=
  VObj [ ("encoding", VStr "base64"); ("content", VStr "aGVsbG8=") ].

(** 2026-11-02T04:00:00.123Z. *)
Definition clock : Z := 1793592000123.

(** A read request starts a refresh; a manual refresh and a tick of the
    scheduler arrive while it is in flight. *)
Definition joined : list event :=
  [ Arrive GetDashboard clock;
    Deliver 0 OSucceed clock;
    Arrive (PostRefresh VUndefined) clock;
    Arrive Tick clock ].

(** ... and the refresh runs to its end: GitHub answers the three requests
    and the first page of events, the body stores the snapshot, and the
    three callers are resumed. *)
Definition events : list event :=
  joined ++
  [ Deliver 1 (OResponses [okResponse userJson; okResponse (VArr [repoJson]);
                           okResponse readmeJson]) clock;
    Deliver 1 (OResponse (okResponse (VArr []))) clock;
    Deliver 1 OSucceed clock;
    Deliver 1 OSucceed clock;
    Deliver 1 OSucceed clock;
    Deliver 1 OSucceed clock;
    Deliver 3 OSucceed clock;
    Deliver 2 OSucceed clock;
    Deliver 2 OSucceed clock;
    Deliver 0 OSucceed clock;
    Deliver 0 OSucceed clock ].

Definition during : world :=
  default (initial ∅) (steps plainHost memoryConfig joined (initial ∅)).

Definition reached : world :=
  default (initial ∅) (steps plainHost memoryConfig events (initial ∅)).

Definition start : srv := shared (initial ∅).

(** Redis fails the [GET] of a read request. *)
Definition readFailure : list event :=
  [ Arrive GetDashboard clock;
    Deliver 0 OFail clock;
    Deliver 0 OSucceed clock ].

(** GitHub answers every request, Redis fails the [SET] of the refresh, and
    there is no snapshot file. *)
Definition writeFailure : list event :=
  [ Arrive GetDashboard clock;
    Deliver 0 OSucceed clock;
    Deliver 0 OSucceed clock;
    Deliver 1 (OResponses [okResponse userJson; okResponse (VArr [repoJson]);
                           okResponse readmeJson]) clock;
    Deliver 1 (OResponse (okResponse (VArr []))) clock;
    Deliver 1 OSucceed clock;
    Deliver 1 OSucceed clock;
    Deliver 1 OSucceed clock;
    Deliver 1 OFail clock;
    Deliver 1 OSucceed clock;
    Deliver 0 OSucceed clock;
    Deliver 0 OSucceed clock;
    Deliver 0 (OFile (Err FileError)) clock;
    Deliver 0 OSucceed clock ].

(** The same with a Redis that works. *)
Definition writeSuccess : list event :=
  [ Arrive GetDashboard clock;
    Deliver 0 OSucceed clock;
    Deliver 0 OSucceed clock;
    Deliver 1 (OResponses [okResponse userJson; okResponse (VArr [repoJson]);
                           okResponse readmeJson]) clock;
    Deliver 1 (OResponse (okResponse (VArr []))) clock;
    Deliver 1 OSucceed clock;
    Deliver 1 OSucceed clock;
    Deliver 1 OSucceed clock;
    Deliver 1 OSucceed clock;
    Deliver 1 OSucceed clock;
    Deliver 0 OSucceed clock;
    Deliver 0 OSucceed clock ].

(** A snapshot fetched ten minutes before [clock]. *)
Definition freshPayload : value :=
  buildPayload memoryConfig (clock - 600000) userJson (VArr [repoJson]) (VStr "") (VArr []).

(** A snapshot fetched forty minutes before [clock]. *)
Definition stalePayload : value :=
  buildPayload memoryConfig (clock - 2400000) userJson (VArr [repoJson]) (VStr "") (VArr []).

Definition snapshotFile : result text := Ok (TextOf (VArr [repoJson])).

Definition fallbackPayload : value :=
  match buildFallbackPayloadFromSnapshot plainHost memoryConfig clock (snapshotValue snapshotFile) with
  | Ok (Some payload) => payload
  | _ => VNull
  end.

(** The commit history is refused: the reply, and the three turns in which
    the exception travels up. *)
Definition historyTurns : list turn :=
  [ Turn (AResponse rateLimited) clock start; Turn ATurn clock start;
    Turn ATurn clock start; Turn ATurn clock start ].

Definition failedHistory : srv * list action * exn :=
  match play (awaitCall (fetchCommitHistory plainHost memoryConfig
           (GITHUB_USERNAME memoryConfig) (normalizedHistoryDays memoryConfig))) clock start historyTurns with
  | Some (s, tr, Done (Err e)) => (s, tr, e)
  | _ => (start, [], TypeError)
  end.

End Sample.

(** Where a task stands with respect to the handle. *)
Definition quietP {A : Type} (st : progress A) : Prop :=
  match st with
  | Done _ => True
  | Waiting e k => forall x, quiet (k x)
  end.

Definition idleP {A : Type} (st : progress A) : Prop :=
  match st with
  | Done _ => True
  | Waiting e k => forall x, follows Idle (k x)
  end.

Definition holdsP {A : Type} (p : pid) (st : progress A) : Prop :=
  match st with
  | Done _ => False
  | Waiting e k => e = Await p /\ forall r, follows Releasing (k r)
  end.

Definition idleTask (x : task) : Prop :=
  match x with
  | TRequest e k => idleP (Waiting e k)
  | TBackground e k => idleP (Waiting e k)
  | TRefresh _ e k => quietP (Waiting e k)
  end.

Definition holdsTask (p : pid) (x : task) : Prop :=
  match x with
  | TRequest e k => holdsP p (Waiting e k)
  | TBackground e k => holdsP p (Waiting e k)
  | TRefresh _ _ _ => False
  end.

(** The invariant of the event loop. *)
Record consistent (w : world) : Prop := {
  tasks_follow : forall t x, tasks w !! t = Some x ->
    idleTask x \/ exists p, holdsTask p x /\ refreshPromise (shared w) = Some p;
  refresh_is_current : forall t p e k, tasks w !! t = Some (TRefresh p e k) ->
    refreshPromise (shared w) = Some p /\ settled w !! p = None;
  one_holder : forall t1 t2 x1 x2 p1 p2,
    tasks w !! t1 = Some x1 -> tasks w !! t2 = Some x2 ->
    holdsTask p1 x1 -> holdsTask p2 x2 -> t1 = t2;
  one_refresh : forall t1 t2 x1 x2,
    tasks w !! t1 = Some x1 -> tasks w !! t2 = Some x2 ->
    isRefresh x1 = true -> isRefresh x2 = true -> t1 = t2;
  task_ids : forall t x, tasks w !! t = Some x -> (t < taskCount w)%nat;
  settled_ids : forall p r, settled w !! p = Some r -> (p < promiseCount (shared w))%nat;
  handle_id : forall p, refreshPromise (shared w) = Some p -> (p < promiseCount (shared w))%nat
}.

(* ===================================================================== *)
(** * Runs and steps under the discipline *)
(* ===================================================================== *)

(** A run that leaves the handle alone. *)
Definition noClaim {A} (s s' : srv) (tr : list action) (st : progress A) : Prop :=
  refreshPromise s' = refreshPromise s /\ promiseCount s' = promiseCount s
  /\ calls tr = [] /\ idleP st.

(** A run that starts a refresh: one async call, whose promise is stored in
    [refreshPromise] and awaited. *)
Definition claim {A} (s s' : srv) (tr : list action) (st : progress A) : Prop :=
  exists stb,
    refreshPromise s' = Some (promiseCount s) /\ promiseCount s' = S (promiseCount s)
    /\ calls tr = [(promiseCount s, stb)] /\ quietP stb /\ holdsP (promiseCount s) st.

Definition runs {A} (m : phase) (s s' : srv) (tr : list action) (st : progress A) : Prop :=
  match m with
  | Idle => noClaim s s' tr st \/ (refreshPromise s = None /\ claim s s' tr st)
  | Claiming => claim s s' tr st
  | Claimed p =>
      refreshPromise s' = Some p /\ promiseCount s' = promiseCount s
      /\ calls tr = [] /\ holdsP p st
  | Holding p =>
      refreshPromise s' = refreshPromise s /\ promiseCount s' = promiseCount s
      /\ calls tr = [] /\ holdsP p st
  | Releasing =>
      noClaim (withRefreshPromise None s) s' tr st
      \/ claim (withRefreshPromise None s) s' tr st
  end.

(** The tasks that call [refreshCache]: requests and background jobs. *)
Definition caller {A : Type} (mk : forall e, (reply_of e -> prog A) -> task)
    (place : nat -> progress A -> world -> world) : Prop :=
  (forall e k, idleTask (mk e k) = idleP (Waiting e k))
  /\ (forall p e k, holdsTask p (mk e k) = holdsP p (Waiting e k))
  /\ (forall e k, isRefresh (mk e k) = false)
  /\ (forall t st w,
        shared (place t st w) = shared w /\ settled (place t st w) = settled w
        /\ taskCount (place t st w) = taskCount w
        /\ tasks (place t st w) =
           match st with
           | Waiting e k => <[t := mk e k]> (tasks w)
           | Done _ => delete t (tasks w)
           end).

(** No refresh body is among the tasks. *)
Definition noRefresh (w : world) : Prop :=
  forall t x, tasks w !! t = Some x -> isRefresh x = false.

(** What a step may do to the count of async calls: nothing, or one call
    when no refresh body was left. *)
Definition countStep (w w' : world) : Prop :=
  (promiseCount (shared w') = promiseCount (shared w)
   \/ (noRefresh w /\ promiseCount (shared w') = S (promiseCount (shared w))))
  /\ settled w ⊆ settled w'.

(** [w1] is [w] up to the Redis keys and new task numbers. *)
Definition sameTasks (w w1 : world) : Prop :=
  shared w1 = shared w /\ settled w1 = settled w /\ tasks w1 = tasks w
  /\ (taskCount w <= taskCount w1)%nat.

(* ===================================================================== *)
(** * Changes of the store *)
(* ===================================================================== *)

Definition wrote (tr : list action) : bool :=
  match writes tr with
  | [] => false
  | _ :: _ => true
  end.

Definition writtenP {A : Type} (G : result A -> Prop) (b : bool) (st : progress A) : Prop :=
  match st with
  | Done r => b = true -> G r
  | Waiting e k => forall x, written G (b || storedBy e x) (k x)
  end.

(** [P] never changes the store. *)
Definition readonly {A : Type} (P : prog A) : Prop := written (fun _ => False) false P.

(** Every outcome of [P] satisfies [G]. *)
Definition always {A : Type} (G : result A -> Prop) (P : prog A) : Prop := written G true P.

(** The read endpoint changes the store only on the way to a reply with
    status FALLBACK. *)
Definition isFallback (r : result reply) : Prop :=
  exists payload, r = Ok (sendJson (Some FALLBACK) payload).

Definition unavailable : reply :=
  sendMessage 503
    "Unable to refresh GitHub data cache. Configure GH_API_TOKEN to increase API limits.".

Definition fetchedAt (payload : value) : value :=
  Js.getOpt (Js.getOpt payload "meta") "fetched_at".

(** What the store receives when it takes [payload]. *)
Definition storeWrites (cfg : config) (payload : value) : list write :=
  (if redisClient cfg then [RedisWrite (cacheKey cfg) (TextOf (jsonImage payload))] else [])
  ++ [MemoryWrite payload].

(* ===================================================================== *)
(** * Who answers for a change of the store *)
(* ===================================================================== *)

(** A refresh that resolved. *)
Definition resolved (r : result value) : Prop := exists payload, r = Ok payload.

(** [refreshOnly h cfg P]: the only async function that [P] calls without
    awaiting it is the body of a refresh. *)
Inductive refreshOnly (h : host) (cfg : config) {A : Type} : prog A -> Prop :=
| refreshOnly_ret a : refreshOnly h cfg (Ret a)
| refreshOnly_throw e : refreshOnly h cfg (Throw e)
| refreshOnly_now k : (forall t, refreshOnly h cfg (k t)) -> refreshOnly h cfg (Now k)
| refreshOnly_getCache k :
    (forall v, refreshOnly h cfg (k v)) -> refreshOnly h cfg (GetCache k)
| refreshOnly_setCache v k : refreshOnly h cfg k -> refreshOnly h cfg (SetCache v k)
| refreshOnly_getPromise k :
    (forall p, refreshOnly h cfg (k p)) -> refreshOnly h cfg (GetRefreshPromise k)
| refreshOnly_setPromise p k :
    refreshOnly h cfg k -> refreshOnly h cfg (SetRefreshPromise p k)
| refreshOnly_async k :
    (forall p, refreshOnly h cfg (k p)) -> refreshOnly h cfg (Async (refreshBody h cfg) k)
| refreshOnly_io e k : (forall x, refreshOnly h cfg (k x)) -> refreshOnly h cfg (Io e k).

Definition refreshOnlyP (h : host) (cfg : config) {A : Type} (st : progress A) : Prop :=
  match st with
  | Done _ => True
  | Waiting e k => forall x, refreshOnly h cfg (k x)
  end.

(** What a task in flight may still do to the store, [b] telling whether it
    has changed the store already: the handler of a request changes it only
    on the way to a reply with status FALLBACK, the body of a refresh only
    on the way to resolving, a scheduler tick never. *)
Definition taskWrites (h : host) (cfg : config) (b : bool) (x : task) : Prop :=
  match x with
  | TRequest e k => writtenP isFallback b (Waiting e k) /\ refreshOnlyP h cfg (Waiting e k)
  | TBackground e k =>
      writtenP (fun _ => False) b (Waiting e k) /\ refreshOnlyP h cfg (Waiting e k)
  | TRefresh _ e k => writtenP resolved b (Waiting e k) /\ quietP (Waiting e k)
  end.

(** The store of [w] is as it was in [w0], or someone answers for the
    change: the task that is running ([d]), a task in flight that has
    changed the store, a refresh that has resolved since [w0], or a reply
    with status FALLBACK sent since [w0]. *)
Definition owned (h : host) (cfg : config) (w0 : world)
    (running : option nat) (d : bool) (w : world) : Prop :=
  (redis w = redis w0 /\ inMemoryCache (shared w) = inMemoryCache (shared w0))
  \/ d = true
  \/ (exists t x, Some t <> running /\ tasks w !! t = Some x /\ taskWrites h cfg true x)
  \/ (exists p v, settled w !! p = Some (Ok v) /\ settled w0 !! p = None)
  \/ (exists new t payload,
        replies w = replies w0 ++ new
        /\ In (t, Ok (sendJson (Some FALLBACK) payload)) new).

Record accounted (h : host) (cfg : config) (w0 : world)
    (running : option nat) (d : bool) (w : world) : Prop := {
  tasks_account : forall t x, tasks w !! t = Some x -> Some t <> running ->
    exists b, taskWrites h cfg b x;
  tasks_below : forall t x, tasks w !! t = Some x -> (t < taskCount w)%nat;
  running_below : forall t, running = Some t -> (t < taskCount w)%nat;
  settled_grow : forall p r, settled w0 !! p = Some r -> settled w !! p = Some r;
  replies_grow : exists new, replies w = replies w0 ++ new;
  store_owned : owned h cfg w0 running d w
}.

(** A run without warm-up. *)
Definition serving (evs : list event) : Prop :=
  Forall (fun ev => forall now, ev <> Arrive WarmUp now) evs.

(* ===================================================================== *)
(** * Upstream replies and the snapshot file *)
(* ===================================================================== *)

(** What [githubRequest] returns for a settled [fetch]: the JSON body of a
    response with an ok status; [None] when it throws. *)
Definition received (r : result response) : option value :=
  match r with
  | Ok resp => if ok resp then match body resp with Ok v => Some v | Err _ => None end else None
  | Err _ => None
  end.

Definition requestFails (r : result response) : bool :=
  match received r with
  | Some _ => false
  | None => true
  end.

Definition isErr {A : Type} (r : result A) : Prop := exists e, r = Err e.

(** The snapshot file is absent (or unreadable), malformed, not an array, or
    an empty array. *)
Definition unusable (read : result text) : Prop :=
  match read with
  | Err _ => True
  | Ok TextEmpty | Ok TextMalformed => True
  | Ok (TextOf v) => Js.isArray v = false \/ v = VArr []
  end.

(* ===================================================================== *)
(** * The shape of a snapshot *)
(* ===================================================================== *)

(** The property names of an object, in order. *)
Definition keys (v : value) : list string :=
  match v with
  | VObj fields => map fst fields
  | _ => []
  end.

Definition isObject (v : value) : Prop :=
  match v with VObj _ => True | _ => False end.

(** The shape the specification gives for a snapshot:
    [{ meta: { identity, fetched_at, source, ttl_minutes }, payload: {...} }]. *)
Definition specShape (v : value) : Prop :=
  Permutation (keys v) ["meta"; "payload"]
  /\ Permutation (keys (Js.getOpt v "meta")) ["identity"; "fetched_at"; "source"; "ttl_minutes"]
  /\ isObject (Js.getOpt v "payload").

(** YYYY-MM-DDTHH:mm:ss.sssZ. *)
Definition isDigit (c : ascii) : bool :=
  let n := nat_of_ascii c in Nat.leb 48 n && Nat.leb n 57.

Definition isoShape (s : string) : bool :=
  match list_ascii_of_string s with
  | [y1; y2; y3; y4; d1; m1; m2; d2; a1; a2; t; h1; h2; c1; n1; n2; c2; s1; s2; p; f1; f2; f3; z] =>
      forallb isDigit [y1; y2; y3; y4; m1; m2; a1; a2; h1; h2; n1; n2; s1; s2; f1; f2; f3]
      && Ascii.eqb d1 "-" && Ascii.eqb d2 "-" && Ascii.eqb t "T"
      && Ascii.eqb c1 ":" && Ascii.eqb c2 ":" && Ascii.eqb p "." && Ascii.eqb z "Z"
  | _ => false
  end.

(* ===================================================================== *)
(** * Sorting by the time of the last push *)
(* ===================================================================== *)

(** [Date.parse(repo.pushed_at)]. *)
Definition pushedAt (h : host) (repo : value) : option Z :=
  Date_parse h (Js.getOpt repo "pushed_at").

(** [a] may stand in front of [b] in a list sorted by the comparator of the
    source: both dates parse, and that of [b] is not the later one. *)
Definition notOlder (h : host) (a b : value) : Prop :=
  exists ta tb, pushedAt h a = Some ta /\ pushedAt h b = Some tb /\ tb <= ta.

(* ===================================================================== *)
(** * The message of a failed request *)
(* ===================================================================== *)

(** The head of the message [githubRequest] throws for a response that is
    not ok. *)
Definition failureHead (resp : response) : string :=
  "GitHub request failed: " +:+ pretty (status resp) +:+ " " +:+ statusText resp.

(** The [message] property of the JSON body of a response, when it is a
    string that is not empty. *)
Definition bodyMessage (resp : response) : option string :=
  match body resp with
  | Ok payload =>
      match Js.getOpt payload "message" with
      | VStr m => if String.eqb m "" then None else Some m
      | _ => None
      end
  | Err _ => None
  end.

(* ===================================================================== *)
(** * What a page of events adds to the history *)
(* ===================================================================== *)

(** [eventTime < rangeStart], which is false when [rangeStart] is [NaN]. *)
Definition olderThan (rangeStart : option Z) (eventTime : Z) : bool :=
  match rangeStart with
  | Some rs => eventTime <? rs
  | None => false
  end.

(** The time of an event, when [created_at] parses. *)
Definition eventTime (h : host) (event : value) : option Z :=
  Date_parse h (Js.getOpt event "created_at").

(** The day a push event counts for: its date, unless the event is older
    than the range. *)
Definition pushDay (h : host) (rangeStart : option Z) (event : value) : option string :=
  match eventTime h event with
  | Some t =>
      if olderThan rangeStart t then None
      else
        match Js.getOpt event "type" with
        | VStr ty => if String.eqb ty "PushEvent" then Some (formatUtcDate t) else None
        | _ => None
        end
  | None => None
  end.

(** The commits that the events of a page add to the day [d]. *)
Fixpoint tally (h : host) (rangeStart : option Z) (d : string) (events : list value) : Z :=
  match events with
  | [] => 0
  | event :: rest =>
      (if decide (pushDay h rangeStart event = Some d) then eventCommits event else 0)
      + tally h rangeStart d rest
  end.

(** Whether one of the events is older than the range. *)
Definition reachesOlder (h : host) (rangeStart : option Z) (events : list value) : bool :=
  existsb (fun event =>
             match eventTime h event with
             | Some t => olderThan rangeStart t
             | None => false
             end) events.

(* ===================================================================== *)
(** * The commit history of the events *)
(* ===================================================================== *)

(** [maxPages] of [fetchCommitHistory]. *)
Definition maxPages (days : Z) : nat :=
  if days <=? 30 then 3%nat else if days <=? 60 then 5%nat
  else if days <=? 120 then 7%nat else 10%nat.

(** A page that ends the loop at once: not an array, or an empty one. *)
Definition lastPage (events : value) : Prop :=
  match events with
  | VArr (_ :: _) => False
  | _ => True
  end.

(** No count of the map is negative. *)
Definition countsFrom (low : Z) (m : gmap string Z) : Prop :=
  forall d n, m !! d = Some n -> low <= n.

(* ===================================================================== *)
(** * The requests of a task *)
(* ===================================================================== *)

(** The addresses of the single requests among the actions of a task, in
    order. *)
Fixpoint fetched (tr : list action) : list string :=
  match tr with
  | [] => []
  | Asked (Fetch url _) :: rest => url :: fetched rest
  | _ :: rest => fetched rest
  end.

(** [asksOnly urls P]: the single requests of [P], on every path, are the
    first of [urls], in this order; [P] calls no async function. *)
Inductive asksOnly {A : Type} : list string -> prog A -> Prop :=
| asksOnly_ret urls a : asksOnly urls (Ret a)
| asksOnly_throw urls e : asksOnly urls (Throw e)
| asksOnly_now urls k : (forall t, asksOnly urls (k t)) -> asksOnly urls (Now k)
| asksOnly_getCache urls k : (forall v, asksOnly urls (k v)) -> asksOnly urls (GetCache k)
| asksOnly_setCache urls v k : asksOnly urls k -> asksOnly urls (SetCache v k)
| asksOnly_getPromise urls k :
    (forall p, asksOnly urls (k p)) -> asksOnly urls (GetRefreshPromise k)
| asksOnly_setPromise urls p k : asksOnly urls k -> asksOnly urls (SetRefreshPromise p k)
| asksOnly_fetch url auth rest k :
    (forall x, asksOnly rest (k x)) -> asksOnly (url :: rest) (Io (Fetch url auth) k)
| asksOnly_io urls e k :
    (forall url auth, e <> Fetch url auth) ->
    (forall x, asksOnly urls (k x)) -> asksOnly urls (Io e k).

Definition asksOnlyP {A : Type} (urls : list string) (st : progress A) : Prop :=
  match st with
  | Done _ => True
  | Waiting e k => forall x, asksOnly urls (k x)
  end.

(** The address of a page of public events. *)
Definition pageUrl (username : string) (page : Z) : string :=
  GITHUB_API_BASE +:+ "/users/" +:+ username
  +:+ "/events/public?per_page=100&page=" +:+ pretty page.

(** The pages [page], [page + 1], ... *)
Fixpoint pagesFrom (page : Z) (n : nat) : list Z :=
  match n with
  | O => []
  | S k => page :: pagesFrom (page + 1) k
  end.

(** [rangeStart] of [fetchCommitHistory]: midnight of the first day. *)
Definition rangeStartOf (h : host) (baseHistory : list CommitDayActivity) : option Z :=
  match baseHistory with
  | [] => None
  | first :: _ => Date_parse h (VStr (date first +:+ "T00:00:00.000Z"))
  end.

(* ===================================================================== *)
(** * What the endpoints send *)
(* ===================================================================== *)

(** The outcomes of the read endpoint: a snapshot with a cache status, the
    503 message, or an exception that leaves the handler. *)
Definition dashboardReply (r : result reply) : Prop :=
  match r with
  | Ok rep => (code rep = 200 /\ exists st, xCacheStatus rep = Some st) \/ rep = unavailable
  | Err _ => True
  end.

(** The outcomes of the manual-refresh endpoint: always a reply. *)
Definition refreshReply (r : result reply) : Prop :=
  exists rep,
    r = Ok rep
    /\ (rep = sendMessage 401 "Unauthorized refresh request."
        \/ (exists payload, rep = sendJson (Some REFRESH) payload)
        \/ rep = sendMessage 503 "GitHub cache refresh failed.").

(* ===================================================================== *)
(** * The page: activity of a repository, level of a day *)
(* ===================================================================== *)

(** The helpers of the page that read what the cache service sends: the
    time since the last push of a repository (App.tsx) and the shade of a
    day in the commit calendar (ProfileCard.tsx).  Counts and time values
    are integers; the quotient of two of them is a rational here.  The
    source compares the quotient rounded to a double, which agrees with
    the comparison of the rational as long as the integers stay below 2^52
    in absolute value: a quotient that has passed three quarters by less
    than 2^-54 is rounded down to it.  The theorems about [getCommitLevel]
    carry this bound. *)

(** [getDaysSince(date)], with [now] the value of [Date.now()]. *)
Definition getDaysSince (h : host) (now : Z) (date : value) : Z :=
  match Date_parse h date with
  | None => 999
  | Some parsed =>
      let diffMs := now - parsed in
      Z.max 0 (diffMs / 86400000)
  end.

Inductive RepoActivityBucket : Type := active | warm | stale.

Definition getActivityBucket (daysSince : Z) : RepoActivityBucket :=
  if daysSince <=? 14 then active
  else if daysSince <=? 60 then warm
  else stale.

(** [getCommitLevel(commitCount, maxCount)]. *)
Definition getCommitLevel (commitCount maxCount : Z) : Z :=
  if commitCount <=? 0 then 0
  else if maxCount <=? 1 then 4
  else
    let ratio := (inject_Z commitCount / inject_Z maxCount)%Q in
    if Qle_bool ratio (1 # 4) then 1
    else if Qle_bool ratio (1 # 2) then 2
    else if Qle_bool ratio (3 # 4) then 3
    else 4.

(** [commitHistory.slice(Math.max(0, commitHistory.length - displayDays))]
    with [displayDays] 180. *)
Definition displayedCommitHistory (commitHistory : list CommitDayActivity)
  : list CommitDayActivity :=
  skipn (length commitHistory - 180) commitHistory.

(** [displayedCommitHistory.reduce((max, day) => Math.max(max, day.commit_count), 0)]. *)
Definition maxDailyCommits (displayed : list CommitDayActivity) : Z :=
  fold_left (fun max day => Z.max max (commit_count day)) displayed 0.

(* ===================================================================== *)
(** * Snapshots that [buildPayload] has built *)
(* ===================================================================== *)

Definition built (cfg : config) (v : value) : Prop :=
  exists t user repos readme commitHistory,
    v = buildPayload cfg t user repos readme commitHistory.

Definition builtOutcome (cfg : config) (r : result value) : Prop :=
  forall v, r = Ok v -> built cfg v.

(* ===================================================================== *)
(** * What the store may hold *)
(* ===================================================================== *)

(** [inMemoryCache] holds [null] or a snapshot. *)
Definition cachedValue (cfg : config) (v : value) : Prop :=
  v = VNull \/ built cfg v.

(** The text of a snapshot, as [writeCachedPayload] hands it to Redis. *)
Definition snapshotText (cfg : config) (raw : text) : Prop :=
  exists v, built cfg v /\ raw = TextOf (jsonImage v).

(** The operations a task may await: a [SET] stores the text of a snapshot
    under the key of the service. *)
Definition allowedIo (cfg : config) (e : io) : Prop :=
  match e with
  | RedisSet key raw => key = cacheKey cfg /\ snapshotText cfg raw
  | _ => True
  end.

(** What a task may assume of the answer: a refresh that succeeded settled
    with a snapshot. *)
Definition answerOk (cfg : config) (e : io) : reply_of e -> Prop :=
  match e with
  | Await _ => fun r => builtOutcome cfg r
  | _ => fun _ => True
  end.

(** [keeps cfg G P]: on every path of [P], given that [inMemoryCache] holds
    [null] or a snapshot and that refreshes settle with snapshots, [P]
    assigns only snapshots to [inMemoryCache], sends only texts of
    snapshots to Redis, starts only bodies that do the same and end with a
    snapshot, and ends with an outcome in [G]. *)
Inductive keeps (cfg : config) {A : Type} (G : result A -> Prop) : prog A -> Prop :=
| keeps_ret a : G (Ok a) -> keeps cfg G (Ret a)
| keeps_throw e : G (Err e) -> keeps cfg G (Throw e)
| keeps_now k : (forall t, keeps cfg G (k t)) -> keeps cfg G (Now k)
| keeps_getCache k :
    (forall v, cachedValue cfg v -> keeps cfg G (k v)) -> keeps cfg G (GetCache k)
| keeps_setCache v k : built cfg v -> keeps cfg G k -> keeps cfg G (SetCache v k)
| keeps_getPromise k : (forall p, keeps cfg G (k p)) -> keeps cfg G (GetRefreshPromise k)
| keeps_setPromise p k : keeps cfg G k -> keeps cfg G (SetRefreshPromise p k)
| keeps_async body k :
    keeps cfg (builtOutcome cfg) body ->
    (forall p, keeps cfg G (k p)) -> keeps cfg G (Async body k)
| keeps_io e k :
    allowedIo cfg e ->
    (forall x, answerOk cfg e x -> keeps cfg G (k x)) -> keeps cfg G (Io e k).

Definition keepsP (cfg : config) {A : Type} (G : result A -> Prop) (st : progress A) : Prop :=
  match st with
  | Done r => G r
  | Waiting e k => allowedIo cfg e /\ forall x, answerOk cfg e x -> keeps cfg G (k x)
  end.

(** With the in-memory store, a reply with status 200 carries a snapshot. *)
Definition snapshotReply (cfg : config) (r : result reply) : Prop :=
  redisClient cfg = false ->
  forall rep, r = Ok rep -> code rep = 200 -> built cfg (json rep).

Definition taskKeeps (cfg : config) (x : task) : Prop :=
  match x with
  | TRequest e k => keepsP cfg (snapshotReply cfg) (Waiting e k)
  | TBackground e k => keepsP cfg (fun _ => True) (Waiting e k)
  | TRefresh _ e k => keepsP cfg (builtOutcome cfg) (Waiting e k)
  end.

(** The invariant: snapshots only. *)
Record snapshotsOnly (cfg : config) (kept : gmap string text) (w : world) : Prop := {
  cache_snapshot : cachedValue cfg (inMemoryCache (shared w));
  redis_snapshot : forall raw, redis w !! cacheKey cfg = Some raw ->
    kept !! cacheKey cfg = Some raw \/ snapshotText cfg raw;
  settled_snapshot : forall p r, settled w !! p = Some r -> builtOutcome cfg r;
  tasks_keep : forall t x, tasks w !! t = Some x -> taskKeeps cfg x;
  replies_snapshot : forall t r, In (t, r) (replies w) -> snapshotReply cfg r
}.

Arguments keeps_ret {cfg A G} a _.

(* ===================================================================== *)
(** * More sample values *)
(* ===================================================================== *)

Module Cases.

Import Sample.

(** A repository pushed two months before [repoJson]. *)
Definition olderRepoJson : value :=
  VObj [ ("id", VNum 2); ("name", VStr "dotfiles");
         ("html_url", VStr "https://github.com/nyxnix/dotfiles");
         ("pushed_at", VStr "2026-09-01T08:30:00.000Z");
         ("topics", VArr [VStr "nix"]); ("archived", VBool true) ].

(** A push of two commits on 1 November 2026, and a star of October. *)
Definition pushEvent : value :=
  VObj [ ("type", VStr "PushEvent"); ("created_at", VStr "2026-11-01T12:00:00.000Z");
         ("payload", VObj [ ("size", VNum 2) ]) ].

Definition oldEvent : value :=
  VObj [ ("type", VStr "WatchEvent"); ("created_at", VStr "2026-10-01T09:00:00.000Z") ].

Definition okPage (v : value) : turn :=
  Turn (AResponse (Ok {| ok := true; status := 200; statusText := "OK"; body := Ok v |}))
    clock start.

Definition limited : response :=
  {| ok := false; status := 403; statusText := "Forbidden";
     body := Ok (VObj [ ("message", VStr "API rate limit exceeded") ]) |}.

(** The variables while the refresh with promise 0 is in flight. *)
Definition joining : srv :=
  {| inMemoryCache := VNull; refreshPromise := Some 0%nat; promiseCount := 1 |}.

(** [fetchCommitHistory] with an empty first page. *)
Definition pageRun : srv * list action * progress (list CommitDayActivity) :=
  default (start, [], Done (Err TypeError))
    (play (fetchCommitHistory plainHost memoryConfig "nyxnix" 3) clock start
       [okPage (VArr []); Turn ATurn clock start]).

(** [fetchFreshPayload] with every request answered. *)
Definition freshTurns : list turn :=
  [ Turn (AResponses [okResponse userJson; okResponse (VArr [repoJson]);
                      okResponse readmeJson]) clock start;
    okPage (VArr []);
    Turn ATurn clock start; Turn ATurn clock start; Turn ATurn clock start ].

Definition freshRun : srv * list action * value :=
  match play (awaitCall (fetchFreshPayload plainHost memoryConfig)) clock start freshTurns with
  | Some (s, tr, Done (Ok payload)) => (s, tr, payload)
  | _ => (start, [], VNull)
  end.

(** A tick of the scheduler that joins the refresh in flight, which fails. *)
Definition tickRun : srv * list action * progress unit :=
  default (start, [], Done (Err TypeError))
    (play (scheduledRefresh plainHost memoryConfig) clock joining
       [Turn (ASettled (Err NetworkError)) clock joining]).

End Cases.

(* ===================================================================== *)
(** * Runs in which GitHub cannot be reached *)
(* ===================================================================== *)

Module Scenario.

Import Sample.

(** The three requests of [fetchFreshPayload] fail on the network. *)
Definition unreachable : outcome :=
  OResponses [Err NetworkError; Err NetworkError; Err NetworkError].

(** With a Redis client: a read request finds nothing under the key, the
    refresh fails, the snapshot file holds one repository, and Redis
    refuses the [SET] of the fallback snapshot. *)
Definition fallbackRefused : list event :=
  [ Arrive GetDashboard clock;
    Deliver 0 OSucceed clock;
    Deliver 0 OSucceed clock;
    Deliver 1 unreachable clock;
    Deliver 1 OSucceed clock;
    Deliver 0 OSucceed clock;
    Deliver 0 OSucceed clock;
    Deliver 0 (OFile snapshotFile) clock;
    Deliver 0 OSucceed clock;
    Deliver 0 OFail clock;
    Deliver 0 OSucceed clock ].

(** The same with a [SET] that succeeds. *)
Definition fallbackStored : list event :=
  [ Arrive GetDashboard clock;
    Deliver 0 OSucceed clock;
    Deliver 0 OSucceed clock;
    Deliver 1 unreachable clock;
    Deliver 1 OSucceed clock;
    Deliver 0 OSucceed clock;
    Deliver 0 OSucceed clock;
    Deliver 0 (OFile snapshotFile) clock;
    Deliver 0 OSucceed clock;
    Deliver 0 OSucceed clock;
    Deliver 0 OSucceed clock ].

(** Without a Redis client: nothing cached, the refresh fails, and there is
    no snapshot file. *)
Definition noFile : list event :=
  [ Arrive GetDashboard clock;
    Deliver 0 OSucceed clock;
    Deliver 1 unreachable clock;
    Deliver 1 OSucceed clock;
    Deliver 0 OSucceed clock;
    Deliver 0 OSucceed clock;
    Deliver 0 (OFile (Err FileError)) clock;
    Deliver 0 OSucceed clock ].

(** Redis holds the snapshot that an earlier run of the server fetched ten
    minutes ago. *)
Definition keptSnapshot : gmap string text :=
  {[ cacheKey redisConfig := TextOf freshPayload ]}.

(** The server starts: the first refresh fails, and the warm-up loads the
    snapshot file. *)
Definition coldStart : list event :=
  [ Arrive WarmUp clock;
    Deliver 1 unreachable clock;
    Deliver 1 OSucceed clock;
    Deliver 0 OSucceed clock;
    Deliver 0 (OFile snapshotFile) clock;
    Deliver 0 OSucceed clock;
    Deliver 0 OSucceed clock;
    Deliver 0 OSucceed clock ].

(** The variables of a server that holds [v] in [inMemoryCache]. *)
Definition holding (v : value) : srv := withCache v start.

(** Redis holds a snapshot fetched forty minutes ago. *)
Definition keptStale : gmap string text :=
  {[ cacheKey redisConfig := TextOf stalePayload ]}.

(** A read request finds it, and the refresh fails. *)
Definition staleServed : list event :=
  [ Arrive GetDashboard clock;
    Deliver 0 OSucceed clock;
    Deliver 0 OSucceed clock;
    Deliver 1 unreachable clock;
    Deliver 1 OSucceed clock;
    Deliver 0 OSucceed clock;
    Deliver 0 OSucceed clock ].

End Scenario.

(* ===================================================================== *)
(** * The calendar and the empty commit history *)
(* ===================================================================== *)

Section Calendar.

Import JsDate.

Lemma yoe_bounds doe : 0 <= doe < daysPerEra ->
  0 <= yoe_of_doe doe <= 399 /\ 0 <= doy_of_doe doe <= 365.
Proof.
  unfold daysPerEra, doy_of_doe, yoe_of_doe. intros H.
  Z.div_mod_to_equations. lia.
Qed.

Lemma doe_range day : 0 <= doe_of_day day < daysPerEra.
Proof. unfold doe_of_day, daysPerEra. apply Z.mod_pos_bound. lia. Qed.

Lemma day_split day : day = era_of_day day * daysPerEra + doe_of_day day - epochShift.
Proof.
  unfold era_of_day, doe_of_day, daysPerEra, epochShift.
  pose proof (Z.div_mod (day + 719468) 146097). lia.
Qed.

Lemma mp_bounds doe : 0 <= doe < daysPerEra -> 0 <= mp_of_doe doe <= 11.
Proof.
  intros H. destruct (yoe_bounds doe H) as [_ Hd]. unfold mp_of_doe.
  Z.div_mod_to_equations. lia.
Qed.

Lemma first_of_month day :
  let doe := doe_of_day day in
  day_of_civil (year_of_day day) (month_of_doe doe) 1 = day - dom_of_doe doe + 1.
Proof.
  intros doe. pose proof (doe_range day) as Hr. fold doe in Hr.
  destruct (yoe_bounds doe Hr) as [Hy Hd]. pose proof (mp_bounds doe Hr) as Hm.
  pose proof (day_split day) as Hs. fold doe in Hs.
  unfold day_of_civil, year_of_day, month_of_doe, dom_of_doe. fold doe.
  set (yoe := yoe_of_doe doe) in *. set (mp := mp_of_doe doe) in *.
  set (era := era_of_day day) in *.
  assert (Hm' : (if 2 <? (if mp <? 10 then mp + 3 else mp - 9)
                 then (if mp <? 10 then mp + 3 else mp - 9) - 3
                 else (if mp <? 10 then mp + 3 else mp - 9) + 9) = mp).
  { destruct (mp <? 10) eqn:E.
    - apply Z.ltb_lt in E. destruct (2 <? mp + 3) eqn:E2; [lia|]. apply Z.ltb_ge in E2. lia.
    - apply Z.ltb_ge in E. destruct (2 <? mp - 9) eqn:E2; [apply Z.ltb_lt in E2|]; lia. }
  rewrite Hm'.
  assert (Hy' : (if (if mp <? 10 then mp + 3 else mp - 9) <=? 2
                 then yoe + era * 400 + (if (if mp <? 10 then mp + 3 else mp - 9) <=? 2 then 1 else 0) - 1
                 else yoe + era * 400 + (if (if mp <? 10 then mp + 3 else mp - 9) <=? 2 then 1 else 0))
                = yoe + era * 400).
  { destruct ((if mp <? 10 then mp + 3 else mp - 9) <=? 2); lia. }
  rewrite Hy'.
  assert (He : (yoe + era * 400) / 400 = era).
  { rewrite Z.div_add by lia. rewrite Z.div_small by lia. lia. }
  rewrite He.
  unfold doy_of_doe. fold yoe. unfold daysPerEra, epochShift in *.
  replace (yoe + era * 400 - era * 400) with yoe by lia. clear Hm' Hy'. lia.
Qed.

Lemma month_index day : 0 <= month_of_doe (doe_of_day day) - 1 <= 11.
Proof.
  pose proof (mp_bounds _ (doe_range day)). unfold month_of_doe.
  destruct (mp_of_doe (doe_of_day day) <? 10) eqn:E;
    [apply Z.ltb_lt in E | apply Z.ltb_ge in E]; lia.
Qed.

Lemma MakeDay_same_month t date :
  MakeDay (getUTCFullYear t) (getUTCMonth t) date = Day t - getUTCDate t + date.
Proof.
  unfold MakeDay, getUTCFullYear, getUTCMonth, getUTCDate.
  pose proof (month_index (Day t)) as Hm.
  rewrite Z.div_small, Z.mod_small by lia.
  rewrite Z.add_0_r. replace (month_of_doe (doe_of_day (Day t)) - 1 + 1)
    with (month_of_doe (doe_of_day (Day t))) by lia.
  pose proof (first_of_month (Day t)) as H. cbv zeta in H. lia.
Qed.

Lemma startOfUtcDay_Day t : startOfUtcDay t = Day t * msPerDay.
Proof.
  unfold startOfUtcDay, UTC, MakeDate. rewrite MakeDay_same_month. lia.
Qed.

Lemma Day_shift t k : Day (t - k * msPerDay) = Day t - k.
Proof.
  unfold Day. replace (t - k * msPerDay) with (t + (- k) * msPerDay) by lia.
  rewrite Z.div_add by (unfold msPerDay; lia). lia.
Qed.

Lemma TimeWithinDay_shift t k : TimeWithinDay (t - k * msPerDay) = TimeWithinDay t.
Proof.
  unfold TimeWithinDay. replace (t - k * msPerDay) with (t + (- k) * msPerDay) by lia.
  apply Z.mod_add. unfold msPerDay; lia.
Qed.

Lemma setUTCDate_back t offset :
  setUTCDate t (getUTCDate t - offset) = t - offset * msPerDay.
Proof.
  unfold setUTCDate, MakeDate. rewrite MakeDay_same_month.
  unfold Day, TimeWithinDay.
  pose proof (Z.div_mod t msPerDay). unfold msPerDay in *. lia.
Qed.

Lemma append_assoc (a b c : string) : (a +:+ b) +:+ c = a +:+ (b +:+ c).
Proof.
  induction a as [|x a IH]; [reflexivity|].
  change (String x ((a +:+ b) +:+ c) = String x (a +:+ (b +:+ c))). now rewrite IH.
Qed.

Lemma append_length (a b : string) :
  String.length (a +:+ b) = (String.length a + String.length b)%nat.
Proof.
  induction a as [|x a IH]; [reflexivity|].
  change (S (String.length (a +:+ b)) = S (String.length a + String.length b)). now rewrite IH.
Qed.

Lemma slice0_append n (a b : string) :
  (n <= String.length a)%nat -> slice0 n (a +:+ b) = slice0 n a.
Proof.
  revert a. induction n as [|n IH]; intros a H; [now destruct a|].
  destruct a as [|x a]; simpl in *; [lia|]. rewrite IH by lia. reflexivity.
Qed.

Lemma pad_length w : forall n acc,
  String.length (pad w n acc) = (w + String.length acc)%nat.
Proof.
  induction w as [|w IH]; intros n acc; simpl; [reflexivity|].
  rewrite IH. simpl. lia.
Qed.

Lemma isoYear_length y : (4 <= String.length (isoYear y))%nat.
Proof.
  unfold isoYear. destruct ((0 <=? y) && (y <=? 9999)).
  - rewrite pad_length. simpl. lia.
  - rewrite append_length, pad_length. lia.
Qed.

Lemma formatUtcDate_Day t : formatUtcDate t = slice0 10 (datePart (Day t)).
Proof.
  unfold formatUtcDate, toISOString, datePart, getUTCFullYear, getUTCMonth, getUTCDate.
  set (y := isoYear _). set (m := pad 2 _ ""). set (d := pad 2 _ "").
  set (rest := "T" +:+ _).
  replace (y +:+ "-" +:+ m +:+ "-" +:+ d +:+ rest)
    with ((y +:+ "-" +:+ m +:+ "-" +:+ d) +:+ rest)
    by (now rewrite !append_assoc).
  apply slice0_append.
  rewrite !append_length. subst m d. rewrite !pad_length.
  pose proof (isoYear_length (year_of_day (Day t))). fold y in H. simpl. lia.
Qed.

Lemma formatUtcDate_same_day t1 t2 : Day t1 = Day t2 -> formatUtcDate t1 = formatUtcDate t2.
Proof. intros H. rewrite !formatUtcDate_Day, H. reflexivity. Qed.

Lemma historyLoop_length today n : length (historyLoop today n) = n.
Proof. induction n as [|n IH]; simpl; [reflexivity | now rewrite IH]. Qed.

Lemma historyLoop_nth today n : forall i, (i < n)%nat ->
  nth_error (historyLoop today n) i =
  Some {| date := formatUtcDate (today - Z.of_nat (n - 1 - i) * msPerDay); commit_count := 0 |}.
Proof.
  induction n as [|n IH]; intros i Hi; [lia|].
  destruct i as [|i].
  - replace (S n - 1 - 0)%nat with n by lia. simpl.
    now rewrite setUTCDate_back.
  - replace (S n - 1 - S i)%nat with (n - 1 - i)%nat by lia. simpl.
    now rewrite IH by lia.
Qed.

Lemma buildEmptyCommitHistory_length now days :
  length (buildEmptyCommitHistory now days) = Z.to_nat days.
Proof. apply historyLoop_length. Qed.

(** Entry [i] is the day [days - 1 - i] days before the day of [now]. *)
Lemma buildEmptyCommitHistory_nth now days i :
  0 <= i < days ->
  nth_error (buildEmptyCommitHistory now days) (Z.to_nat i) =
  Some {| date := formatUtcDate (now - (days - 1 - i) * msPerDay); commit_count := 0 |}.
Proof.
  intros Hi. unfold buildEmptyCommitHistory.
  rewrite historyLoop_nth by lia. do 2 f_equal.
  apply formatUtcDate_same_day. rewrite startOfUtcDay_Day, !Day_shift.
  unfold Day at 1. rewrite Z.div_mul by (unfold msPerDay; lia). lia.
Qed.

(** The history of three days on 2 November 2026 starts in October. *)
Example history_of_three_days :
  buildEmptyCommitHistory 1793592000123 3
  = [ {| date := "2026-10-31"; commit_count := 0 |};
      {| date := "2026-11-01"; commit_count := 0 |};
      {| date := "2026-11-02"; commit_count := 0 |} ].
Proof. vm_compute. reflexivity. Qed.

(** ... and the one of 1 March 2024 has the leap day. *)
Example history_over_leap_day :
  map date (buildEmptyCommitHistory 1709251200000 3) = ["2024-02-28"; "2024-02-29"; "2024-03-01"].
Proof. vm_compute. reflexivity. Qed.

(** ... and the one of 1 January 1970 reaches before the epoch. *)
Example history_before_epoch :
  map date (buildEmptyCommitHistory 1000 2) = ["1969-12-31"; "1970-01-01"].
Proof. vm_compute. reflexivity. Qed.

End Calendar.

(* ===================================================================== *)
(** * The programs keep the discipline *)
(* ===================================================================== *)

Lemma quiet_attempt {A B : Type} (P : prog A) (k : result A -> prog B) :
  quiet P -> (forall r, quiet (k r)) -> quiet (attempt P k).
Proof.
  intros HP Hk. induction HP; simpl; try constructor; auto.
Qed.

Lemma quiet_follows {A : Type} (P : prog A) : quiet P -> follows Idle P.
Proof. induction 1; constructor; auto. Qed.

Lemma follows_attempt {A B : Type} m (P : prog A) (k : result A -> prog B) :
  follows m P -> (forall r, follows Idle (k r)) -> follows m (attempt P k).
Proof.
  intros HP Hk. induction HP; simpl; try (constructor; auto); auto.
Qed.

Lemma quiet_lift {A : Type} (r : result A) : quiet (lift r).
Proof. destruct r; constructor. Qed.

Lemma quiet_bind {A B : Type} (P : prog A) (f : A -> prog B) :
  quiet P -> (forall a, quiet (f a)) -> quiet (bind P f).
Proof.
  intros HP Hf. apply quiet_attempt; [exact HP|].
  intros [a|e]; [apply Hf | constructor].
Qed.

Lemma quiet_awaitCall {A : Type} (P : prog A) : quiet P -> quiet (awaitCall P).
Proof.
  intros HP. apply quiet_attempt; [exact HP|].
  intros r. constructor. intros _. apply quiet_lift.
Qed.

Lemma follows_bind {A B : Type} m (P : prog A) (f : A -> prog B) :
  follows m P -> (forall a, follows Idle (f a)) -> follows m (bind P f).
Proof.
  intros HP Hf. apply follows_attempt; [exact HP|].
  intros [a|e]; [apply Hf | constructor].
Qed.

Lemma follows_awaitCall {A : Type} m (P : prog A) : follows m P -> follows m (awaitCall P).
Proof.
  intros HP. apply follows_attempt; [exact HP|].
  intros r. constructor. intros _. apply quiet_follows, quiet_lift.
Qed.

Create HintDb discipline.
#[local] Hint Resolve quiet_lift quiet_awaitCall quiet_follows : discipline.
#[local] Hint Constructors quiet : discipline.

(** Takes a goal [quiet P] apart along the shape of [P]. *)
Ltac quiet_step :=
  match goal with
  | |- forall _, _ => intro
  | |- quiet (bind _ _) => apply quiet_bind
  | |- quiet (attempt _ _) => apply quiet_attempt
  | |- quiet (awaitCall _) => apply quiet_awaitCall
  | |- quiet (lift _) => apply quiet_lift
  | |- quiet (match ?x with _ => _ end) => destruct x
  | |- quiet (if ?b then _ else _) => destruct b
  | |- quiet _ => solve [auto with discipline]
  | |- quiet _ => constructor
  end.

Section Discipline.

Context (h : host) (cfg : config).

Lemma quiet_afterFetch r : quiet (afterFetch r).
Proof. unfold afterFetch. repeat quiet_step. Qed.

Lemma quiet_githubRequest pathname : quiet (githubRequest cfg pathname).
Proof. unfold githubRequest. constructor. apply quiet_afterFetch. Qed.

Lemma quiet_pagesLoop username rangeStart left : forall page m,
  quiet (pagesLoop h cfg username rangeStart left page m).
Proof.
  induction left as [|left IH]; intros page m; simpl; [constructor|].
  apply quiet_bind; [apply quiet_awaitCall, quiet_githubRequest|].
  intros events. repeat quiet_step; apply IH.
Qed.

Lemma quiet_fetchCommitHistory username days : quiet (fetchCommitHistory h cfg username days).
Proof.
  unfold fetchCommitHistory. constructor. intros now.
  destruct (buildEmptyCommitHistory now days); [constructor|].
  apply quiet_bind; [apply quiet_pagesLoop | intros; constructor].
Qed.

Lemma quiet_fetchFreshPayload : quiet (fetchFreshPayload h cfg).
Proof.
  unfold fetchFreshPayload. constructor. intros rs.
  destruct rs as [|r1 [|r2 [|r3 [|r4 rs]]]]; try constructor.
  apply quiet_bind; [apply quiet_afterFetch | intros userResponse].
  apply quiet_bind; [apply quiet_afterFetch | intros reposResponse].
  apply quiet_bind; [apply quiet_afterFetch | intros readmeResponse].
  destruct reposResponse; try constructor.
  apply quiet_bind; [apply quiet_lift | intros encoding].
  destruct encoding; try constructor.
  destruct (Js.getOpt readmeResponse "content"); try constructor.
  destruct (String.eqb _ _); [|constructor].
  constructor. intros now0.
  apply quiet_attempt; [apply quiet_awaitCall, quiet_fetchCommitHistory|].
  intros fetched. repeat quiet_step.
Qed.

Lemma quiet_writeCachedPayload payload : quiet (writeCachedPayload cfg payload).
Proof. unfold writeCachedPayload. repeat quiet_step. Qed.

Lemma quiet_readCachedPayload : quiet (readCachedPayload cfg).
Proof. unfold readCachedPayload. repeat quiet_step. Qed.

Lemma quiet_loadRepoSnapshot : quiet loadRepoSnapshot.
Proof. unfold loadRepoSnapshot. repeat quiet_step. Qed.

Lemma quiet_refreshBody : quiet (refreshBody h cfg).
Proof.
  unfold refreshBody.
  apply quiet_bind; [apply quiet_awaitCall, quiet_fetchFreshPayload | intros payload].
  apply quiet_bind; [apply quiet_awaitCall, quiet_writeCachedPayload | intros; constructor].
Qed.

Lemma follows_refreshCache : follows Idle (refreshCache h cfg).
Proof.
  unfold refreshCache. apply follows_read.
  - apply follows_call; [apply quiet_refreshBody|]. intros p.
    apply follows_store. unfold tryFinally, awaitPromise. simpl.
    apply follows_await. intros r. destruct r; simpl; apply follows_clear; constructor.
  - intros p. unfold awaitPromise. constructor. intros r. apply quiet_follows, quiet_lift.
Qed.

Lemma quiet_fallback (k : option value -> prog unit) now snapshot :
  (forall o, quiet (k o)) ->
  quiet (bind (lift (buildFallbackPayloadFromSnapshot h cfg now snapshot)) k).
Proof. intros Hk. apply quiet_bind; [apply quiet_lift | exact Hk]. Qed.

Lemma quiet_getAfterFailure cached : quiet (getAfterFailure h cfg cached).
Proof.
  unfold getAfterFailure. destruct (Js.truthy cached); [constructor|].
  apply quiet_bind; [apply quiet_awaitCall, quiet_loadRepoSnapshot | intros snapshot].
  constructor. intros now. apply quiet_bind; [apply quiet_lift | intros [payload|]].
  - apply quiet_bind; [apply quiet_awaitCall, quiet_writeCachedPayload | intros; constructor].
  - constructor.
Qed.

Lemma follows_getAfterRead cached : follows Idle (getAfterRead h cfg cached).
Proof.
  unfold getAfterRead. constructor. intros now.
  destruct (_ && _); [constructor|].
  apply follows_attempt; [apply follows_awaitCall, follows_refreshCache|].
  intros [fresh|e]; [constructor | apply quiet_follows, quiet_getAfterFailure].
Qed.

Lemma follows_getDashboard : follows Idle (getDashboard h cfg).
Proof.
  unfold getDashboard. apply follows_bind.
  - apply quiet_follows, quiet_awaitCall, quiet_readCachedPayload.
  - apply follows_getAfterRead.
Qed.

Lemma follows_postRefresh token : follows Idle (postRefresh h cfg token).
Proof.
  unfold postRefresh. destruct (_ && _); [constructor|].
  apply follows_attempt; [apply follows_awaitCall, follows_refreshCache|].
  intros [payload|e]; constructor.
Qed.

Lemma follows_scheduledRefresh : follows Idle (scheduledRefresh h cfg).
Proof.
  unfold scheduledRefresh. apply follows_attempt; [apply follows_refreshCache|].
  intros r. constructor.
Qed.

Lemma follows_warmUp : follows Idle (warmUp h cfg).
Proof.
  unfold warmUp. apply follows_attempt; [apply follows_refreshCache|].
  intros [v|e]; [constructor|]. apply quiet_follows.
  apply quiet_bind; [apply quiet_awaitCall, quiet_loadRepoSnapshot | intros snapshot].
  constructor. intros now. apply quiet_bind; [apply quiet_lift | intros [payload|]].
  - apply quiet_awaitCall, quiet_writeCachedPayload.
  - constructor.
Qed.

End Discipline.

(* ===================================================================== *)
(** * What one run does to the handle *)
(* ===================================================================== *)

Lemma calls_app tr1 tr2 : calls (tr1 ++ tr2) = calls tr1 ++ calls tr2.
Proof.
  induction tr1 as [|a tr1 IH]; [reflexivity|].
  destruct a; simpl; rewrite IH; reflexivity.
Qed.

(** Unfolds one node of [run] in a hypothesis [run P now s = (s', tr, st)]. *)
Ltac run_inv H :=
  simpl in H;
  repeat match type of H with
  | context [run ?P ?now ?s] =>
      let E := fresh "E" in
      destruct (run P now s) as [[? ?] ?] eqn:E
  end;
  inversion H; subst; clear H.

Lemma run_quiet {A : Type} (P : prog A) : quiet P ->
  forall now s s' tr st, run P now s = (s', tr, st) ->
  refreshPromise s' = refreshPromise s /\ promiseCount s' = promiseCount s
  /\ calls tr = [] /\ quietP st.
Proof.
  induction 1 as [a|e|k Hk IH|k Hk IH|v k Hk IH|e k Hk IH]; intros now s s' tr st Hrun.
  - run_inv Hrun. simpl. auto.
  - run_inv Hrun. simpl. auto.
  - simpl in Hrun. eapply IH; eauto.
  - simpl in Hrun. eapply IH; eauto.
  - run_inv Hrun. apply IH in E. simpl in *. tauto.
  - run_inv Hrun. simpl. auto.
Qed.

Lemma run_follows {A : Type} m (P : prog A) : follows m P ->
  forall now s s' tr st, run P now s = (s', tr, st) -> runs m s s' tr st.
Proof.
  induction 1 as [a|e|k Hk IH|k Hk IH|v k Hk IH|e k Hk IH
                 |k Hn IHn Hs IHs|body k Hb Hk IH|p k Hk IH|p k Hk IH|k Hk IH];
    intros now s s' tr st Hrun.
  - run_inv Hrun. left. repeat split; simpl; auto.
  - run_inv Hrun. left. repeat split; simpl; auto.
  - simpl in Hrun. eapply IH; eauto.
  - simpl in Hrun. eapply IH; eauto.
  - run_inv Hrun. apply IH in E. simpl in E.
    destruct E as [E|[E1 E2]]; [left; exact E | right; split; [exact E1 | exact E2]].
  - run_inv Hrun. left. repeat split; simpl; auto.
  - simpl in Hrun. destruct (refreshPromise s) as [p|] eqn:Hp.
    + apply IHs in Hrun. exact Hrun.
    + apply IHn in Hrun. right. split; [exact Hp | exact Hrun].
  - simpl in Hrun.
    destruct (run body now s) as [[s1 tr1] st1] eqn:E1.
    destruct (run (k (promiseCount s1)) now (withPromiseCount (S (promiseCount s1)) s1))
      as [[s2 tr2] st2] eqn:E2.
    inversion Hrun; subst; clear Hrun.
    apply (run_quiet _ Hb) in E1 as (Q1 & Q2 & Q3 & Q4).
    apply IH in E2. simpl in E2. destruct E2 as (F1 & F2 & F3 & F4).
    exists st1. rewrite <- Q2. repeat split; auto.
    rewrite calls_app. simpl. rewrite Q3, F3. reflexivity.
  - run_inv Hrun. apply IH in E. simpl in E. exact E.
  - run_inv Hrun. simpl. repeat split; auto.
  - run_inv Hrun. apply IH in E. simpl in E.
    destruct E as [E|[_ E]]; [left | right]; exact E.
Qed.

(* ===================================================================== *)
(** * The invariant of the event loop *)
(* ===================================================================== *)

Lemma releasing_not_idle {A : Type} (P : prog A) :
  follows Releasing P -> follows Idle P -> False.
Proof. intros H1 H2. inversion H1; subst. inversion H2. Qed.

Lemma releasing_not_quiet {A : Type} (P : prog A) :
  follows Releasing P -> quiet P -> False.
Proof. intros H1 H2. apply (releasing_not_idle P H1). now apply quiet_follows. Qed.

Lemma holds_not_idle p x : holdsTask p x -> idleTask x -> False.
Proof.
  destruct x as [e k|e k|q e k]; simpl; [| |tauto]; intros [-> Hr] Hi;
    exact (releasing_not_idle _ (Hr (Ok VNull)) (Hi (Ok VNull))).
Qed.

Lemma holds_same p1 p2 x : holdsTask p1 x -> holdsTask p2 x -> p1 = p2.
Proof.
  destruct x as [e k|e k|q e k]; simpl; [| |tauto]; intros [-> _] [E _]; congruence.
Qed.

Lemma holds_not_refresh p x : holdsTask p x -> isRefresh x = false.
Proof. destruct x; simpl; tauto. Qed.

Lemma holder_handle w t x p :
  consistent w -> tasks w !! t = Some x -> holdsTask p x ->
  refreshPromise (shared w) = Some p.
Proof.
  intros C Ht Hh. destruct (tasks_follow w C t x Ht) as [Hi|(q & Hq & Hrp)].
  - destruct (holds_not_idle _ _ Hh Hi).
  - now rewrite (holds_same _ _ _ Hh Hq).
Qed.

(** With no refresh in flight recorded in the handle, no refresh body is
    left and nobody holds the handle. *)
Lemma no_handle_all_idle w :
  consistent w -> refreshPromise (shared w) = None ->
  forall t x, tasks w !! t = Some x -> idleTask x /\ isRefresh x = false.
Proof.
  intros C Hrp t x Ht. split.
  - destruct (tasks_follow w C t x Ht) as [Hi|(q & _ & Hq)]; [exact Hi | congruence].
  - destruct x as [e k|e k|q e k]; try reflexivity.
    destruct (refresh_is_current w C t q e k Ht). congruence.
Qed.

(** Once the promise in the handle has settled, no refresh body is left. *)
Lemma settled_no_refresh w p r :
  consistent w -> refreshPromise (shared w) = Some p -> settled w !! p = Some r ->
  forall t x, tasks w !! t = Some x -> isRefresh x = false.
Proof.
  intros C Hrp Hs t x Ht. destruct x as [e k|e k|q e k]; try reflexivity.
  destruct (refresh_is_current w C t q e k Ht) as [H1 H2]. congruence.
Qed.

(** A task runs on without touching the handle. *)
Lemma consistent_quiet_update w w' t (x' : option task) :
  consistent w ->
  refreshPromise (shared w') = refreshPromise (shared w) ->
  promiseCount (shared w') = promiseCount (shared w) ->
  settled w' = settled w ->
  (taskCount w <= taskCount w')%nat ->
  (x' <> None -> (t < taskCount w')%nat) ->
  tasks w' = match x' with Some x => <[t := x]> (tasks w) | None => delete t (tasks w) end ->
  (forall x, x' = Some x ->
     idleTask x /\ (isRefresh x = true ->
                    exists p e k e0 k0, x = TRefresh p e k /\ tasks w !! t = Some (TRefresh p e0 k0))) ->
  consistent w'.
Proof.
  intros C Hrp Hpc Hst Htc Ht Hts Hx.
  assert (Hold : forall t2 x2, tasks w' !! t2 = Some x2 ->
            (t2 = t /\ x' = Some x2) \/ (t2 <> t /\ tasks w !! t2 = Some x2)).
  { intros t2 x2 H2. rewrite Hts in H2. destruct x' as [x|].
    - apply lookup_insert_Some in H2 as [[-> ->]|[? ?]]; [left | right]; auto.
    - apply lookup_delete_Some in H2 as [? ?]. right; auto. }
  split.
  - intros t2 x2 H2. destruct (Hold _ _ H2) as [[-> Hx2]|[Hne H2']].
    + left. now apply Hx.
    + rewrite Hrp. exact (tasks_follow w C t2 x2 H2').
  - intros t2 p e k H2. rewrite Hrp, Hst. destruct (Hold _ _ H2) as [[-> Hx2]|[Hne H2']].
    + destruct (Hx _ Hx2) as [_ Hr]. destruct (Hr eq_refl) as (p0 & e1 & k1 & e0 & k0 & Heq & Hw).
      inversion Heq; subst. exact (refresh_is_current w C t p0 e0 k0 Hw).
    + exact (refresh_is_current w C t2 p e k H2').
  - intros t1 t2 x1 x2 p1 p2 H1 H2 Hh1 Hh2.
    destruct (Hold _ _ H1) as [[-> Hx1]|[Hne1 H1']].
    { destruct (Hx _ Hx1) as [Hi _]. destruct (holds_not_idle _ _ Hh1 Hi). }
    destruct (Hold _ _ H2) as [[-> Hx2]|[Hne2 H2']].
    { destruct (Hx _ Hx2) as [Hi _]. destruct (holds_not_idle _ _ Hh2 Hi). }
    exact (one_holder w C t1 t2 x1 x2 p1 p2 H1' H2' Hh1 Hh2).
  - intros t1 t2 x1 x2 H1 H2 Hr1 Hr2.
    destruct (Hold _ _ H1) as [[-> Hx1]|[Hne1 H1']];
      destruct (Hold _ _ H2) as [[-> Hx2]|[Hne2 H2']]; auto.
    + destruct (Hx _ Hx1) as [_ Hr]. destruct (Hr Hr1) as (p0 & e1 & k1 & e0 & k0 & _ & Hw).
      exact (one_refresh w C t t2 _ x2 Hw H2' eq_refl Hr2).
    + destruct (Hx _ Hx2) as [_ Hr]. destruct (Hr Hr2) as (p0 & e1 & k1 & e0 & k0 & _ & Hw).
      exact (one_refresh w C t1 t x1 _ H1' Hw Hr1 eq_refl).
    + exact (one_refresh w C t1 t2 x1 x2 H1' H2' Hr1 Hr2).
  - intros t2 x2 H2. destruct (Hold _ _ H2) as [[-> Hx2]|[_ H2']];
      [apply Ht; congruence|].
    pose proof (task_ids w C t2 x2 H2'). lia.
  - intros p r. rewrite Hst, Hpc. exact (settled_ids w C p r).
  - intros p. rewrite Hrp, Hpc. exact (handle_id w C p).
Qed.

(** The body of the refresh runs to its end and settles its promise. *)
Lemma consistent_refresh_done w w' t p e k r :
  consistent w ->
  tasks w !! t = Some (TRefresh p e k) ->
  refreshPromise (shared w') = refreshPromise (shared w) ->
  promiseCount (shared w') = promiseCount (shared w) ->
  settled w' = <[p := r]> (settled w) ->
  taskCount w' = taskCount w ->
  tasks w' = delete t (tasks w) ->
  consistent w'.
Proof.
  intros C Ht Hsh Hpc Hst Htc Hts.
  destruct (refresh_is_current w C t p e k Ht) as [Hrp Hns].
  assert (Hold : forall t2 x2, tasks w' !! t2 = Some x2 -> t2 <> t /\ tasks w !! t2 = Some x2).
  { intros t2 x2 H2. rewrite Hts in H2. now apply lookup_delete_Some in H2. }
  assert (Hnr : forall t2 x2, tasks w' !! t2 = Some x2 -> isRefresh x2 = false).
  { intros t2 x2 H2. destruct (Hold _ _ H2) as [Hne H2'].
    destruct (isRefresh x2) eqn:E; [|reflexivity].
    destruct Hne. exact (one_refresh w C t2 t x2 _ H2' Ht E eq_refl). }
  split.
  - intros t2 x2 H2. rewrite Hsh. destruct (Hold _ _ H2) as [_ H2'].
    exact (tasks_follow w C t2 x2 H2').
  - intros t2 q e2 k2 H2. pose proof (Hnr _ _ H2) as F. discriminate F.
  - intros t1 t2 x1 x2 p1 p2 H1 H2.
    destruct (Hold _ _ H1) as [_ H1']. destruct (Hold _ _ H2) as [_ H2'].
    exact (one_holder w C t1 t2 x1 x2 p1 p2 H1' H2').
  - intros t1 t2 x1 x2 H1 H2 Hr1. rewrite (Hnr _ _ H1) in Hr1. discriminate.
  - intros t2 x2 H2. destruct (Hold _ _ H2) as [_ H2']. rewrite Htc.
    exact (task_ids w C t2 x2 H2').
  - intros q r'. rewrite Hst, Hpc. intros H.
    apply lookup_insert_Some in H as [[<- _]|[_ H]].
    + exact (handle_id w C p Hrp).
    + exact (settled_ids w C q r' H).
  - intros q. rewrite Hsh, Hpc. exact (handle_id w C q).
Qed.

(** The holder of the handle is resumed and clears it. *)
Lemma consistent_release w w' t x p r :
  consistent w ->
  tasks w !! t = Some x -> holdsTask p x -> settled w !! p = Some r ->
  shared w' = withRefreshPromise None (shared w) ->
  settled w' = settled w ->
  taskCount w' = taskCount w ->
  tasks w' = delete t (tasks w) ->
  consistent w'.
Proof.
  intros C Ht Hh Hs Hsh Hst Htc Hts.
  pose proof (holder_handle w t x p C Ht Hh) as Hrp.
  assert (Hold : forall t2 x2, tasks w' !! t2 = Some x2 -> t2 <> t /\ tasks w !! t2 = Some x2).
  { intros t2 x2 H2. rewrite Hts in H2. now apply lookup_delete_Some in H2. }
  assert (Hidle : forall t2 x2, tasks w' !! t2 = Some x2 -> idleTask x2).
  { intros t2 x2 H2. destruct (Hold _ _ H2) as [Hne H2'].
    destruct (tasks_follow w C t2 x2 H2') as [Hi|(q & Hq & _)]; [exact Hi|].
    destruct Hne. exact (one_holder w C t2 t x2 x q p H2' Ht Hq Hh). }
  split.
  - intros t2 x2 H2. left. exact (Hidle _ _ H2).
  - intros t2 q e k H2. destruct (Hold _ _ H2) as [_ H2'].
    pose proof (settled_no_refresh w p r C Hrp Hs t2 _ H2') as F. discriminate F.
  - intros t1 t2 x1 x2 p1 p2 H1 H2 Hh1 _.
    destruct (holds_not_idle _ _ Hh1 (Hidle _ _ H1)).
  - intros t1 t2 x1 x2 H1 H2 Hr1 _. destruct (Hold _ _ H1) as [_ H1'].
    rewrite (settled_no_refresh w p r C Hrp Hs t1 _ H1') in Hr1. discriminate.
  - intros t2 x2 H2. destruct (Hold _ _ H2) as [_ H2']. rewrite Htc.
    exact (task_ids w C t2 x2 H2').
  - intros q r'. rewrite Hst, Hsh. simpl. exact (settled_ids w C q r').
  - intros q. rewrite Hsh. simpl. discriminate.
Qed.

(** A task starts a refresh: it becomes the holder, the body a new task (or,
    had it run to its end at once, a settled promise). *)
Lemma consistent_claim w w' t x (stb : progress value) :
  consistent w ->
  refreshPromise (shared w) = None ->
  let p := promiseCount (shared w) in
  refreshPromise (shared w') = Some p ->
  promiseCount (shared w') = S p ->
  holdsTask p x ->
  quietP stb ->
  (t < taskCount w')%nat ->
  match stb with
  | Done r =>
      settled w' = <[p := r]> (settled w) /\ tasks w' = <[t := x]> (tasks w)
      /\ (taskCount w <= taskCount w')%nat
  | Waiting e k =>
      settled w' = settled w /\ (exists n, (taskCount w <= n < taskCount w')%nat /\ n <> t
      /\ tasks w' = <[t := x]> (<[n := TRefresh p e k]> (tasks w)))
  end ->
  consistent w'.
Proof.
  intros C Hrp p Hrp' Hpc Hh Hq Ht Hw.
  pose proof (no_handle_all_idle w C Hrp) as Hall.
  assert (Hsettled : forall q r, settled w' !! q = Some r -> (q < S p)%nat).
  { intros q r H. destruct stb as [r0|e k].
    - destruct Hw as (Hst & _). rewrite Hst in H.
      apply lookup_insert_Some in H as [[<- _]|[_ H]]; [lia|].
      pose proof (settled_ids w C q r H). unfold p. lia.
    - destruct Hw as (Hst & _). rewrite Hst in H.
      pose proof (settled_ids w C q r H). unfold p. lia. }
  assert (Hold : forall t2 x2, tasks w' !! t2 = Some x2 ->
            (t2 = t /\ x2 = x)
            \/ (t2 <> t /\ exists e k, stb = Waiting e k /\ x2 = TRefresh p e k
                /\ (taskCount w <= t2)%nat)
            \/ (t2 <> t /\ tasks w !! t2 = Some x2)).
  { intros t2 x2 H2. destruct stb as [r0|e k].
    - destruct Hw as (_ & Hts & _). rewrite Hts in H2.
      apply lookup_insert_Some in H2 as [[<- <-]|[? ?]]; auto.
    - destruct Hw as (_ & n & Hn & Hnt & Hts). rewrite Hts in H2.
      apply lookup_insert_Some in H2 as [[<- <-]|[? H2]]; auto.
      apply lookup_insert_Some in H2 as [[<- <-]|[? H2]]; auto.
      right; left. split; [auto|]. exists e, k. repeat split; auto. lia. }
  split.
  - intros t2 x2 H2. destruct (Hold _ _ H2) as [[-> ->]|[(Hne & e & k & -> & -> & _)|[Hne H2']]].
    + right. exists p. auto.
    + left. exact Hq.
    + left. exact (proj1 (Hall _ _ H2')).
  - intros t2 q e k H2. destruct (Hold _ _ H2) as [[-> Hx]|[(Hne & e' & k' & -> & Heq & _)|[Hne H2']]].
    + rewrite <- Hx in Hh. simpl in Hh. tauto.
    + inversion Heq; subst. split; [exact Hrp'|].
      destruct Hw as (Hst & _). rewrite Hst.
      destruct (settled w !! p) eqn:E; [|first [exact E | reflexivity]].
      pose proof (settled_ids w C p _ E). unfold p in *. lia.
    + pose proof (proj2 (Hall _ _ H2')) as F. discriminate F.
  - intros t1 t2 x1 x2 p1 p2 H1 H2 Hh1 Hh2.
    destruct (Hold _ _ H1) as [[-> ->]|[(Hne1 & e1 & k1 & -> & -> & _)|[Hne1 H1']]];
      [|simpl in Hh1; tauto|destruct (holds_not_idle _ _ Hh1 (proj1 (Hall _ _ H1')))].
    destruct (Hold _ _ H2) as [[-> ->]|[(Hne2 & e2 & k2 & -> & -> & _)|[Hne2 H2']]];
      [reflexivity|simpl in Hh2; tauto|destruct (holds_not_idle _ _ Hh2 (proj1 (Hall _ _ H2')))].
  - intros t1 t2 x1 x2 H1 H2 Hr1 Hr2.
    destruct (Hold _ _ H1) as [[-> ->]|[(Hne1 & e1 & k1 & Hs1 & -> & Hn1)|[Hne1 H1']]];
      [rewrite (holds_not_refresh _ _ Hh) in Hr1; discriminate| |
       rewrite (proj2 (Hall _ _ H1')) in Hr1; discriminate].
    destruct (Hold _ _ H2) as [[-> ->]|[(Hne2 & e2 & k2 & Hs2 & -> & Hn2)|[Hne2 H2']]];
      [rewrite (holds_not_refresh _ _ Hh) in Hr2; discriminate| |
       rewrite (proj2 (Hall _ _ H2')) in Hr2; discriminate].
    subst stb. destruct Hw as (_ & n & Hn & Hnt & Hts).
    rewrite Hts in H1, H2.
    rewrite lookup_insert_ne in H1 by auto. rewrite lookup_insert_ne in H2 by auto.
    apply lookup_insert_Some in H1 as [[<- _]|[_ H1]];
      [|pose proof (task_ids w C _ _ H1); lia].
    apply lookup_insert_Some in H2 as [[<- _]|[_ H2]];
      [reflexivity|pose proof (task_ids w C _ _ H2); lia].
  - intros t2 x2 H2. destruct (Hold _ _ H2) as [[-> ->]|[(Hne & e & k & -> & -> & Hn)|[Hne H2']]].
    + exact Ht.
    + destruct Hw as (_ & n & Hn' & Hnt & Hts). rewrite Hts in H2.
      rewrite lookup_insert_ne in H2 by auto.
      apply lookup_insert_Some in H2 as [[<- _]|[_ H2]]; [lia|].
      pose proof (task_ids w C _ _ H2). lia.
    + pose proof (task_ids w C _ _ H2').
      destruct stb; [destruct Hw as (_ & _ & ?)|destruct Hw as (_ & n & ? & _)]; lia.
  - intros q r H. rewrite Hpc. exact (Hsettled q r H).
  - intros q. rewrite Hrp', Hpc. intros [= <-]. lia.
Qed.

(* ===================================================================== *)
(** * Every step of the event loop keeps the invariant *)
(* ===================================================================== *)

Lemma caller_request : caller TRequest placeRequest.
Proof. repeat split; destruct st; reflexivity. Qed.

Lemma caller_background : caller TBackground placeBackground.
Proof. repeat split; destruct st; reflexivity. Qed.

Lemma consistent_sameTasks w w1 : sameTasks w w1 -> consistent w -> consistent w1.
Proof.
  intros (Hsh & Hst & Hts & Htc) C.
  assert (Hfree : tasks w !! taskCount w1 = None).
  { destruct (tasks w !! taskCount w1) eqn:E; [|reflexivity].
    pose proof (task_ids w C _ _ E). lia. }
  apply (consistent_quiet_update w w1 (taskCount w1) None C).
  - now rewrite Hsh.
  - now rewrite Hsh.
  - exact Hst.
  - exact Htc.
  - congruence.
  - rewrite Hts. symmetry. now apply delete_id.
  - discriminate.
Qed.

(** A caller has run, from the variables of [wb]; [w1] is the world the
    result is placed in, which may still list the caller itself. *)
Lemma caller_after_run {A : Type} mk place (wb w1 : world) t s tr (st : progress A) :
  caller mk place ->
  consistent wb ->
  settled w1 = settled wb ->
  taskCount w1 = taskCount wb ->
  delete t (tasks w1) = delete t (tasks wb) ->
  (t < taskCount wb)%nat ->
  noClaim (shared wb) s tr st
  \/ (refreshPromise (shared wb) = None /\ claim (shared wb) s tr st) ->
  let w' := place t st (adopt (calls tr) (withShared s w1)) in
  consistent w' /\ countStep wb w'.
Proof.
  intros (Hidle & Hholds & Hnr & Hplace) C Hst Htc Hdel Ht [Hrun|[Hrp Hrun]] w'.
  - destruct Hrun as (H1 & H2 & H3 & H4). subst w'. rewrite H3. simpl.
    destruct (Hplace t st (withShared s w1)) as (P1 & P2 & P3 & P4). simpl in *.
    split; [|split; [left; rewrite P1; exact H2 | rewrite P2, Hst; reflexivity]].
    apply (consistent_quiet_update wb _ t
             (match st with Waiting e k => Some (mk e k) | Done _ => None end) C);
      rewrite ?P1, ?P2, ?P3; auto.
    + lia.
    + intros _. lia.
    + rewrite P4. destruct st.
      * exact Hdel.
      * rewrite <- (insert_delete_eq (tasks w1)), Hdel. apply insert_delete_eq.
    + intros x Hx. destruct st as [r|e k]; [discriminate|]. inversion Hx; subst.
      rewrite Hidle, Hnr. split; [exact H4 | discriminate].
  - destruct Hrun as (stb & H1 & H2 & H3 & H4 & H5). subst w'. rewrite H3.
    destruct st as [r|e k]; [destruct H5|].
    assert (Hcount : forall W, shared W = s ->
              promiseCount (shared (place t (Waiting e k) W)) = S (promiseCount (shared wb))).
    { intros W HW. rewrite (proj1 (Hplace t (Waiting e k) W)), HW. exact H2. }
    split.
    + apply (consistent_claim wb _ t (mk e k) stb C Hrp).
      * rewrite (proj1 (Hplace t (Waiting e k) _)). destruct stb; simpl; exact H1.
      * apply Hcount. destruct stb; reflexivity.
      * rewrite Hholds. exact H5.
      * exact H4.
      * rewrite (proj1 (proj2 (proj2 (Hplace t (Waiting e k) _)))).
        destruct stb; simpl; lia.
      * destruct stb as [r|eb kb]; simpl;
          match goal with
          | |- context [place t ?st ?W] => destruct (Hplace t st W) as (P1 & P2 & P3 & P4)
          end; simpl in *; rewrite ?P2, ?P3, ?P4.
        -- split; [now rewrite Hst|]. split; [|lia].
           rewrite <- (insert_delete_eq (tasks w1)), Hdel. apply insert_delete_eq.
        -- split; [exact Hst|]. exists (taskCount wb). repeat split; try lia.
           rewrite Htc.
           rewrite <- (insert_delete_eq (<[taskCount wb := _]> (tasks w1))).
           rewrite delete_insert_ne by lia. rewrite Hdel.
           rewrite <- delete_insert_ne by lia. apply insert_delete_eq.
    + split.
      * right. split; [|apply Hcount; destruct stb; reflexivity].
        intros t2 x2 H. exact (proj2 (no_handle_all_idle wb C Hrp t2 x2 H)).
      * rewrite (proj1 (proj2 (Hplace t (Waiting e k) _))).
        destruct stb as [r|eb kb]; simpl; rewrite Hst; [|reflexivity].
        apply insert_subseteq.
        destruct (settled wb !! promiseCount (shared wb)) eqn:E; [|first [exact E | reflexivity]].
        pose proof (settled_ids wb C _ _ E). lia.
Qed.

Lemma countStep_sameTasks w w1 w' : sameTasks w w1 -> countStep w1 w' -> countStep w w'.
Proof.
  intros (Hsh & Hst & Hts & _) [[H|[H1 H2]] Hsub];
    (split; [|rewrite <- Hst; exact Hsub]); [left | right]; rewrite <- Hsh; auto.
  split; [|exact H2]. intros t x Ht. apply (H1 t x). now rewrite Hts.
Qed.

(** A request arrives, or a caller that does not hold the handle resumes. *)
Lemma caller_idle_step {A : Type} mk place (w w1 : world) t now (P : prog A) s tr st :
  caller mk place ->
  consistent w -> sameTasks w w1 -> (t < taskCount w1)%nat ->
  follows Idle P ->
  run P now (shared w1) = (s, tr, st) ->
  let w' := place t st (adopt (calls tr) (withShared s w1)) in
  consistent w' /\ countStep w w'.
Proof.
  intros Hc C Hsame Ht HP Hrun w'.
  pose proof (consistent_sameTasks w w1 Hsame C) as C1.
  destruct (caller_after_run mk place w1 w1 t s tr st Hc C1 eq_refl eq_refl eq_refl Ht
              (run_follows Idle P HP _ _ _ _ _ Hrun)) as [C' Hn].
  split; [exact C' | exact (countStep_sameTasks _ _ _ Hsame Hn)].
Qed.

(** The holder of the handle resumes once its promise has settled. *)
Lemma caller_release_step {A : Type} mk place (w : world) t x p r now (P : prog A) s tr st :
  caller mk place ->
  consistent w ->
  tasks w !! t = Some x -> holdsTask p x -> settled w !! p = Some r ->
  follows Releasing P ->
  run P now (shared w) = (s, tr, st) ->
  let w' := place t st (adopt (calls tr) (withShared s w)) in
  consistent w' /\ countStep w w'.
Proof.
  intros Hc C Ht Hh Hs HP Hrun w'.
  set (wb := {| shared := withRefreshPromise None (shared w); redis := redis w;
                settled := settled w; tasks := delete t (tasks w);
                taskCount := taskCount w; replies := replies w |}).
  assert (Cb : consistent wb)
    by (apply (consistent_release w wb t x p r C Ht Hh Hs); reflexivity).
  assert (Hruns : noClaim (shared wb) s tr st
                  \/ (refreshPromise (shared wb) = None /\ claim (shared wb) s tr st)).
  { pose proof (run_follows Releasing P HP _ _ _ _ _ Hrun) as [H|H]; [left | right]; auto. }
  destruct (caller_after_run mk place wb w t s tr st Hc Cb eq_refl eq_refl) as [C' Hn]; auto.
  - simpl. now rewrite delete_delete_eq.
  - simpl. exact (task_ids w C t x Ht).
  - split; [exact C'|]. destruct Hn as [Hn Hsub]. split; [|exact Hsub].
    destruct Hn as [Hn|[_ Hn]]; [left; exact Hn | right].
    split; [|exact Hn].
    exact (settled_no_refresh w p r C (holder_handle w t x p C Ht Hh) Hs).
Qed.

(** The body of the refresh resumes. *)
Lemma refresh_step (w w1 : world) t p e k now (P : prog value) s tr st :
  consistent w -> sameTasks w w1 ->
  tasks w !! t = Some (TRefresh p e k) ->
  quiet P ->
  run P now (shared w1) = (s, tr, st) ->
  let w' := placeRefresh t p st (adopt (calls tr) (withShared s w1)) in
  consistent w' /\ countStep w w'.
Proof.
  intros C Hsame Ht HP Hrun w'.
  pose proof (consistent_sameTasks w w1 Hsame C) as C1.
  destruct Hsame as (Hsh & Hst & Hts & Htc).
  destruct (run_quiet P HP _ _ _ _ _ Hrun) as (H1 & H2 & H3 & H4).
  subst w'. rewrite H3. simpl.
  split; [|split; [left; destruct st; simpl; rewrite H2, Hsh; reflexivity|]].
  2:{ destruct st as [r|e' k']; simpl; rewrite Hst; [|reflexivity].
      apply insert_subseteq. exact (proj2 (refresh_is_current w C t p e k Ht)). }
  destruct st as [r|e' k'].
  - apply (consistent_refresh_done w1 _ t p e k r C1); simpl; auto. now rewrite Hts.
  - apply (consistent_quiet_update w1 _ t (Some (TRefresh p e' k')) C1); simpl; auto.
    + intros _. rewrite <- Hts in Ht. exact (task_ids w1 C1 t _ Ht).
    + intros x [= <-]. split; [exact H4|]. intros _.
      exists p, e', k', e, k. split; [reflexivity|]. now rewrite Hts.
Qed.

Lemma answerOf_sameTasks w e o a w1 : answerOf w e o = Some (a, w1) -> sameTasks w w1.
Proof.
  unfold answerOf, sameTasks. intros H.
  destruct e, o; try discriminate; try (inversion H; subst; simpl; auto; fail).
  destruct (settled w !! p); inversion H; subst; auto.
Qed.

Lemma answerOf_await w p o a w1 :
  answerOf w (Await p) o = Some (a, w1) ->
  w1 = w /\ exists r, settled w !! p = Some r /\ a = ASettled r.
Proof.
  unfold answerOf. destruct o; try discriminate.
  destruct (settled w !! p) as [r|]; [|discriminate].
  intros [= <- <-]. eauto.
Qed.

Section Steps.

Context (h : host) (cfg : config).

Lemma arrive_consistent r now w :
  consistent w -> consistent (arrive h cfg r now w) /\ countStep w (arrive h cfg r now w).
Proof.
  intros C. unfold arrive.
  assert (Hsame : sameTasks w (withTaskCount (S (taskCount w)) w))
    by (repeat split; simpl; lia).
  destruct r as [|token| |].
  - destruct (run (getDashboard h cfg) now (shared w)) as [[s tr] st] eqn:E.
    apply (caller_idle_step TRequest placeRequest w _ _ now (getDashboard h cfg) s tr st
             caller_request C Hsame); [simpl; lia | apply follows_getDashboard | exact E].
  - destruct (run (postRefresh h cfg token) now (shared w)) as [[s tr] st] eqn:E.
    apply (caller_idle_step TRequest placeRequest w _ _ now (postRefresh h cfg token) s tr st
             caller_request C Hsame); [simpl; lia | apply follows_postRefresh | exact E].
  - destruct (run (scheduledRefresh h cfg) now (shared w)) as [[s tr] st] eqn:E.
    apply (caller_idle_step TBackground placeBackground w _ _ now (scheduledRefresh h cfg) s tr st
             caller_background C Hsame); [simpl; lia | apply follows_scheduledRefresh | exact E].
  - destruct (run (warmUp h cfg) now (shared w)) as [[s tr] st] eqn:E.
    apply (caller_idle_step TBackground placeBackground w _ _ now (warmUp h cfg) s tr st
             caller_background C Hsame); [simpl; lia | apply follows_warmUp | exact E].
Qed.

Lemma caller_deliver {A : Type} mk place (w : world) t e (k : reply_of e -> prog A) o now w' :
  caller mk place ->
  consistent w ->
  tasks w !! t = Some (mk e k) ->
  match answerOf w e o with
  | Some (a, w1) =>
      match coerce e a with
      | Some x =>
          let '(s, tr, st) := run (k x) now (shared w1) in
          Some (place t st (adopt (calls tr) (withShared s w1)))
      | None => None
      end
  | None => None
  end = Some w' ->
  consistent w' /\ countStep w w'.
Proof.
  intros Hc C Ht Hstep.
  destruct (answerOf w e o) as [[a w1]|] eqn:Ha; [|discriminate].
  destruct (coerce e a) as [x|] eqn:Hx; [|discriminate].
  destruct (run (k x) now (shared w1)) as [[s tr] st] eqn:Hrun.
  inversion Hstep; subst; clear Hstep.
  pose proof (answerOf_sameTasks _ _ _ _ _ Ha) as Hsame.
  pose proof Hc as (Hidle & Hholds & Hnr & Hplace).
  destruct (tasks_follow w C t _ Ht) as [Hi|(p & Hp & Hrp)].
  - rewrite Hidle in Hi.
    apply (caller_idle_step mk place w w1 t now (k x) s tr st Hc C Hsame); auto.
    destruct Hsame as (_ & _ & _ & Hle). pose proof (task_ids w C t _ Ht). lia.
  - pose proof Hp as Hp'. rewrite Hholds in Hp'. destruct Hp' as [-> Hk].
    apply answerOf_await in Ha as (-> & r & Hs & ->).
    apply (caller_release_step mk place w t (mk (Await p) k) p r now (k x) s tr st Hc C); auto.
Qed.

Lemma step_consistent ev w w' :
  consistent w -> step h cfg ev w = Some w' -> consistent w' /\ countStep w w'.
Proof.
  intros C Hstep. destruct ev as [r now|t o now]; simpl in Hstep.
  - inversion Hstep; subst. now apply arrive_consistent.
  - unfold deliver in Hstep.
    destruct (tasks w !! t) as [[e k|e k|p e k]|] eqn:Ht; [| | |discriminate].
    + exact (caller_deliver TRequest placeRequest w t e k o now w' caller_request C Ht Hstep).
    + exact (caller_deliver TBackground placeBackground w t e k o now w'
               caller_background C Ht Hstep).
    + destruct (answerOf w e o) as [[a w1]|] eqn:Ha; [|discriminate].
      destruct (coerce e a) as [x|] eqn:Hx; [|discriminate].
      destruct (run (k x) now (shared w1)) as [[s tr] st] eqn:Hrun.
      inversion Hstep; subst; clear Hstep.
      pose proof (answerOf_sameTasks _ _ _ _ _ Ha) as Hsame.
      apply (refresh_step w w1 t p e k now (k x) s tr st C Hsame Ht); [|exact Hrun].
      destruct (tasks_follow w C t _ Ht) as [Hi|(q & Hq & _)]; [apply Hi | destruct Hq].
Qed.

End Steps.

Lemma consistent_initial kept : consistent (initial kept).
Proof.
  split; simpl; intros; try discriminate;
    match goal with
    | H : _ !! _ = Some _ |- _ => rewrite lookup_empty in H; discriminate H
    end.
Qed.

Lemma steps_consistent h cfg evs : forall w w',
  consistent w -> steps h cfg evs w = Some w' -> consistent w'.
Proof.
  induction evs as [|ev evs IH]; intros w w' C H; simpl in H.
  - now inversion H; subst.
  - destruct (step h cfg ev w) as [w1|] eqn:E; [|discriminate].
    apply (IH w1 w'); [|exact H]. exact (proj1 (step_consistent h cfg ev w w1 C E)).
Qed.

(** At most one element of a list without duplicate keys satisfies a test
    that two elements with different keys cannot both pass. *)
Lemma filter_at_most_one {K V : Type} (f : K * V -> bool) (l : list (K * V)) :
  NoDup (map fst l) ->
  (forall a b, In a l -> In b l -> f a = true -> f b = true -> fst a = fst b) ->
  (length (List.filter f l) <= 1)%nat.
Proof.
  induction l as [|a l IH]; intros Hnd Hu; simpl; [lia|].
  inversion Hnd as [|? ? Hnotin Hnd']; subst.
  destruct (f a) eqn:Fa.
  - simpl. assert (Hnil : List.filter f l = []).
    { destruct (List.filter f l) as [|b fl] eqn:E; [reflexivity|].
      assert (Hb : In b (List.filter f l)) by (rewrite E; now left).
      apply filter_In in Hb as [Hb Fb].
      destruct Hnotin. rewrite (Hu a b (or_introl eq_refl) (or_intror Hb) Fa Fb).
      apply list_elem_of_In. now apply in_map. }
    rewrite Hnil. simpl. lia.
  - apply IH; [exact Hnd'|]. intros x y Hx Hy. apply Hu; now right.
Qed.

Lemma inFlight_at_most_one w : consistent w -> (inFlight w <= 1)%nat.
Proof.
  intros C. unfold inFlight. apply filter_at_most_one.
  - apply (NoDup_fst_map_to_list (tasks w)).
  - intros [t1 x1] [t2 x2] H1 H2 F1 F2. simpl in *.
    apply list_elem_of_In, elem_of_map_to_list in H1.
    apply list_elem_of_In, elem_of_map_to_list in H2.
    exact (one_refresh w C t1 t2 x1 x2 H1 H2 F1 F2).
Qed.

Lemma inFlight_refresh w : (0 < inFlight w)%nat -> ~ noRefresh w.
Proof.
  unfold inFlight, noRefresh. intros Hlen Hno.
  destruct (List.filter _ _) as [|[t x] l] eqn:E; [simpl in Hlen; lia|].
  assert (Hin : In (t, x) (List.filter (fun it => isRefresh (snd it)) (map_to_list (tasks w))))
    by (rewrite E; now left).
  apply filter_In in Hin as [Hin F]. simpl in F.
  apply list_elem_of_In, elem_of_map_to_list in Hin.
  rewrite (Hno t x Hin) in F. discriminate.
Qed.

(* ===================================================================== *)
(** * Sequencing and the turns of a task *)
(* ===================================================================== *)

Lemma run_attempt {A B : Type} (P : prog A) (k : result A -> prog B) : forall now s,
  run (attempt P k) now s =
  let '(s1, tr1, st1) := run P now s in
  match st1 with
  | Done r => let '(s2, tr2, st2) := run (k r) now s1 in (s2, tr1 ++ tr2, st2)
  | Waiting e kk => (s1, tr1, Waiting e (fun x => attempt (kk x) k))
  end.
Proof.
  revert B k.
  induction P as [A a|A e|A f IH|A f IH|A v f IH|A f IH|A p f IH|A body IHb f IH|A e f IH];
    intros B k now s; simpl.
  - destruct (run (k (Ok a)) now s) as [[s2 tr2] st2]. reflexivity.
  - destruct (run (k (Err e)) now s) as [[s2 tr2] st2]. reflexivity.
  - apply IH.
  - apply IH.
  - rewrite IH. destruct (run f now (withCache v s)) as [[s1 tr1] [r|e kk]]; [|reflexivity].
    destruct (run (k r) now s1) as [[s2 tr2] st2]. reflexivity.
  - apply IH.
  - rewrite IH. destruct (run f now (withRefreshPromise p s)) as [[s1 tr1] [r|e kk]]; [|reflexivity].
    destruct (run (k r) now s1) as [[s2 tr2] st2]. reflexivity.
  - destruct (run body now s) as [[s1 tr1] st1]. rewrite IH.
    destruct (run (f (promiseCount s1)) now (withPromiseCount (S (promiseCount s1)) s1))
      as [[s2 tr2] [r|e kk]]; [|reflexivity].
    destruct (run (k r) now s2) as [[s3 tr3] st3].
    rewrite <- app_assoc. reflexivity.
  - reflexivity.
Qed.

Lemma follow_done {A : Type} (r : result A) s turns s' tr st :
  follow (Done r) s turns = Some (s', tr, st) ->
  turns = [] /\ s' = s /\ tr = [] /\ st = Done r.
Proof. destruct turns; simpl; [intros [= <- <- <-]; auto | discriminate]. Qed.

Lemma follow_attempt {A B : Type} (k : result A -> prog B) turns2 :
  forall turns1 now0 e kk s s1 tr1 r,
  follow (Waiting e kk) s turns1 = Some (s1, tr1, Done r) ->
  follow (Waiting e (fun x => attempt (kk x) k)) s (turns1 ++ turns2) =
  match play (k r) (lastTime now0 turns1) s1 turns2 with
  | Some (s2, tr2, st2) => Some (s2, tr1 ++ tr2, st2)
  | None => None
  end.
Proof.
  induction turns1 as [|t rest IH]; intros now0 e kk s s1 tr1 r H; [discriminate|].
  simpl in H |- *.
  destruct (coerce e (given t)) as [x|]; [|discriminate].
  rewrite run_attempt.
  destruct (run (kk x) (at_ t) (found t)) as [[s' tr] st'].
  destruct (follow st' s' rest) as [[[s'' tr'] st'']|] eqn:F; [|discriminate].
  injection H as Hs Htr Hst. subst s1 tr1 st''.
  destruct st' as [r'|e' kk'].
  - apply follow_done in F as (-> & -> & -> & [= <-]). simpl. unfold play.
    destruct (run (k r) (at_ t) s') as [[s2 tr2] st2].
    destruct (follow st2 s2 turns2) as [[[s3 tr3] st3]|]; [|reflexivity].
    rewrite !app_nil_r, <- !app_assoc. reflexivity.
  - rewrite (IH (at_ t) e' kk' s' s'' tr' r F). simpl.
    destruct (play (k r) (lastTime (at_ t) rest) s'' turns2) as [[[s3 tr3] st3]|];
      [|reflexivity].
    rewrite <- !app_assoc. reflexivity.
Qed.

(** A program that ends, followed by what is done with its outcome. *)
Lemma play_attempt {A B : Type} (P : prog A) (k : result A -> prog B) now s turns1 turns2 s1 tr1 r :
  play P now s turns1 = Some (s1, tr1, Done r) ->
  play (attempt P k) now s (turns1 ++ turns2) =
  match play (k r) (lastTime now turns1) s1 turns2 with
  | Some (s2, tr2, st2) => Some (s2, tr1 ++ tr2, st2)
  | None => None
  end.
Proof.
  unfold play at 1 2. rewrite run_attempt.
  destruct (run P now s) as [[s0 tr0] st0].
  destruct (follow st0 s0 turns1) as [[[s' tr'] st']|] eqn:F; [|discriminate].
  intros H. injection H as Hs Htr Hst. subst s1 tr1 st'. destruct st0 as [r0|e kk].
  - apply follow_done in F as (-> & -> & -> & [= <-]). simpl. unfold play.
    destruct (run (k r) now s0) as [[s2 tr2] st2].
    destruct (follow st2 s2 turns2) as [[[s3 tr3] st3]|]; [|reflexivity].
    rewrite !app_nil_r, <- !app_assoc. reflexivity.
  - rewrite (follow_attempt k turns2 turns1 now e kk s0 s' tr' r F).
    destruct (play (k r) (lastTime now turns1) s' turns2) as [[[s3 tr3] st3]|];
      [|reflexivity].
    rewrite <- !app_assoc. reflexivity.
Qed.

(* ===================================================================== *)
(** * Which outcomes follow a change of the store *)
(* ===================================================================== *)

Lemma writes_app tr1 tr2 : writes (tr1 ++ tr2) = writes tr1 ++ writes tr2.
Proof.
  induction tr1 as [|a tr1 IH]; [reflexivity|].
  destruct a; simpl; rewrite IH; reflexivity.
Qed.

Lemma wrote_app tr1 tr2 : wrote (tr1 ++ tr2) = wrote tr1 || wrote tr2.
Proof.
  unfold wrote. rewrite writes_app. destruct (writes tr1); reflexivity.
Qed.

Lemma written_run {A : Type} (G : result A -> Prop) b (P : prog A) :
  written G b P ->
  forall now s s' tr st, run P now s = (s', tr, st) -> writtenP G (b || wrote tr) st.
Proof.
  induction 1 as [b a Ha|b e He|b k Hk IH|b k Hk IH|b v k Hk IH|b k Hk IH
                 |b p k Hk IH|b body k Hb Hk IH|b e k Hk IH];
    intros now s s' tr st Hrun; simpl in Hrun.
  - inversion Hrun; subst. simpl. now rewrite orb_false_r.
  - inversion Hrun; subst. simpl. now rewrite orb_false_r.
  - eapply IH; eauto.
  - eapply IH; eauto.
  - destruct (run k now (withCache v s)) as [[s1 tr1] st1] eqn:E.
    inversion Hrun; subst. apply IH in E. simpl in E.
    unfold wrote. simpl. now rewrite orb_true_r.
  - eapply IH; eauto.
  - destruct (run k now (withRefreshPromise p s)) as [[s1 tr1] st1] eqn:E.
    inversion Hrun; subst. apply IH in E. exact E.
  - destruct (run body now s) as [[s1 tr1] st1] eqn:E1.
    destruct (run (k (promiseCount s1)) now (withPromiseCount (S (promiseCount s1)) s1))
      as [[s2 tr2] st2] eqn:E2.
    inversion Hrun; subst. apply IH in E2.
    pose proof (Hb now s) as Hw. rewrite E1 in Hw. simpl in Hw.
    replace (wrote (tr1 ++ Called (promiseCount s1) st1 :: tr2)) with (wrote tr2); [exact E2|].
    unfold wrote. rewrite writes_app, Hw. reflexivity.
  - inversion Hrun; subst. simpl. intros x.
    replace (b || wrote [Asked e]) with b by (unfold wrote; simpl; now rewrite orb_false_r).
    apply Hk.
Qed.

Lemma acknowledged_storedBy e a x :
  coerce e a = Some x -> wrote (acknowledged e a) = storedBy e x.
Proof.
  destruct e, a; simpl; try discriminate; try (intros [= <-]; reflexivity).
  - destruct (Nat.eqb _ _); [intros [= <-]; reflexivity | discriminate].
  - intros [= <-]. destruct r; reflexivity.
Qed.

Lemma written_follow {A : Type} (G : result A -> Prop) turns :
  forall b (st : progress A) s s' tr st',
  writtenP G b st -> follow st s turns = Some (s', tr, st') ->
  writtenP G (b || wrote tr) st'.
Proof.
  induction turns as [|t rest IH]; intros b st s s' tr st' Hw H; simpl in H.
  - inversion H; subst. now rewrite orb_false_r.
  - destruct st as [r|e k]; [discriminate|]. simpl in H.
    destruct (coerce e (given t)) as [x|] eqn:Hx; [|discriminate].
    destruct (run (k x) (at_ t) (found t)) as [[s1 tr1] st1] eqn:E.
    destruct (follow st1 s1 rest) as [[[s2 tr2] st2]|] eqn:F; [|discriminate].
    inversion H; subst; clear H.
    pose proof (written_run G _ _ (Hw x) _ _ _ _ _ E) as H1.
    pose proof (IH _ _ _ _ _ _ H1 F) as H2.
    rewrite !wrote_app, (acknowledged_storedBy _ _ _ Hx).
    rewrite !orb_assoc. exact H2.
Qed.

(** A task whose program is [written G]: if it has changed the store by the
    time it ends, its outcome satisfies [G]. *)
Lemma written_play {A : Type} (G : result A -> Prop) (P : prog A) now s turns s' tr r :
  written G false P ->
  play P now s turns = Some (s', tr, Done r) ->
  writes tr <> [] -> G r.
Proof.
  intros HP Hplay Hw. unfold play in Hplay.
  destruct (run P now s) as [[s1 tr1] st1] eqn:E.
  destruct (follow st1 s1 turns) as [[[s2 tr2] st2]|] eqn:F; [|discriminate].
  inversion Hplay; subst; clear Hplay.
  pose proof (written_run G _ _ HP _ _ _ _ _ E) as H1.
  pose proof (written_follow G _ _ _ _ _ _ _ H1 F) as H2. simpl in H2.
  apply H2. rewrite <- wrote_app. unfold wrote.
  destruct (writes (tr1 ++ tr2)); [contradiction | reflexivity].
Qed.

(** Composition. *)
Lemma written_weaken {A : Type} (G G' : result A -> Prop) b (P : prog A) :
  (forall r, G r -> G' r) -> written G b P -> written G' b P.
Proof. intros HG. induction 1; constructor; auto. Qed.

Lemma written_attempt {A B : Type} (G1 : result A -> Prop) (G : result B -> Prop) b
    (P : prog A) (k : result A -> prog B) :
  written G1 b P ->
  (forall r b', (b' = true -> G1 r) -> written G b' (k r)) ->
  written G b (attempt P k).
Proof.
  intros HP Hk. induction HP; simpl; try (constructor; auto; fail); auto.
Qed.

(** Programs without any write. *)
Lemma quiet_readonly_attempt {A B : Type} (G : result B -> Prop) (P : prog A) (k : result A -> prog B) :
  written (fun _ => False) false P ->
  (forall r, written G false (k r)) ->
  written G false (attempt P k).
Proof.
  intros HP Hk. apply (written_attempt (fun _ => False) G false P k HP).
  intros r [|] Hr; [destruct (Hr eq_refl) | apply Hk].
Qed.

Lemma written_lift {A : Type} (G : result A -> Prop) (r : result A) : written G false (lift r).
Proof. destruct r; constructor; discriminate. Qed.

Lemma readonly_attempt {A B : Type} (G : result B -> Prop) (P : prog A) (k : result A -> prog B) :
  readonly P -> (forall r, written G false (k r)) -> written G false (attempt P k).
Proof.
  intros HP Hk. apply (written_attempt (fun _ => False) G false P k HP).
  intros r [|] Hr; [destruct (Hr eq_refl) | apply Hk].
Qed.

Lemma readonly_bind {A B : Type} (G : result B -> Prop) (P : prog A) (f : A -> prog B) :
  readonly P -> (forall a, written G false (f a)) -> written G false (bind P f).
Proof.
  intros HP Hf. apply readonly_attempt; [exact HP|].
  intros [a|e]; [apply Hf | constructor; discriminate].
Qed.

Lemma written_awaitCall {A : Type} (G : result A -> Prop) b (P : prog A) :
  written G b P -> written G b (awaitCall P).
Proof.
  intros HP. apply (written_attempt G G b P _ HP).
  intros r b' Hr. constructor. intros x. simpl. rewrite orb_false_r.
  destruct r; constructor; exact Hr.
Qed.

Lemma always_play {A : Type} (G : result A -> Prop) (P : prog A) now s turns s' tr r :
  always G P -> play P now s turns = Some (s', tr, Done r) -> G r.
Proof.
  intros HP Hplay. unfold play in Hplay.
  destruct (run P now s) as [[s1 tr1] st1] eqn:E.
  destruct (follow st1 s1 turns) as [[[s2 tr2] st2]|] eqn:F; [|discriminate].
  inversion Hplay; subst; clear Hplay.
  pose proof (written_run G _ _ HP _ _ _ _ _ E) as H1.
  pose proof (written_follow G _ _ _ _ _ _ _ H1 F) as H2. simpl in H2.
  now apply H2.
Qed.

Lemma written_any {A : Type} (G : result A -> Prop) (P : prog A) :
  always G P -> forall b, written G b P.
Proof.
  unfold always. intros HP. remember true as c eqn:Hc.
  induction HP as [c a Ha|c e He|c k Hk IH|c k Hk IH|c v k Hk IH|c k Hk IH
                  |c p k Hk IH|c body k Hb Hk IH|c e k Hk IH]; intros b; subst c;
    constructor; auto.
Qed.

Lemma always_attempt {A B : Type} (G : result B -> Prop) (P : prog A) (k : result A -> prog B) :
  always (fun _ => True) P -> (forall r, always G (k r)) -> always G (attempt P k).
Proof.
  intros HP Hk. apply (written_attempt (fun _ => True) G true P k HP).
  intros r b' _. apply written_any, Hk.
Qed.

Lemma always_quiet {A : Type} (P : prog A) : quiet P -> always (fun _ => True) P.
Proof. unfold always. induction 1; constructor; auto. Qed.

Create HintDb readonly.
#[local] Hint Resolve written_lift written_awaitCall : readonly.

(** Takes a goal [written G false P] apart along the shape of [P], for a
    program without writes. *)
Ltac readonly_step :=
  match goal with
  | |- forall _, _ => intro
  | |- written _ (_ || storedBy _ _) _ => cbn [orb storedBy]
  | |- readonly _ => unfold readonly
  | |- written _ false (bind _ _) => apply readonly_bind
  | |- written _ false (attempt _ _) => apply readonly_attempt
  | |- written _ _ (awaitCall _) => apply written_awaitCall
  | |- written _ false (lift _) => apply written_lift
  | |- written _ _ (match ?x with _ => _ end) => destruct x
  | |- written _ _ (if ?b then _ else _) => destruct b
  | |- written _ false (Ret _) => constructor; discriminate
  | |- written _ false (Throw _) => constructor; discriminate
  | |- written _ _ (Io (RedisSet _ _) _) => fail 1
  | |- written _ _ _ => solve [auto with readonly]
  | |- written _ _ _ => constructor
  end.

Section Writes.

Context (h : host) (cfg : config).

Lemma readonly_afterFetch r : readonly (afterFetch r).
Proof. unfold afterFetch. repeat readonly_step. Qed.

Lemma readonly_githubRequest pathname : readonly (githubRequest cfg pathname).
Proof. unfold githubRequest. constructor. intros x. apply readonly_afterFetch. Qed.

Lemma readonly_pagesLoop username rangeStart left : forall page m,
  readonly (pagesLoop h cfg username rangeStart left page m).
Proof.
  induction left as [|left IH]; intros page m; simpl; [constructor; discriminate|].
  apply readonly_bind; [apply written_awaitCall, readonly_githubRequest|].
  intros events. repeat readonly_step; apply IH.
Qed.

Lemma readonly_fetchCommitHistory username days :
  readonly (fetchCommitHistory h cfg username days).
Proof.
  unfold fetchCommitHistory. constructor. intros now.
  destruct (buildEmptyCommitHistory now days); [constructor; discriminate|].
  apply readonly_bind; [apply readonly_pagesLoop | intros; constructor; discriminate].
Qed.

Lemma readonly_fetchFreshPayload : readonly (fetchFreshPayload h cfg).
Proof.
  unfold fetchFreshPayload. constructor. intros rs. cbn [orb storedBy].
  destruct rs as [|r1 [|r2 [|r3 [|r4 rs]]]]; try (constructor; discriminate).
  apply readonly_bind; [apply readonly_afterFetch | intros userResponse].
  apply readonly_bind; [apply readonly_afterFetch | intros reposResponse].
  apply readonly_bind; [apply readonly_afterFetch | intros readmeResponse].
  destruct reposResponse; try (constructor; discriminate).
  apply readonly_bind; [apply written_lift | intros encoding].
  destruct encoding; try (constructor; discriminate).
  destruct (Js.getOpt readmeResponse "content"); try (constructor; discriminate).
  destruct (String.eqb _ _); [|constructor; discriminate].
  constructor. intros now0.
  apply readonly_attempt; [apply written_awaitCall, readonly_fetchCommitHistory|].
  intros fetched. repeat readonly_step.
Qed.

(** [writeCachedPayload] changes the store only on the way to its normal
    end. *)
Lemma written_writeCachedPayload payload :
  written (fun r => exists u, r = Ok u) false (writeCachedPayload cfg payload).
Proof.
  unfold writeCachedPayload, bind. destruct (redisClient cfg); simpl.
  - destruct (JSON_stringify payload); simpl; [|constructor; discriminate].
    constructor. intros [u|e]; simpl.
    + constructor. constructor. intros _. eauto.
    + constructor. discriminate.
  - constructor. constructor. intros _. eauto.
Qed.

Lemma readonly_loadRepoSnapshot : readonly loadRepoSnapshot.
Proof. unfold loadRepoSnapshot. repeat readonly_step. Qed.

Lemma written_refreshBody :
  written (fun r => exists payload, r = Ok payload) false (refreshBody h cfg).
Proof.
  unfold refreshBody.
  apply readonly_bind; [apply written_awaitCall, readonly_fetchFreshPayload | intros payload].
  apply (written_attempt (fun r => exists u, r = Ok u) _ false).
  - apply written_awaitCall, written_writeCachedPayload.
  - intros [u|e] b' Hr; constructor; [eauto|].
    intros ->. destruct (Hr eq_refl) as [u Hu]. discriminate.
Qed.

Lemma refreshBody_starts now s :
  writes (snd (fst (run (refreshBody h cfg) now s))) = [].
Proof. reflexivity. Qed.

Lemma readonly_refreshCache : readonly (refreshCache h cfg).
Proof.
  unfold refreshCache. constructor. intros [p|].
  - unfold awaitPromise. constructor. intros r. apply written_lift.
  - constructor; [apply refreshBody_starts|]. intros p. constructor.
    unfold tryFinally, awaitPromise. simpl. constructor. intros r. simpl.
    destruct r; simpl; constructor; constructor; discriminate.
Qed.

Lemma written_getAfterFailure cached : written isFallback false (getAfterFailure h cfg cached).
Proof.
  unfold getAfterFailure. destruct (Js.truthy cached); [constructor; discriminate|].
  apply readonly_bind; [apply written_awaitCall, readonly_loadRepoSnapshot | intros snapshot].
  constructor. intros now.
  apply readonly_bind; [apply written_lift | intros [payload|]];
    [|constructor; discriminate].
  apply (written_attempt (fun r => exists u, r = Ok u) _ false).
  - apply written_awaitCall, written_writeCachedPayload.
  - intros [u|e] b' Hr; constructor; [intros _; exists payload; reflexivity|].
    intros ->. destruct (Hr eq_refl) as [u Hu]. discriminate.
Qed.

Lemma written_getAfterRead cached : written isFallback false (getAfterRead h cfg cached).
Proof.
  unfold getAfterRead. constructor. intros now.
  destruct (_ && _); [constructor; discriminate|].
  apply readonly_attempt; [apply written_awaitCall, readonly_refreshCache|].
  intros [fresh|e]; [constructor; discriminate | apply written_getAfterFailure].
Qed.

Lemma readonly_readCachedPayload : readonly (readCachedPayload cfg).
Proof. unfold readCachedPayload. repeat readonly_step. Qed.

Lemma written_getDashboard : written isFallback false (getDashboard h cfg).
Proof.
  unfold getDashboard.
  apply readonly_bind; [apply written_awaitCall, readonly_readCachedPayload|].
  apply written_getAfterRead.
Qed.

Lemma readonly_postRefresh token : readonly (postRefresh h cfg token).
Proof.
  unfold postRefresh. destruct (_ && _); [constructor; discriminate|].
  apply readonly_attempt; [apply written_awaitCall, readonly_refreshCache|].
  intros [payload|e]; constructor; discriminate.
Qed.

Lemma readonly_scheduledRefresh : readonly (scheduledRefresh h cfg).
Proof.
  unfold scheduledRefresh. apply readonly_attempt; [apply readonly_refreshCache|].
  intros r. constructor. discriminate.
Qed.

End Writes.

(* ===================================================================== *)
(** * A change of the store has its owner *)
(* ===================================================================== *)

Lemma run_unwritten {A : Type} (P : prog A) : forall now s s' tr st,
  run P now s = (s', tr, st) -> wrote tr = false -> inMemoryCache s' = inMemoryCache s.
Proof.
  induction P as [A a|A e|A k IH|A k IH|A v k IH|A k IH|A p k IH|A body IHb k IH|A e k IH];
    intros now s s' tr st Hrun Hw; simpl in Hrun.
  - now injection Hrun as <- <- <-.
  - now injection Hrun as <- <- <-.
  - eapply IH; eauto.
  - eapply IH; eauto.
  - destruct (run k now (withCache v s)) as [[s1 tr1] st1].
    injection Hrun as <- <- <-. discriminate Hw.
  - eapply IH; eauto.
  - destruct (run k now (withRefreshPromise p s)) as [[s1 tr1] st1] eqn:E.
    injection Hrun as <- <- <-. exact (IH _ _ _ _ _ E Hw).
  - destruct (run body now s) as [[s1 tr1] st1] eqn:E1.
    destruct (run (k (promiseCount s1)) now (withPromiseCount (S (promiseCount s1)) s1))
      as [[s2 tr2] st2] eqn:E2.
    injection Hrun as <- <- <-.
    rewrite wrote_app in Hw. apply orb_false_iff in Hw as [Hw1 Hw2].
    rewrite (IH _ _ _ _ _ _ E2 Hw2). simpl. exact (IHb _ _ _ _ _ E1 Hw1).
  - now injection Hrun as <- <- <-.
Qed.

Section Owners.

Context (h : host) (cfg : config).

Lemma refreshOnly_attempt {A B : Type} (P : prog A) (k : result A -> prog B) :
  refreshOnly h cfg P -> (forall r, refreshOnly h cfg (k r)) -> refreshOnly h cfg (attempt P k).
Proof. intros HP Hk. induction HP; simpl; try (constructor; auto; fail); auto. Qed.

Lemma refreshOnly_lift {A : Type} (r : result A) : refreshOnly h cfg (lift r).
Proof. destruct r; constructor. Qed.

Lemma refreshOnly_bind {A B : Type} (P : prog A) (f : A -> prog B) :
  refreshOnly h cfg P -> (forall a, refreshOnly h cfg (f a)) -> refreshOnly h cfg (bind P f).
Proof.
  intros HP Hf. apply refreshOnly_attempt; [exact HP|]. intros [a|e]; [apply Hf|constructor].
Qed.

Lemma refreshOnly_awaitCall {A : Type} (P : prog A) :
  refreshOnly h cfg P -> refreshOnly h cfg (awaitCall P).
Proof.
  intros HP. apply refreshOnly_attempt; [exact HP|].
  intros r. constructor. intros _. apply refreshOnly_lift.
Qed.

Lemma quiet_refreshOnly {A : Type} (P : prog A) : quiet P -> refreshOnly h cfg P.
Proof. induction 1; constructor; auto. Qed.

Lemma refreshOnly_refreshCache : refreshOnly h cfg (refreshCache h cfg).
Proof.
  unfold refreshCache. constructor. intros [p|].
  - unfold awaitPromise. constructor. intros r. apply refreshOnly_lift.
  - constructor. intros p. constructor.
    unfold tryFinally, awaitPromise. simpl. constructor. intros r. simpl.
    destruct r; simpl; constructor; constructor.
Qed.

Lemma refreshOnly_getDashboard : refreshOnly h cfg (getDashboard h cfg).
Proof.
  unfold getDashboard.
  apply refreshOnly_bind;
    [apply refreshOnly_awaitCall, quiet_refreshOnly, quiet_readCachedPayload|intros cached].
  unfold getAfterRead. constructor. intros now.
  destruct (_ && _); [constructor|].
  apply refreshOnly_attempt; [apply refreshOnly_awaitCall, refreshOnly_refreshCache|].
  intros [fresh|e]; [constructor|apply quiet_refreshOnly, quiet_getAfterFailure].
Qed.

Lemma refreshOnly_postRefresh token : refreshOnly h cfg (postRefresh h cfg token).
Proof.
  unfold postRefresh. destruct (_ && _); [constructor|].
  apply refreshOnly_attempt; [apply refreshOnly_awaitCall, refreshOnly_refreshCache|].
  intros [payload|e]; constructor.
Qed.

Lemma refreshOnly_scheduledRefresh : refreshOnly h cfg (scheduledRefresh h cfg).
Proof.
  unfold scheduledRefresh. apply refreshOnly_attempt; [apply refreshOnly_refreshCache|].
  intros r. constructor.
Qed.

(** The body of a refresh suspends before it changes anything. *)
Lemma refreshBody_task now s :
  exists e k, snd (run (refreshBody h cfg) now s) = Waiting e k
    /\ taskWrites h cfg false (TRefresh 0%nat e k).
Proof.
  destruct (run (refreshBody h cfg) now s) as [[s1 tr1] st1] eqn:E.
  pose proof (written_run _ _ _ (written_refreshBody h cfg) _ _ _ _ _ E) as Hw.
  pose proof (refreshBody_starts h cfg now s) as Hs. rewrite E in Hs. simpl in Hs.
  unfold wrote in Hw. rewrite Hs in Hw. simpl in Hw.
  destruct (run_quiet _ (quiet_refreshBody h cfg) _ _ _ _ _ E) as (_ & _ & _ & Hq).
  destruct st1 as [r|e k]; [discriminate E|].
  exists e, k. split; [reflexivity|]. split; [exact Hw|exact Hq].
Qed.

Lemma refreshOnly_run {A : Type} (P : prog A) :
  refreshOnly h cfg P ->
  forall now s s' tr st, run P now s = (s', tr, st) ->
  refreshOnlyP h cfg st
  /\ Forall (fun c => exists e k, snd c = Waiting e k
                        /\ taskWrites h cfg false (TRefresh (fst c) e k)) (calls tr).
Proof.
  induction 1 as [a|e|k Hk IH|k Hk IH|v k Hk IH|k Hk IH|p k Hk IH|k Hk IH|e k Hk];
    intros now s s' tr st Hrun; cbn [run] in Hrun.
  - injection Hrun as <- <- <-. split; [exact I|constructor].
  - injection Hrun as <- <- <-. split; [exact I|constructor].
  - eapply IH; eauto.
  - eapply IH; eauto.
  - destruct (run k now (withCache v s)) as [[s1 tr1] st1] eqn:E.
    injection Hrun as <- <- <-. exact (IH _ _ _ _ _ E).
  - eapply IH; eauto.
  - destruct (run k now (withRefreshPromise p s)) as [[s1 tr1] st1] eqn:E.
    injection Hrun as <- <- <-. exact (IH _ _ _ _ _ E).
  - destruct (run (refreshBody h cfg) now s) as [[s1 tr1] st1] eqn:E1.
    destruct (run (k (promiseCount s1)) now (withPromiseCount (S (promiseCount s1)) s1))
      as [[s2 tr2] st2] eqn:E2.
    injection Hrun as <- <- <-.
    destruct (IH _ _ _ _ _ _ E2) as [H1 H2]. split; [exact H1|].
    destruct (run_quiet _ (quiet_refreshBody h cfg) _ _ _ _ _ E1) as (_ & _ & Hc & _).
    rewrite calls_app, Hc. simpl. constructor; [|exact H2].
    destruct (refreshBody_task now s) as (e & k' & He & Ht). rewrite E1 in He. simpl in He.
    exists e, k'. split; [exact He|exact Ht].
  - injection Hrun as <- <- <-. split; [exact Hk|constructor].
Qed.

Context (w0 : world).

Local Abbreviation owned := (owned h cfg w0).
Local Abbreviation accounted := (accounted h cfg w0).

Lemma accounted_start : tasks w0 = ∅ -> accounted None false w0.
Proof.
  intros H0. constructor.
  - intros t x F. rewrite H0, lookup_empty in F. discriminate.
  - intros t x F. rewrite H0, lookup_empty in F. discriminate.
  - discriminate.
  - auto.
  - exists []. now rewrite app_nil_r.
  - left. split; reflexivity.
Qed.

(** Between two worlds with the same tasks, promises and replies. *)
Lemma owned_carry t d d' w w' :
  owned t d w -> tasks w' = tasks w -> settled w' = settled w -> replies w' = replies w ->
  (d' = false ->
   d = false /\ redis w' = redis w /\ inMemoryCache (shared w') = inMemoryCache (shared w)) ->
  owned t d' w'.
Proof.
  intros Ho Ht Hs Hr Hd. destruct d'; [right; left; reflexivity|].
  destruct (Hd eq_refl) as (-> & Hredis & Hcache).
  destruct Ho as [[H1 H2]|[F|[H|[H|H]]]].
  - left. now rewrite Hredis, Hcache.
  - discriminate F.
  - right. right. left. now rewrite Ht.
  - right. right. right. left. now rewrite Hs.
  - right. right. right. right. now rewrite Hr.
Qed.

Lemma accounted_carry t d d' w w' :
  accounted t d w -> tasks w' = tasks w -> taskCount w' = taskCount w ->
  settled w' = settled w -> replies w' = replies w ->
  (d' = false ->
   d = false /\ redis w' = redis w /\ inMemoryCache (shared w') = inMemoryCache (shared w)) ->
  accounted t d' w'.
Proof.
  intros [H1 H2 H3 Hsg Hrg H4] Ht Hc Hs Hr Hd. constructor.
  - rewrite Ht. exact H1.
  - rewrite Ht, Hc. exact H2.
  - rewrite Hc. exact H3.
  - rewrite Hs. exact Hsg.
  - rewrite Hr. exact Hrg.
  - exact (owned_carry _ _ _ _ _ H4 Ht Hs Hr Hd).
Qed.

(** The task that is about to run answers for what it has done. *)
Lemma accounted_pick w t x :
  accounted None false w -> tasks w !! t = Some x ->
  exists b, taskWrites h cfg b x /\ accounted (Some t) b w.
Proof.
  intros [H1 H2 H3 Hsg Hrg H4] Ht.
  assert (Hb : exists b, taskWrites h cfg b x) by (apply (H1 t x Ht); discriminate).
  assert (Hrest : forall b, owned (Some t) b w -> accounted (Some t) b w).
  { intros b Ho.
    constructor; [| |intros t0 [= <-]; exact (H2 _ _ Ht)|exact Hsg|exact Hrg|exact Ho].
    - intros t0 x0 Hx0 _. apply (H1 t0 x0 Hx0). discriminate.
    - exact H2. }
  destruct H4 as [Hs|[F|[(t0 & x0 & _ & Hx0 & Hw0)|[Hs|Hr]]]].
  - destruct Hb as [b Hb]. exists b. split; [exact Hb|]. apply Hrest. left. exact Hs.
  - discriminate F.
  - destruct (decide (t0 = t)) as [->|Hne].
    + rewrite Ht in Hx0. injection Hx0 as <-. exists true. split; [exact Hw0|].
      apply Hrest. right. left. reflexivity.
    + destruct Hb as [b Hb]. exists b. split; [exact Hb|]. apply Hrest.
      right. right. left. exists t0, x0. split; [congruence|]. split; assumption.
  - destruct Hb as [b Hb]. exists b. split; [exact Hb|]. apply Hrest.
    right. right. right. left. exact Hs.
  - destruct Hb as [b Hb]. exists b. split; [exact Hb|]. apply Hrest.
    right. right. right. right. exact Hr.
Qed.

(** A request that arrives gets the next task number. *)
Lemma accounted_next w :
  accounted None false w ->
  accounted (Some (taskCount w)) false (withTaskCount (S (taskCount w)) w).
Proof.
  intros [H1 H2 H3 Hsg Hrg H4]. constructor; simpl.
  - intros t x Hx _. apply (H1 t x Hx). discriminate.
  - intros t x Hx. pose proof (H2 t x Hx). lia.
  - intros t [= <-]. lia.
  - exact Hsg.
  - exact Hrg.
  - destruct H4 as [Hs|[F|[(t0 & x0 & _ & Hx0 & Hw0)|[Hs|Hr]]]].
    + left. exact Hs.
    + discriminate F.
    + right. right. left. exists t0, x0. split; [|split; assumption].
      pose proof (H2 t0 x0 Hx0). intros [= ->]. lia.
    + right. right. right. left. exact Hs.
    + right. right. right. right. exact Hr.
Qed.

Lemma accounted_answerOf t d w e o a w1 x :
  accounted (Some t) d w -> answerOf w e o = Some (a, w1) -> coerce e a = Some x ->
  accounted (Some t) (d || storedBy e x) w1 /\ settled w1 = settled w.
Proof.
  intros Hw Ha Hx.
  destruct e as [url auth|urls auth|key|key raw|path|p|]; destruct o as [r|rs|r| |];
    simpl in Ha; try discriminate;
    try (injection Ha as <- <-; simpl; rewrite orb_false_r; split; [exact Hw|reflexivity]).
  - injection Ha as <- <-. simpl in Hx. injection Hx as <-. simpl. split; [|reflexivity].
    rewrite orb_true_r. apply (accounted_carry _ _ _ _ _ Hw); try reflexivity. discriminate.
  - injection Ha as <- <-. simpl in Hx. injection Hx as <-. simpl. rewrite orb_false_r.
    split; [exact Hw|reflexivity].
  - destruct (settled w !! p) as [r|] eqn:Hp; [|discriminate].
    injection Ha as <- <-. simpl. rewrite orb_false_r. split; [exact Hw|reflexivity].
Qed.

Lemma accounted_run {A : Type} (P : prog A) t d w now s tr st :
  accounted (Some t) d w -> run P now (shared w) = (s, tr, st) ->
  accounted (Some t) (d || wrote tr) (withShared s w).
Proof.
  intros Hw Hrun. apply (accounted_carry _ _ _ _ _ Hw); try reflexivity.
  intros Hd. apply orb_false_iff in Hd as [-> Hd]. repeat split.
  simpl. exact (run_unwritten _ _ _ _ _ _ Hrun Hd).
Qed.

Lemma accounted_adopt t d cs : forall w,
  Forall (fun c => exists e k, snd c = Waiting e k
                     /\ taskWrites h cfg false (TRefresh (fst c) e k)) cs ->
  accounted (Some t) d w ->
  accounted (Some t) d (adopt cs w) /\ settled (adopt cs w) = settled w.
Proof.
  induction cs as [|[p st] cs IH]; intros w Hcs Hw; [split; [exact Hw|reflexivity]|].
  inversion Hcs as [|? ? (e & k & He & Hk) Hrest]; subst. simpl in He, Hk. subst st.
  cbn [adopt].
  match goal with |- context [adopt cs ?w2] => destruct (IH w2 Hrest) as [I1 I2] end;
    [|split; [exact I1|exact I2]].
  destruct Hw as [H1 H2 H3 Hsg Hrg H4]. constructor; simpl.
  - intros t0 x0 Hx0 Hne. destruct (decide (taskCount w = t0)) as [<-|Hn].
    + rewrite lookup_insert_eq in Hx0. injection Hx0 as <-. exists false. exact Hk.
    + rewrite lookup_insert_ne in Hx0 by exact Hn. exact (H1 _ _ Hx0 Hne).
  - intros t0 x0 Hx0. destruct (decide (taskCount w = t0)) as [<-|Hn]; [lia|].
    rewrite lookup_insert_ne in Hx0 by exact Hn. pose proof (H2 _ _ Hx0). lia.
  - intros t0 Ht0. pose proof (H3 _ Ht0). lia.
  - exact Hsg.
  - exact Hrg.
  - destruct H4 as [Hs|[F|[(t0 & x0 & Hne & Hx0 & Hw0)|[Hs|Hr]]]].
    + left. exact Hs.
    + right. left. exact F.
    + right. right. left. exists t0, x0. split; [exact Hne|]. split; [|exact Hw0].
      simpl. rewrite lookup_insert_ne; [exact Hx0|]. pose proof (H2 _ _ Hx0). lia.
    + right. right. right. left. exact Hs.
    + right. right. right. right. exact Hr.
Qed.

(** The task that ran is put back, or taken off with its outcome. *)
Lemma accounted_suspend t d w x :
  accounted (Some t) d w -> taskWrites h cfg d x ->
  accounted None false (withTasks (<[t := x]> (tasks w)) w).
Proof.
  intros [H1 H2 H3 Hsg Hrg H4] Hx. constructor; simpl.
  - intros t0 x0 Hx0 _. destruct (decide (t = t0)) as [<-|Hn].
    + rewrite lookup_insert_eq in Hx0. injection Hx0 as <-. exists d. exact Hx.
    + rewrite lookup_insert_ne in Hx0 by exact Hn. apply (H1 _ _ Hx0). congruence.
  - intros t0 x0 Hx0. destruct (decide (t = t0)) as [<-|Hn]; [exact (H3 _ eq_refl)|].
    rewrite lookup_insert_ne in Hx0 by exact Hn. exact (H2 _ _ Hx0).
  - discriminate.
  - exact Hsg.
  - exact Hrg.
  - destruct H4 as [Hs|[->|[(t0 & x0 & Hne & Hx0 & Hw0)|[Hs|Hr]]]].
    + left. exact Hs.
    + right. right. left. exists t, x. split; [discriminate|].
      split; [apply lookup_insert_eq|exact Hx].
    + right. right. left. exists t0, x0. split; [discriminate|]. split; [|exact Hw0].
      simpl. rewrite lookup_insert_ne; [exact Hx0|]. congruence.
    + right. right. right. left. exact Hs.
    + right. right. right. right. exact Hr.
Qed.

(** A task that ends leaves no change of its own, or one of the two
    traces. *)
Lemma accounted_finish t d w w' extra :
  accounted (Some t) d w ->
  tasks w' = delete t (tasks w) -> taskCount w' = taskCount w ->
  shared w' = shared w -> redis w' = redis w ->
  replies w' = replies w ++ extra ->
  (forall p r, settled w !! p = Some r -> settled w' !! p = Some r) ->
  (d = true ->
   (exists p v, settled w' !! p = Some (Ok v) /\ settled w !! p = None)
   \/ (exists t0 payload, In (t0, Ok (sendJson (Some FALLBACK) payload)) extra)) ->
  accounted None false w'.
Proof.
  intros [H1 H2 H3 Hsg [new0 Hrg] H4] Ht Hc Hsh Hre Hr Hs Hd.
  assert (Hnone : forall p, settled w !! p = None -> settled w0 !! p = None).
  { intros p Hp. destruct (settled w0 !! p) as [r|] eqn:E; [|reflexivity].
    rewrite (Hsg _ _ E) in Hp. discriminate. }
  constructor.
  - rewrite Ht. intros t0 x0 Hx0 _. apply lookup_delete_Some in Hx0 as [Hn Hx0].
    apply (H1 _ _ Hx0). congruence.
  - rewrite Ht, Hc. intros t0 x0 Hx0. apply lookup_delete_Some in Hx0 as [Hn Hx0].
    exact (H2 _ _ Hx0).
  - discriminate.
  - intros p r Hp. exact (Hs _ _ (Hsg _ _ Hp)).
  - exists (new0 ++ extra). now rewrite Hr, Hrg, app_assoc.
  - destruct H4 as [Hst|[Hd'|[(t0 & x0 & Hne & Hx0 & Hw0)
                              |[(p & v & Hp & Hp0)|(new & t0 & payload & Hnew & Hin)]]]].
    + left. now rewrite Hre, Hsh.
    + destruct (Hd Hd') as [(p & v & Hp & Hp')|(t0 & payload & Hin)].
      * right. right. right. left. exists p, v. split; [exact Hp|exact (Hnone _ Hp')].
      * right. right. right. right. exists (new0 ++ extra), t0, payload.
        split; [now rewrite Hr, Hrg, app_assoc|]. apply in_or_app. right. exact Hin.
    + right. right. left. exists t0, x0. split; [discriminate|]. split; [|exact Hw0].
      rewrite Ht. rewrite lookup_delete_ne; [exact Hx0|]. congruence.
    + right. right. right. left. exists p, v. split; [exact (Hs _ _ Hp)|exact Hp0].
    + right. right. right. right. exists (new ++ extra), t0, payload.
      split; [now rewrite Hr, Hnew, app_assoc|]. apply in_or_app. left. exact Hin.
Qed.

Lemma accounted_placeRequest t d st w :
  accounted (Some t) d w -> writtenP isFallback d st -> refreshOnlyP h cfg st ->
  accounted None false (placeRequest t st w).
Proof.
  intros Hw Hst Hro. destruct st as [r|e k]; cbn [placeRequest].
  - apply (accounted_finish t d w _ [(t, r)]); try reflexivity; try exact Hw; [auto|].
    intros Hd. right. destruct (Hst Hd) as [payload ->]. exists t, payload.
    left. reflexivity.
  - apply (accounted_suspend t d); [exact Hw|]. split; [exact Hst|exact Hro].
Qed.

Lemma accounted_placeBackground t d st w :
  accounted (Some t) d w -> writtenP (fun _ => False) d st -> refreshOnlyP h cfg st ->
  accounted None false (placeBackground t st w).
Proof.
  intros Hw Hst Hro. destruct st as [r|e k]; cbn [placeBackground].
  - apply (accounted_finish t d w _ []); try reflexivity; try exact Hw.
    + simpl. now rewrite app_nil_r.
    + auto.
    + intros Hd. destruct (Hst Hd).
  - apply (accounted_suspend t d); [exact Hw|]. split; [exact Hst|exact Hro].
Qed.

Lemma accounted_placeRefresh t p d st w :
  accounted (Some t) d w -> settled w !! p = None ->
  writtenP resolved d st -> quietP st ->
  accounted None false (placeRefresh t p st w).
Proof.
  intros Hw Hp Hst Hq. destruct st as [r|e k]; cbn [placeRefresh].
  - apply (accounted_finish t d w _ []); try reflexivity; try exact Hw.
    + simpl. now rewrite app_nil_r.
    + intros q v Hq'. simpl. rewrite lookup_insert_ne; [exact Hq'|]. congruence.
    + intros Hd. left. destruct (Hst Hd) as [payload ->]. exists p, payload.
      split; [apply lookup_insert_eq|exact Hp].
  - apply (accounted_suspend t d); [exact Hw|]. split; [exact Hst|exact Hq].
Qed.

(** A handler has run: the bodies it called and the handler itself are
    placed. *)
Lemma accounted_after_run {A : Type} (G : result A -> Prop) (P : prog A) t d w now s tr st :
  accounted (Some t) d w -> written G d P -> refreshOnly h cfg P ->
  run P now (shared w) = (s, tr, st) ->
  accounted (Some t) (d || wrote tr) (adopt (calls tr) (withShared s w))
  /\ writtenP G (d || wrote tr) st /\ refreshOnlyP h cfg st.
Proof.
  intros Hw HP Hro Hrun.
  destruct (refreshOnly_run P Hro _ _ _ _ _ Hrun) as [H1 H2].
  split; [|split; [exact (written_run G d P HP _ _ _ _ _ Hrun)|exact H1]].
  apply accounted_adopt; [exact H2|]. exact (accounted_run P t d w now s tr st Hw Hrun).
Qed.

Lemma accounted_arrive r now w :
  r <> WarmUp -> accounted None false w -> accounted None false (arrive h cfg r now w).
Proof.
  intros Hr Hw. pose proof (accounted_next w Hw) as Hw0.
  unfold arrive. destruct r as [|token| |]; [| | |contradiction].
  - destruct (run (getDashboard h cfg) now (shared w)) as [[s tr] st] eqn:E.
    destruct (accounted_after_run _ _ _ _ _ now s tr st Hw0 (written_getDashboard h cfg)
                refreshOnly_getDashboard E) as (H1 & H2 & H3).
    exact (accounted_placeRequest _ _ _ _ H1 H2 H3).
  - destruct (run (postRefresh h cfg token) now (shared w)) as [[s tr] st] eqn:E.
    assert (HP : written isFallback false (postRefresh h cfg token)).
    { eapply written_weaken; [|apply readonly_postRefresh]. intros r []. }
    destruct (accounted_after_run _ _ _ _ _ now s tr st Hw0 HP
                (refreshOnly_postRefresh token) E) as (H1 & H2 & H3).
    exact (accounted_placeRequest _ _ _ _ H1 H2 H3).
  - destruct (run (scheduledRefresh h cfg) now (shared w)) as [[s tr] st] eqn:E.
    destruct (accounted_after_run _ _ _ _ _ now s tr st Hw0 (readonly_scheduledRefresh h cfg)
                refreshOnly_scheduledRefresh E) as (H1 & H2 & H3).
    exact (accounted_placeBackground _ _ _ _ H1 H2 H3).
Qed.

Lemma accounted_deliver t o now w w' :
  consistent w -> accounted None false w -> deliver t o now w = Some w' ->
  accounted None false w'.
Proof.
  intros C Hw. unfold deliver.
  destruct (tasks w !! t) as [x|] eqn:Ht; [|discriminate].
  destruct (accounted_pick w t x Hw Ht) as (b & Hx & Hb).
  destruct x as [e k|e k|p e k]; simpl in Hx; destruct Hx as [Hk Hk'];
    (destruct (answerOf w e o) as [[a w1]|] eqn:Ha; [|discriminate]);
    (destruct (coerce e a) as [x|] eqn:Hc; [|discriminate]);
    destruct (accounted_answerOf _ _ _ _ _ _ _ _ Hb Ha Hc) as [Hw1 Hs1];
    destruct (run (k x) now (shared w1)) as [[s tr] st] eqn:E;
    intros [= <-].
  - destruct (accounted_after_run _ _ _ _ _ now s tr st Hw1 (Hk x) (Hk' x) E) as (H1 & H2 & H3).
    exact (accounted_placeRequest _ _ _ _ H1 H2 H3).
  - destruct (accounted_after_run _ _ _ _ _ now s tr st Hw1 (Hk x) (Hk' x) E) as (H1 & H2 & H3).
    exact (accounted_placeBackground _ _ _ _ H1 H2 H3).
  - destruct (run_quiet _ (Hk' x) _ _ _ _ _ E) as (_ & _ & Hcalls & Hq).
    rewrite Hcalls. cbn [adopt].
    apply (accounted_placeRefresh t p (b || storedBy e x || wrote tr)).
    + exact (accounted_run _ _ _ _ _ _ _ _ Hw1 E).
    + simpl. rewrite Hs1. exact (proj2 (refresh_is_current w C t p e k Ht)).
    + exact (written_run _ _ _ (Hk x) _ _ _ _ _ E).
    + exact Hq.
Qed.

Lemma accounted_steps evs : forall w w',
  serving evs -> consistent w -> accounted None false w ->
  steps h cfg evs w = Some w' -> accounted None false w'.
Proof.
  induction evs as [|ev evs IH]; intros w w' Hevs C Hw Hsteps; simpl in Hsteps.
  - injection Hsteps as <-. exact Hw.
  - destruct (step h cfg ev w) as [w1|] eqn:E; [|discriminate].
    inversion Hevs as [|? ? Hev Hrest]; subst.
    apply (IH w1 w' Hrest); [exact (proj1 (step_consistent h cfg ev w w1 C E))| |exact Hsteps].
    destruct ev as [r now|t o now]; simpl in E.
    + injection E as <-. apply accounted_arrive; [|exact Hw]. intros ->. exact (Hev now eq_refl).
    + eapply accounted_deliver; eauto.
Qed.

(** From a world [w0] in which no task is in flight, along a run without
    warm-up to a world in which again none is: the store is as it was in
    [w0] unless a refresh has resolved or a reply had status FALLBACK. *)
Lemma store_unchanged evs w :
  consistent w0 -> tasks w0 = ∅ ->
  steps h cfg evs w0 = Some w -> serving evs -> tasks w = ∅ ->
  (forall p v, settled w !! p = Some (Ok v) -> settled w0 !! p = Some (Ok v)) ->
  (forall new t r, replies w = replies w0 ++ new -> In (t, r) new -> ~ isFallback r) ->
  redis w = redis w0 /\ inMemoryCache (shared w) = inMemoryCache (shared w0).
Proof.
  intros C H0 Hsteps Hevs Hts Hs Hr.
  destruct (accounted_steps evs _ _ Hevs C (accounted_start H0) Hsteps) as [_ _ _ _ _ H].
  destruct H as [H|[F|[(t & x & _ & Hx & _)|[(p & v & Hp & Hp0)|(new & t & payload & Hnew & Hin)]]]].
  - exact H.
  - discriminate F.
  - rewrite Hts, lookup_empty in Hx. discriminate.
  - rewrite (Hs _ _ Hp) in Hp0. discriminate.
  - destruct (Hr _ _ _ Hnew Hin). eexists. reflexivity.
Qed.

End Owners.

Section Endpoints.

Context (h : host) (cfg : config).

Lemma buildFallback_payload now snapshot payload :
  buildFallbackPayloadFromSnapshot h cfg now snapshot = Ok (Some payload) ->
  exists items user repos,
    snapshot = VArr items /\ items <> []
    /\ payload = buildPayload cfg now user repos (VStr "")
                   (historyValue (buildEmptyCommitHistory now (normalizedHistoryDays cfg))).
Proof.
  unfold buildFallbackPayloadFromSnapshot.
  destruct snapshot as [| | | | |items|]; try discriminate.
  destruct items as [|x items]; [discriminate|].
  destruct (rmap (normalizeRepo) (x :: items)) as [normalized|e]; [|discriminate].
  simpl. intros [= <-]. eexists _, _, _. split; [reflexivity|]. split; [discriminate|reflexivity].
Qed.

Lemma stringify_payload now user repos readme hist :
  JSON_stringify (buildPayload cfg now user repos readme hist)
  = Some (TextOf (jsonImage (buildPayload cfg now user repos readme hist))).
Proof. reflexivity. Qed.

Local Opaque buildFallbackPayloadFromSnapshot isPayloadFresh jsonImage.

(** Takes the next turn of a task apart in a goal about [follow]: the
    turns that do not answer the awaited operation stop the task. *)
Ltac next_turn turns :=
  let a := fresh "a" in
  destruct turns as [|[a ? ?] turns]; simpl; [try discriminate|];
  destruct a; simpl; try discriminate.

Ltac asked_only :=
  repeat match goal with
         | |- Forall _ (_ :: _) => constructor; [auto|]
         | |- Forall _ [] => constructor
         end.

Ltac last_turn turns :=
  destruct turns; simpl; [|discriminate].

(** The handler of the read endpoint goes on, after its read, as
    [getAfterRead] with what was read; the read writes nothing. *)
Lemma getDashboard_after_read now s turns0 s1 tr0 cached rest :
  play (awaitCall (readCachedPayload cfg)) now s turns0 = Some (s1, tr0, Done (Ok cached)) ->
  play (getDashboard h cfg) now s (turns0 ++ rest)
  = match play (getAfterRead h cfg cached) (lastTime now turns0) s1 rest with
    | Some (s2, tr2, st2) => Some (s2, tr0 ++ tr2, st2)
    | None => None
    end
  /\ writes tr0 = [].
Proof.
  intros Hread. split.
  - unfold getDashboard, bind.
    rewrite (play_attempt _ _ now s turns0 rest s1 tr0 _ Hread). reflexivity.
  - destruct (writes tr0) eqn:E; [reflexivity|].
    destruct (written_play _ _ _ _ _ _ _ _
                (written_awaitCall _ _ _ (readonly_readCachedPayload cfg)) Hread).
    rewrite E. discriminate.
Qed.

Lemma getAfterRead_awaits cached now s :
  Js.truthy cached && isPayloadFresh h cfg now cached = false ->
  exists s1 tr1 p k,
    run (getAfterRead h cfg cached) now s = (s1, tr1, Waiting (Await p) k)
    /\ refreshPromise s1 = Some p /\ writes tr1 = []
    /\ (refreshPromise s = None ->
        calls tr1 = [(p, snd (run (refreshBody h cfg) now s))]).
Proof.
  intros Hstale. unfold getAfterRead. simpl. rewrite Hstale. simpl.
  destruct (refreshPromise s) as [p|] eqn:Hp; simpl; eexists _, _, _, _;
    (split; [reflexivity|]); (split; [first [exact Hp | reflexivity]|]);
    (split; [reflexivity|]); [discriminate|reflexivity].
Qed.

Lemma getAfterRead_refreshed cached now s fresh t2 s2 t3 s3 :
  Js.truthy cached && isPayloadFresh h cfg now cached = false ->
  exists s' tr,
    play (getAfterRead h cfg cached) now s (settleTurns (Ok fresh) t2 s2 t3 s3)
    = Some (s', tr, Done (Ok (sendJson (Some (if Js.truthy cached then REFRESH else MISS)) fresh)))
    /\ writes tr = [].
Proof.
  intros Hstale. unfold play, getAfterRead. simpl. rewrite Hstale. simpl.
  destruct (refreshPromise s) as [p|]; simpl; eexists _, _; split; reflexivity.
Qed.

Lemma getAfterRead_stale cached now s e t2 s2 t3 s3 :
  Js.truthy cached && isPayloadFresh h cfg now cached = false ->
  Js.truthy cached = true ->
  exists s' tr,
    play (getAfterRead h cfg cached) now s (settleTurns (Err e) t2 s2 t3 s3)
    = Some (s', tr, Done (Ok (sendJson (Some STALE) cached)))
    /\ writes tr = [].
Proof.
  intros Hstale Ht. unfold play, getAfterRead, getAfterFailure. simpl. rewrite Hstale. simpl.
  destruct (refreshPromise s) as [p|]; simpl; rewrite Ht; simpl;
    eexists _, _; split; reflexivity.
Qed.

(** Nothing cached and the refresh has failed: the snapshot file decides. *)
Lemma getAfterRead_fallback cached now s e read t2 s2 t3 s3 t4 s4 t5 s5 :
  Js.truthy cached && isPayloadFresh h cfg now cached = false ->
  Js.truthy cached = false ->
  let failed := settleTurns (Err e) t2 s2 t3 s3 ++ fileTurns read t4 s4 t5 s5 in
  (buildFallbackPayloadFromSnapshot h cfg t5 (snapshotValue read) = Ok None ->
   exists s' tr,
     play (getAfterRead h cfg cached) now s failed = Some (s', tr, Done (Ok unavailable))
     /\ writes tr = [])
  /\ (forall x,
        buildFallbackPayloadFromSnapshot h cfg t5 (snapshotValue read) = Err x ->
        exists s' tr,
          play (getAfterRead h cfg cached) now s failed = Some (s', tr, Done (Err x))
          /\ writes tr = [])
  /\ (forall payload,
        buildFallbackPayloadFromSnapshot h cfg t5 (snapshotValue read) = Ok (Some payload) ->
        (forall t6 s6 t7 s7,
           exists s' tr,
             play (getAfterRead h cfg cached) now s (failed ++ storeTurns cfg t6 s6 t7 s7)
             = Some (s', tr, Done (Ok (sendJson (Some FALLBACK) payload)))
             /\ writes tr = storeWrites cfg payload)
        /\ (redisClient cfg = true ->
            forall x t6 s6 t7 s7,
              exists s' tr,
                play (getAfterRead h cfg cached) now s
                  (failed ++ [Turn (ASet (Err x)) t6 s6; Turn ATurn t7 s7])
                = Some (s', tr, Done (Err x))
                /\ writes tr = [])).
Proof.
  intros Hstale Ht failed. subst failed. split; [|split].
  - intros Hfb. unfold play, getAfterRead, getAfterFailure. simpl. rewrite Hstale. simpl.
    destruct (refreshPromise s) as [p|]; simpl; rewrite Ht; simpl; rewrite Hfb; simpl;
      eexists _, _; split; reflexivity.
  - intros x Hfb. unfold play, getAfterRead, getAfterFailure. simpl. rewrite Hstale. simpl.
    destruct (refreshPromise s) as [p|]; simpl; rewrite Ht; simpl; rewrite Hfb; simpl;
      eexists _, _; split; reflexivity.
  - intros payload Hfb.
    destruct (buildFallback_payload _ _ _ Hfb) as (items & user & repos & _ & _ & Hp).
    split.
    + intros t6 s6 t7 s7.
      unfold play, getAfterRead, getAfterFailure, storeTurns, storeWrites, writeCachedPayload.
      simpl. rewrite Hstale. simpl.
      destruct (refreshPromise s) as [p|]; simpl; rewrite Ht; simpl; rewrite Hfb; simpl;
        destruct (redisClient cfg); simpl;
        rewrite ?Hp, ?stringify_payload; simpl; eexists _, _; split; reflexivity.
    + intros Hredis x t6 s6 t7 s7.
      unfold play, getAfterRead, getAfterFailure, writeCachedPayload.
      simpl. rewrite Hstale. simpl.
      destruct (refreshPromise s) as [p|]; simpl; rewrite Ht; simpl; rewrite Hfb; simpl;
        rewrite Hredis; simpl;
        rewrite ?Hp, ?stringify_payload; simpl; eexists _, _; split; reflexivity.
Qed.

(** What [await readCachedPayload()] does: with a client it asks Redis for
    the key; in both cases the handler resumes on a later turn, and no
    async function has been called. *)
Lemma readCachedPayload_trace now s turns0 s1 tr0 r :
  play (awaitCall (readCachedPayload cfg)) now s turns0 = Some (s1, tr0, Done r) ->
  calls tr0 = []
  /\ Forall (fun a => a = Asked (RedisGet (cacheKey cfg)) \/ a = Asked Yield) tr0.
Proof.
  unfold play, readCachedPayload. destruct (redisClient cfg); simpl.
  - next_turn turns0.
    match goal with got : result (option text) |- _ => destruct got as [[[v| |]|]|e] end;
      simpl; next_turn turns0; last_turn turns0; intros [= <- <- <-];
      (split; [reflexivity|asked_only]).
  - next_turn turns0. last_turn turns0. intros [= <- <- <-].
    split; [reflexivity|asked_only].
Qed.

(** The read without a client returns [inMemoryCache]; with a client, the
    value whose text Redis holds under the key. *)
Lemma readCachedPayload_returns now s :
  (redisClient cfg = false -> forall t1 s1,
     play (awaitCall (readCachedPayload cfg)) now s [Turn ATurn t1 s1]
     = Some (s1, [Asked Yield], Done (Ok (inMemoryCache s))))
  /\ (redisClient cfg = true -> forall cached t0 s0 t1 s1,
        play (awaitCall (readCachedPayload cfg)) now s
          [Turn (AGot (Ok (Some (TextOf cached)))) t0 s0; Turn ATurn t1 s1]
        = Some (s1, [Asked (RedisGet (cacheKey cfg)); Asked Yield], Done (Ok cached))).
Proof.
  unfold play, readCachedPayload. split; intros ->; reflexivity.
Qed.

(** The warm-up writes nothing, or, after a refresh that failed, the
    fallback snapshot built from the file. *)
Lemma warmUp_writes now s turns s' tr r :
  play (warmUp h cfg) now s turns = Some (s', tr, Done r) ->
  writes tr = []
  \/ exists e t2 s2 rest t read payload,
       turns = Turn (ASettled (Err e)) t2 s2 :: rest
       /\ buildFallbackPayloadFromSnapshot h cfg t (snapshotValue read) = Ok (Some payload)
       /\ r = Ok tt
       /\ writes tr = storeWrites cfg payload.
Proof.
  unfold play, warmUp, storeWrites. simpl.
  destruct (refreshPromise s) as [p|]; simpl; next_turn turns;
    (match goal with settled : result value |- _ => destruct settled as [v|e] end; simpl;
       [last_turn turns; intros [= <- <- <-]; left; reflexivity|]);
    next_turn turns; next_turn turns;
    (match goal with
     | |- context [buildFallbackPayloadFromSnapshot h cfg ?t ?v] =>
         destruct (buildFallbackPayloadFromSnapshot h cfg t v) as [[payload|]|x] eqn:Hfb
     end; simpl;
       [|last_turn turns; intros [= <- <- <-]; left; reflexivity..]);
    destruct (buildFallback_payload _ _ _ Hfb) as (items & user & repos & _ & _ & Hp);
    subst payload; unfold writeCachedPayload; destruct (redisClient cfg); simpl;
    next_turn turns.
  1, 3: match goal with
        | ack : result unit |- _ =>
            tryif constr_eq ack r then fail else destruct ack as [u|x]
        end; simpl;
    next_turn turns; last_turn turns;
    intros [= <- <- <-]; [right|left; reflexivity];
    eexists _, _, _, _, _, _, _; (split; [reflexivity|]); (split; [exact Hfb|]);
    (split; [destruct u; reflexivity|reflexivity]).
  all: last_turn turns; intros [= <- <- <-]; right;
    eexists _, _, _, _, _, _, _; (split; [reflexivity|]); (split; [exact Hfb|]);
    split; reflexivity.
Qed.

(** The warm-up after a refresh that failed: the fallback snapshot goes to
    the store, and the store has not been read. *)
Lemma warmUp_overwrites now s e read payload t2 s2 t4 s4 t5 s5 t6 s6 t7 s7 :
  buildFallbackPayloadFromSnapshot h cfg t5 (snapshotValue read) = Ok (Some payload) ->
  exists s' tr,
    play (warmUp h cfg) now s
      (Turn (ASettled (Err e)) t2 s2 :: fileTurns read t4 s4 t5 s5
       ++ storeTurns cfg t6 s6 t7 s7)
    = Some (s', tr, Done (Ok tt))
    /\ writes tr = storeWrites cfg payload
    /\ Forall (fun a => forall key, a <> Asked (RedisGet key)) tr.
Proof.
  intros Hfb.
  destruct (buildFallback_payload _ _ _ Hfb) as (items & user & repos & _ & _ & Hp).
  unfold play, warmUp, storeTurns, storeWrites, writeCachedPayload. simpl.
  destruct (refreshPromise s) as [p|]; simpl; rewrite Hfb; simpl;
    destruct (redisClient cfg); simpl; rewrite ?Hp, ?stringify_payload; simpl;
    eexists _, _; (split; [reflexivity|]); (split; [reflexivity|]);
    repeat (constructor; [intros key; discriminate|]); constructor.
Qed.

(** C2, amended.  Let the read of the store have returned [cached], absent
    or not fresh at the time [t1] at which the handler of the read endpoint
    resumes.  The handler then awaits a coordinated refresh, having written
    nothing: the promise in [refreshPromise], for which, with no refresh in
    flight, it has called the refresh body.  Then, by the outcome of the
    promise:
    - a snapshot [fresh]: it sends [fresh] with status REFRESH when there
      was a prior snapshot and MISS when there was none, and writes nothing;
    - an exception, with a prior snapshot: it sends the prior snapshot with
      status STALE and writes nothing;
    - an exception, with no prior snapshot: it reads the snapshot file.  If
      no snapshot is built from it, it sends the 503 message and writes
      nothing.  If one is built and the store takes the write, it is stored
      and sent with status FALLBACK; if Redis refuses the write, that
      exception leaves the handler and nothing is written.  If building it
      throws, that exception leaves the handler and nothing is written. *)
Theorem get_path_degrades_in_order (now : Z) (s : srv) (turns0 : list turn)
    (s1 : srv) (tr0 : list action) (cached : value) :
  play (awaitCall (readCachedPayload cfg)) now s turns0 = Some (s1, tr0, Done (Ok cached)) ->
  let t1 := lastTime now turns0 in
  Js.truthy cached && isPayloadFresh h cfg t1 cached = false ->
  (exists sA trA p k,
     play (getDashboard h cfg) now s turns0 = Some (sA, trA, Waiting (Await p) k)
     /\ refreshPromise sA = Some p
     /\ writes trA = []
     /\ (refreshPromise s1 = None ->
         calls trA = [(p, snd (run (refreshBody h cfg) t1 s1))]))
  /\ forall t2 s2 t3 s3,
     (forall fresh, exists s' tr,
        play (getDashboard h cfg) now s (turns0 ++ settleTurns (Ok fresh) t2 s2 t3 s3)
        = Some (s', tr,
                Done (Ok (sendJson (Some (if Js.truthy cached then REFRESH else MISS)) fresh)))
        /\ writes tr = [])
     /\ (forall e, Js.truthy cached = true -> exists s' tr,
           play (getDashboard h cfg) now s (turns0 ++ settleTurns (Err e) t2 s2 t3 s3)
           = Some (s', tr, Done (Ok (sendJson (Some STALE) cached)))
           /\ writes tr = [])
     /\ (forall e read t4 s4 t5 s5, Js.truthy cached = false ->
           let failed :=
             turns0 ++ settleTurns (Err e) t2 s2 t3 s3 ++ fileTurns read t4 s4 t5 s5 in
           (buildFallbackPayloadFromSnapshot h cfg t5 (snapshotValue read) = Ok None ->
            exists s' tr,
              play (getDashboard h cfg) now s failed = Some (s', tr, Done (Ok unavailable))
              /\ writes tr = [])
           /\ (forall x,
                 buildFallbackPayloadFromSnapshot h cfg t5 (snapshotValue read) = Err x ->
                 exists s' tr,
                   play (getDashboard h cfg) now s failed = Some (s', tr, Done (Err x))
                   /\ writes tr = [])
           /\ (forall payload,
                 buildFallbackPayloadFromSnapshot h cfg t5 (snapshotValue read)
                 = Ok (Some payload) ->
                 (forall t6 s6 t7 s7, exists s' tr,
                    play (getDashboard h cfg) now s (failed ++ storeTurns cfg t6 s6 t7 s7)
                    = Some (s', tr, Done (Ok (sendJson (Some FALLBACK) payload)))
                    /\ writes tr = storeWrites cfg payload)
                 /\ (redisClient cfg = true -> forall x t6 s6 t7 s7, exists s' tr,
                       play (getDashboard h cfg) now s
                         (failed ++ [Turn (ASet (Err x)) t6 s6; Turn ATurn t7 s7])
                       = Some (s', tr, Done (Err x))
                       /\ writes tr = []))).
Proof.
  intros Hread t1 Hstale.
  assert (Hgo : forall rest s' tr' st,
            play (getAfterRead h cfg cached) t1 s1 rest = Some (s', tr', st) ->
            play (getDashboard h cfg) now s (turns0 ++ rest) = Some (s', tr0 ++ tr', st)
            /\ writes (tr0 ++ tr') = writes tr').
  { intros rest s' tr' st Hrest.
    destruct (getDashboard_after_read now s turns0 s1 tr0 cached rest Hread) as [E W].
    rewrite E. fold t1. rewrite Hrest, writes_app, W. split; reflexivity. }
  split.
  - destruct (getAfterRead_awaits cached t1 s1 Hstale) as (sA & trA & p & k & E & Hp & W & C).
    assert (Hplay : play (getAfterRead h cfg cached) t1 s1 [] = Some (sA, trA ++ [], Waiting (Await p) k))
      by (unfold play; rewrite E; reflexivity).
    destruct (Hgo _ _ _ _ Hplay) as [G1 G2]. rewrite app_nil_r in G1, G2.
    rewrite app_nil_r in G1.
    exists sA, (tr0 ++ trA), p, k. repeat split; [exact G1|exact Hp|now rewrite G2|].
    intros Hnone. rewrite calls_app, (proj1 (readCachedPayload_trace _ _ _ _ _ _ Hread)).
    exact (C Hnone).
  - intros t2 s2 t3 s3. split; [|split].
    + intros fresh.
      destruct (getAfterRead_refreshed cached t1 s1 fresh t2 s2 t3 s3 Hstale)
        as (s' & tr & E & W).
      destruct (Hgo _ _ _ _ E) as [G1 G2]. exists s', (tr0 ++ tr). split; [exact G1|congruence].
    + intros e Ht.
      destruct (getAfterRead_stale cached t1 s1 e t2 s2 t3 s3 Hstale Ht)
        as (s' & tr & E & W).
      destruct (Hgo _ _ _ _ E) as [G1 G2]. exists s', (tr0 ++ tr). split; [exact G1|congruence].
    + intros e read t4 s4 t5 s5 Ht failed. subst failed.
      destruct (getAfterRead_fallback cached t1 s1 e read t2 s2 t3 s3 t4 s4 t5 s5 Hstale Ht)
        as (Hnone & Herr & Hsome).
      split; [|split].
      * intros Hfb. destruct (Hnone Hfb) as (s' & tr & E & W).
        destruct (Hgo _ _ _ _ E) as [G1 G2]. exists s', (tr0 ++ tr).
        split; [exact G1|congruence].
      * intros x Hfb. destruct (Herr x Hfb) as (s' & tr & E & W).
        destruct (Hgo _ _ _ _ E) as [G1 G2]. exists s', (tr0 ++ tr).
        split; [exact G1|congruence].
      * intros payload Hfb. destruct (Hsome payload Hfb) as [Hok Hbad]. split.
        -- intros t6 s6 t7 s7. destruct (Hok t6 s6 t7 s7) as (s' & tr & E & W).
           destruct (Hgo _ _ _ _ E) as [G1 G2]. exists s', (tr0 ++ tr).
           rewrite <- !app_assoc in G1 |- *. split; [exact G1|congruence].
        -- intros Hredis x t6 s6 t7 s7.
           destruct (Hbad Hredis x t6 s6 t7 s7) as (s' & tr & E & W).
           destruct (Hgo _ _ _ _ E) as [G1 G2]. exists s', (tr0 ++ tr).
           rewrite <- !app_assoc in G1 |- *. split; [exact G1|congruence].
Qed.

Local Transparent isPayloadFresh.

Lemma isPayloadFresh_spec cached now :
  isPayloadFresh h cfg now cached = true <->
  exists f, Js.truthy (fetchedAt cached) = true /\ Date_parse h (fetchedAt cached) = Some f
            /\ now - f <= normalizedTtlMinutes cfg * 60000.
Proof.
  unfold isPayloadFresh, fetchedAt.
  destruct (Js.truthy (Js.getOpt (Js.getOpt cached "meta") "fetched_at")); simpl.
  - destruct (Date_parse h (Js.getOpt (Js.getOpt cached "meta") "fetched_at")) as [f|].
    + rewrite Z.leb_le. split; [intros H; exists f; auto | intros (f' & _ & [= <-] & H); exact H].
    + split; [discriminate | intros (f & _ & F & _); discriminate].
  - split; [discriminate | intros (f & F & _); discriminate].
Qed.

Lemma awaits_refresh {A : Type} (k : result value -> prog A) now s :
  exists s1 tr1 p k1,
    run (attempt (awaitCall (refreshCache h cfg)) k) now s = (s1, tr1, Waiting (Await p) k1)
    /\ refreshPromise s1 = Some p.
Proof.
  simpl. destruct (refreshPromise s) as [p|] eqn:Hp; simpl; eexists _, _, _, _;
    (split; [reflexivity | first [exact Hp | reflexivity]]).
Qed.




Local Transparent buildFallbackPayloadFromSnapshot jsonImage.

End Endpoints.

Lemma always_attempt_gen {A B : Type} (G1 : result A -> Prop) (G : result B -> Prop)
    (P : prog A) (k : result A -> prog B) :
  always G1 P -> (forall r, G1 r -> always G (k r)) -> always G (attempt P k).
Proof.
  unfold always. intros HP Hk. remember true as c eqn:Hc.
  induction HP as [c a Ha|c e He|c f Hf IH|c f Hf IH|c v f Hf IH|c f Hf IH
                  |c p f Hf IH|c body f Hb Hf IH|c e f Hf IH]; subst c; simpl;
    try (constructor; auto; fail); auto.
Qed.

Lemma always_fail_bind {A B : Type} (P : prog A) (f : A -> prog B) :
  always isErr P -> always isErr (bind P f).
Proof.
  intros HP. apply (always_attempt_gen isErr isErr P _ HP).
  intros r [e ->]. constructor. intros _. exists e. reflexivity.
Qed.

Lemma play_io {A : Type} (e : io) (k : reply_of e -> prog A) now s t rest :
  play (Io e k) now s (t :: rest) =
  match coerce e (given t) with
  | Some x =>
      match play (k x) (at_ t) (found t) rest with
      | Some (s', tr, st) => Some (s', Asked e :: acknowledged e (given t) ++ tr, st)
      | None => None
      end
  | None => None
  end.
Proof.
  unfold play. simpl. destruct (coerce e (given t)) as [x|]; [|reflexivity].
  destruct (run (k x) (at_ t) (found t)) as [[s1 tr1] st1].
  destruct (follow st1 s1 rest) as [[[s2 tr2] st2]|]; [|reflexivity].
  rewrite <- app_assoc. reflexivity.
Qed.

Lemma play_now {A : Type} (k : Z -> prog A) now s turns :
  play (Now k) now s turns = play (k now) now s turns.
Proof. reflexivity. Qed.

Lemma play_attempt_end {A B : Type} (P : prog A) (k : result A -> prog B) now s turns s1 tr1 r :
  play P now s turns = Some (s1, tr1, Done r) ->
  play (attempt P k) now s turns =
  match play (k r) (lastTime now turns) s1 [] with
  | Some (s2, tr2, st2) => Some (s2, tr1 ++ tr2, st2)
  | None => None
  end.
Proof.
  intros H. rewrite <- (play_attempt P k now s turns [] s1 tr1 r H).
  now rewrite app_nil_r.
Qed.

Section Builder.

Context (h : host) (cfg : config).

Lemma afterFetch_received r v : received r = Some v -> afterFetch r = Ret v.
Proof.
  unfold received, afterFetch. destruct r as [resp|e]; [|discriminate].
  destruct (ok resp); [|discriminate]. simpl.
  destruct (body resp); [intros [= ->]; reflexivity | discriminate].
Qed.

Lemma afterFetch_fails r : requestFails r = true -> always isErr (afterFetch r).
Proof.
  unfold requestFails, received, afterFetch, always, isErr. destruct r as [resp|e].
  - destruct (ok resp); simpl.
    + destruct (body resp) as [v|e]; [discriminate|]. intros _. constructor. eauto.
    + intros _. constructor. intros x. constructor. eauto.
  - intros _. constructor. eauto.
Qed.

Lemma afterFetch_cases r :
  (exists v, received r = Some v) \/ requestFails r = true.
Proof. unfold requestFails. destruct (received r); eauto. Qed.

(** After the three required requests, with one of them failed. *)
Lemma required_failure_throws (r1 r2 r3 : result response) {B : Type}
    (f : value -> value -> value -> prog B) :
  requestFails r1 || requestFails r2 || requestFails r3 = true ->
  always isErr (u <- afterFetch r1 ;; v <- afterFetch r2 ;; w <- afterFetch r3 ;; f u v w).
Proof.
  intros Hfail.
  destruct (afterFetch_cases r1) as [[u Hu]|H1]; [|now apply always_fail_bind, afterFetch_fails].
  rewrite (afterFetch_received _ _ Hu). unfold bind at 1. cbn [attempt].
  destruct (afterFetch_cases r2) as [[v Hv]|H2]; [|now apply always_fail_bind, afterFetch_fails].
  rewrite (afterFetch_received _ _ Hv). unfold bind at 1. cbn [attempt].
  destruct (afterFetch_cases r3) as [[w Hw]|H3]; [|now apply always_fail_bind, afterFetch_fails].
  unfold requestFails in Hfail. rewrite Hu, Hv, Hw in Hfail. discriminate.
Qed.

Lemma historyLoop_zero today n : Forall (fun d => commit_count d = 0) (historyLoop today n).
Proof. induction n as [|n IH]; simpl; constructor; auto. Qed.

Lemma normalizedHistoryDays_positive : 0 < normalizedHistoryDays cfg.
Proof.
  unfold normalizedHistoryDays, assertPositiveInteger.
  destruct (GITHUB_COMMIT_HISTORY_DAYS cfg) as [n|]; [|lia].
  destruct (0 <? n) eqn:E; [now apply Z.ltb_lt in E | lia].
Qed.

(** A failed request ends [githubRequest] with an exception, after one more
    turn when the response has to be read for the message. *)
Lemma afterFetch_ends (r : result response) {B : Type} (k : value -> prog B) t1 s1 :
  requestFails r = true ->
  exists n e tr,
    play (bind (afterFetch r) k) t1 s1 (repeat (Turn ATurn t1 s1) n)
    = Some (s1, tr, Done (Err e)).
Proof.
  intros Hr. unfold requestFails, received in Hr.
  destruct r as [[o st tx b]|e]; simpl in Hr.
  - destruct o; simpl in Hr.
    + destruct b as [v|e]; [discriminate|]. exists 0%nat, e, []. reflexivity.
    + exists 1%nat. eexists _, _. reflexivity.
  - exists 0%nat, e, []. reflexivity.
Qed.

Lemma afterFetch_passes (r : result response) {B : Type} (k : value -> prog B) :
  requestFails r = false -> exists v, bind (afterFetch r) k = k v.
Proof.
  unfold requestFails. destruct (received r) as [v|] eqn:E; [|discriminate].
  intros _. exists v. rewrite (afterFetch_received _ _ E). reflexivity.
Qed.

Lemma required_failure_ends (r1 r2 r3 : result response) now s t1 s1 :
  requestFails r1 || requestFails r2 || requestFails r3 = true ->
  exists n e tr,
    play (fetchFreshPayload h cfg) now s
      (Turn (AResponses [r1; r2; r3]) t1 s1 :: repeat (Turn ATurn t1 s1) n)
    = Some (s1, tr, Done (Err e)).
Proof.
  intros Hfail. unfold fetchFreshPayload.
  match goal with
  | |- context [Io _ ?k] =>
      enough (exists n e tr,
                play (k [r1; r2; r3]) t1 s1 (repeat (Turn ATurn t1 s1) n)
                = Some (s1, tr, Done (Err e))) as (n & e & tr & H)
  end.
  { exists n, e. eexists. rewrite play_io. simpl coerce. cbv iota beta.
    cbn [at_ found given Turn]. rewrite H. reflexivity. }
  cbv beta iota.
  destruct (requestFails r1) eqn:F1; [now apply afterFetch_ends|].
  match goal with
  | |- context [bind (afterFetch r1) ?k] => destruct (afterFetch_passes r1 k F1) as [v1 ->]
  end.
  destruct (requestFails r2) eqn:F2; [now apply afterFetch_ends|].
  match goal with
  | |- context [bind (afterFetch r2) ?k] => destruct (afterFetch_passes r2 k F2) as [v2 ->]
  end.
  apply afterFetch_ends. exact Hfail.
Qed.
(** C6.  The snapshot builder.  If one of the three requests for the user,
    the repositories and the readme fails (the fetch rejects, the status
    is not ok, or the body is not JSON), [fetchFreshPayload] ends with an
    exception, whatever happens afterwards, and the refresh body around it
    ends with an exception and has written nothing.  If the three succeed
    with well-formed values and only [fetchCommitHistory] throws, the
    build succeeds, with the empty history in place: as many entries as
    [normalizedHistoryDays], a positive number, each with [commit_count]
    zero. *)
Theorem snapshot_builder_fails_as_a_unit :
  (forall r1 r2 r3 now s t1 s1,
     requestFails r1 || requestFails r2 || requestFails r3 = true ->
     (exists n e tr,
        play (fetchFreshPayload h cfg) now s
          (Turn (AResponses [r1; r2; r3]) t1 s1 :: repeat (Turn ATurn t1 s1) n)
        = Some (s1, tr, Done (Err e)))
     /\ forall turns s' tr r,
          (play (fetchFreshPayload h cfg) now s (Turn (AResponses [r1; r2; r3]) t1 s1 :: turns)
           = Some (s', tr, Done r) -> isErr r)
          /\ (play (refreshBody h cfg) now s (Turn (AResponses [r1; r2; r3]) t1 s1 :: turns)
              = Some (s', tr, Done r) -> isErr r /\ writes tr = []))
  /\ (forall r1 r2 r3 userResponse items readmeResponse content user normalized
             now s t1 s1 turns sH trH e,
        received r1 = Some userResponse ->
        received r2 = Some (VArr items) ->
        received r3 = Some readmeResponse ->
        Js.get readmeResponse "encoding" = Ok (VStr "base64") ->
        Js.getOpt readmeResponse "content" = VStr content ->
        normalizeUser userResponse = Ok user ->
        rmap normalizeRepo items = Ok normalized ->
        play (awaitCall (fetchCommitHistory h cfg (GITHUB_USERNAME cfg) (normalizedHistoryDays cfg)))
          t1 s1 turns = Some (sH, trH, Done (Err e)) ->
        let history := buildEmptyCommitHistory t1 (normalizedHistoryDays cfg) in
        (exists tr,
           play (fetchFreshPayload h cfg) now s (Turn (AResponses [r1; r2; r3]) t1 s1 :: turns)
           = Some (sH, tr,
                   Done (Ok (buildPayload cfg (lastTime t1 turns) user
                               (VArr (sortBy (byPushedAtDesc h) normalized))
                               (VStr (sanitizeReadmeContent h (decodeBase64Utf8 h content)))
                               (historyValue history)))))
        /\ length history = Z.to_nat (normalizedHistoryDays cfg)
        /\ 0 < normalizedHistoryDays cfg
        /\ Forall (fun d => commit_count d = 0) history).
Proof.
  split.
  - intros r1 r2 r3 now s t1 s1 Hfail. split; [now apply required_failure_ends|].
    intros turns s' tr r. split.
    + unfold fetchFreshPayload. rewrite play_io. simpl.
      destruct (play _ t1 s1 turns) as [[[s2 tr2] st2]|] eqn:Hplay; [|discriminate].
      intros [= -> <- ->].
      exact (always_play isErr _ _ _ _ _ _ _ (required_failure_throws r1 r2 r3 _ Hfail) Hplay).
    + intros Hplay. assert (Herr : isErr r).
      { revert Hplay. unfold refreshBody, bind at 1 2, awaitCall at 1, fetchFreshPayload.
        cbn [attempt]. rewrite play_io. simpl.
        destruct (play _ t1 s1 turns) as [[[s2 tr2] st2]|] eqn:Hplay; [|discriminate].
        intros [= -> <- ->].
        refine (always_play isErr _ _ _ _ _ _ _ _ Hplay).
        apply (always_attempt_gen isErr isErr).
        -- apply (always_attempt_gen isErr isErr);
             [exact (required_failure_throws r1 r2 r3 _ Hfail)|].
           intros r0 [e0 ->]. constructor. intros x. constructor. intros _. exists e0. reflexivity.
        -- intros r0 [e0 ->]. constructor. intros _. exists e0. reflexivity. }
      split; [exact Herr|].
      destruct (writes tr) eqn:E; [reflexivity|].
      destruct (written_play _ _ _ _ _ _ _ _ (written_refreshBody h cfg) Hplay) as [payload ->].
      { rewrite E. discriminate. }
      destruct Herr as [e0 F]. discriminate.
  - intros r1 r2 r3 userResponse items readmeResponse content user normalized
           now s t1 s1 turns sH trH e H1 H2 H3 Henc Hcontent Huser Hnorm Hch history.
    split; [|split; [apply historyLoop_length|split;
             [apply normalizedHistoryDays_positive | apply historyLoop_zero]]].
    unfold fetchFreshPayload. rewrite play_io. simpl coerce. cbv iota beta.
    rewrite (afterFetch_received _ _ H1). unfold bind at 1. cbn [attempt].
    rewrite (afterFetch_received _ _ H2). unfold bind at 1. cbn [attempt].
    rewrite (afterFetch_received _ _ H3). unfold bind at 1. cbn [attempt].
    rewrite Henc. unfold bind at 1. cbn [attempt lift]. rewrite Hcontent.
    cbn [String.eqb Ascii.eqb Bool.eqb andb].
    cbn [at_ found given Turn]. rewrite play_now. cbv beta.
    rewrite (play_attempt_end _ _ _ _ turns _ _ _ Hch).
    rewrite Hnorm, Huser. unfold play. simpl.
    eexists. reflexivity.
Qed.

(** C7.  The fallback loader.  [loadRepoSnapshot] never throws.  When the
    file cannot be read, is not JSON, is not an array, or is an empty
    array, no payload is built.  When one is built, the snapshot was a
    non-empty array and [meta.fetched_at] of the payload is the time of
    the call; for the read endpoint, that is the time at which the handler
    resumed after reading the file. *)
Theorem fallback_loader_fails_cleanly :
  (forall now s read t1 s1,
     play loadRepoSnapshot now s [Turn (AFile read) t1 s1]
     = Some (s1, [Asked (ReadFile "repos")], Done (Ok (snapshotValue read))))
  /\ (forall read now, unusable read ->
        buildFallbackPayloadFromSnapshot h cfg now (snapshotValue read) = Ok None)
  /\ (forall now snapshot payload,
        buildFallbackPayloadFromSnapshot h cfg now snapshot = Ok (Some payload) ->
        fetchedAt payload = VStr (JsDate.toISOString now)
        /\ exists items, snapshot = VArr items /\ items <> [])
  /\ (forall cached now s e read t2 s2 t3 s3 t4 s4 t5 s5 t6 s6 t7 s7 s' tr payload,
        play (getAfterRead h cfg cached) now s
          (settleTurns (Err e) t2 s2 t3 s3 ++ fileTurns read t4 s4 t5 s5
           ++ storeTurns cfg t6 s6 t7 s7)
        = Some (s', tr, Done (Ok (sendJson (Some FALLBACK) payload))) ->
        fetchedAt payload = VStr (JsDate.toISOString t5)).
Proof.
  split; [reflexivity|]. split; [|split].
  - intros read now Hu. unfold snapshotValue.
    destruct read as [[v| |]|e]; simpl; try reflexivity.
    destruct Hu as [Hu| ->]; [rewrite Hu|]; reflexivity.
  - intros now snapshot payload Hfb.
    destruct (buildFallback_payload h cfg _ _ _ Hfb) as (items & user & repos & -> & Hne & ->).
    split; [reflexivity|]. eauto.
  - intros cached now s e read t2 s2 t3 s3 t4 s4 t5 s5 t6 s6 t7 s7 s' tr payload.
    unfold play, getAfterRead, getAfterFailure, storeTurns, writeCachedPayload. simpl.
    destruct (Js.truthy cached && isPayloadFresh h cfg now cached); [discriminate|]. simpl.
    destruct (redisClient cfg); destruct (refreshPromise s) as [p|]; simpl;
      destruct (Js.truthy cached); simpl;
      try (intros F; discriminate F);
      (destruct (buildFallbackPayloadFromSnapshot h cfg t5 (snapshotValue read))
         as [[fb|]|e0] eqn:Hfb; simpl; try (intros F; discriminate F));
      destruct (buildFallback_payload h cfg _ _ _ Hfb) as (items & user & repos & _ & _ & ->);
      simpl; intros [= _ _ <-]; reflexivity.
Qed.

End Builder.


Lemma digit_isDigit n : isDigit (JsDate.digit n) = true.
Proof.
  unfold JsDate.digit.
  pose proof (Z.mod_pos_bound n 10 ltac:(lia)) as H.
  assert (Hn : (Z.to_nat (n mod 10) < 10)%nat) by lia.
  destruct (Z.to_nat (n mod 10)) as [|[|[|[|[|[|[|[|[|[|k]]]]]]]]]]; try reflexivity; lia.
Qed.

Lemma toISOString_shape t :
  0 <= JsDate.getUTCFullYear t <= 9999 -> isoShape (JsDate.toISOString t) = true.
Proof.
  intros Hy. unfold JsDate.toISOString, JsDate.isoYear.
  replace ((0 <=? JsDate.getUTCFullYear t) && (JsDate.getUTCFullYear t <=? 9999)) with true
    by (symmetry; apply andb_true_iff; split; apply Z.leb_le; lia).
  generalize (JsDate.getUTCFullYear t) (JsDate.getUTCMonth t + 1) (JsDate.getUTCDate t)
    (JsDate.getUTCHours t) (JsDate.getUTCMinutes t) (JsDate.getUTCSeconds t)
    (JsDate.getUTCMilliseconds t).
  intros y m d hh mm ss ms. unfold isoShape.
  cbv -[JsDate.digit Z.div isDigit andb]. rewrite !digit_isDigit. reflexivity.
Qed.

(** C9, as the specification states it, fails on the snapshot that the
    sample run builds from GitHub's answers, stores, and sends to both
    requests: it has the five properties [meta], [user], [repos], [readme]
    and [commit_history], not the two ([meta] and [payload]) of the stated
    shape, and its [meta] names the user [username] and the TTL
    [cache_ttl_minutes]. *)
Lemma snapshot_shape_counterexample :
  let payload := inMemoryCache (shared Sample.reached) in
  keys payload = ["meta"; "user"; "repos"; "readme"; "commit_history"]
  /\ keys (Js.getOpt payload "meta") = ["username"; "fetched_at"; "source"; "cache_ttl_minutes"]
  /\ ~ specShape payload.
Proof.
  split; [vm_compute; reflexivity|]. split; [vm_compute; reflexivity|].
  intros (Hkeys & _). apply Permutation_length in Hkeys. vm_compute in Hkeys. discriminate.
Qed.

(** C9, amended.  Every payload built by [buildPayload] is an object with
    the properties [meta], [user], [repos], [readme] and [commit_history],
    in this order, where [meta] has exactly [username], [fetched_at],
    [source] and [cache_ttl_minutes]: the configured user name, the time of
    building in the format of [toISOString] (YYYY-MM-DDTHH:mm:ss.sssZ
    for the years 0 to 9999), the marker ["github-api"] and the normalized
    TTL in minutes; the data sit next to [meta], not under a [payload]
    property.  Every payload of the fallback loader and of
    [fetchFreshPayload] is built this way. *)
Theorem snapshot_shape (h : host) (cfg : config) :
  (forall now user repos readme commitHistory,
     let payload := buildPayload cfg now user repos readme commitHistory in
     let meta := Js.getOpt payload "meta" in
     keys payload = ["meta"; "user"; "repos"; "readme"; "commit_history"]
     /\ keys meta = ["username"; "fetched_at"; "source"; "cache_ttl_minutes"]
     /\ Js.getOpt meta "username" = VStr (GITHUB_USERNAME cfg)
     /\ Js.getOpt meta "fetched_at" = VStr (JsDate.toISOString now)
     /\ Js.getOpt meta "source" = VStr "github-api"
     /\ Js.getOpt meta "cache_ttl_minutes" = VNum (normalizedTtlMinutes cfg)
     /\ Js.getOpt payload "user" = user
     /\ Js.getOpt payload "repos" = repos
     /\ Js.getOpt payload "readme" = readme
     /\ Js.getOpt payload "commit_history" = commitHistory
     /\ (0 <= JsDate.getUTCFullYear now <= 9999 -> isoShape (JsDate.toISOString now) = true))
  /\ (forall now snapshot payload,
        buildFallbackPayloadFromSnapshot h cfg now snapshot = Ok (Some payload) ->
        exists user repos readme commitHistory,
          payload = buildPayload cfg now user repos readme commitHistory)
  /\ (forall now s turns s' tr payload,
        play (fetchFreshPayload h cfg) now s turns = Some (s', tr, Done (Ok payload)) ->
        exists t user repos readme commitHistory,
          payload = buildPayload cfg t user repos readme commitHistory).
Proof.
  split; [|split].
  - intros now user repos readme commitHistory payload meta.
    repeat split; try reflexivity; apply toISOString_shape; assumption.
  - intros now snapshot payload Hfb.
    destruct (buildFallback_payload h cfg _ _ _ Hfb) as (items & user & repos & _ & _ & ->).
    eauto.
  - intros now s turns s' tr payload Hplay.
    refine (always_play
              (fun r => forall v, r = Ok v -> exists t user repos readme commitHistory,
                          v = buildPayload cfg t user repos readme commitHistory)
              _ _ _ _ _ _ _ _ Hplay payload eq_refl).
    unfold fetchFreshPayload, always. constructor. intros rs. cbn [orb].
    destruct rs as [|r1 [|r2 [|r3 [|r4 rs]]]]; try (constructor; discriminate).
    assert (Hbind : forall (A : Type) (P : prog A) (f : A -> prog value) G,
              quiet P -> (forall a, always G (f a)) ->
              (forall e, G (Err e)) -> always G (bind P f)).
    { intros A P f G HP Hf He. apply always_attempt; [now apply always_quiet|].
      intros [a|e]; [apply Hf | constructor; intros _; apply He]. }
    assert (Herr : forall e v, @Err value e = Ok v ->
              exists t user repos readme commitHistory,
                v = buildPayload cfg t user repos readme commitHistory) by discriminate.
    apply Hbind; [apply quiet_afterFetch | intros userResponse | exact Herr].
    apply Hbind; [apply quiet_afterFetch | intros reposResponse | exact Herr].
    apply Hbind; [apply quiet_afterFetch | intros readmeResponse | exact Herr].
    destruct reposResponse; try (constructor; discriminate).
    apply Hbind; [apply quiet_lift | intros encoding | exact Herr].
    destruct encoding; try (constructor; discriminate).
    destruct (Js.getOpt readmeResponse "content"); try (constructor; discriminate).
    destruct (String.eqb _ _); [|constructor; discriminate].
    constructor. intros now0.
    apply always_attempt;
      [apply always_quiet, quiet_awaitCall, quiet_fetchCommitHistory | intros fetched].
    apply Hbind; [apply quiet_lift | intros normalized | exact Herr].
    apply Hbind; [apply quiet_lift | intros user | exact Herr].
    constructor. intros t. constructor. intros _ v [= <-]. eauto 10.
Qed.

(** C1.  Single flight.  In every world the event loop reaches from the
    start, whatever read requests, manual refreshes, scheduler ticks and
    warm-ups arrive and however their operations are answered:
    at most one refresh body is in flight; while one is in flight no step
    starts another; and a promise that has settled keeps its outcome, so
    that every caller awaiting it is handed the same snapshot or the same
    exception.  For [refreshCache] itself: a caller that finds
    [refreshPromise] set starts nothing and awaits that promise, whose
    outcome it passes on; a caller that finds it empty starts one body,
    stores its promise, awaits it, and once resumed clears
    [refreshPromise] and passes the outcome on, be it a value or an
    exception. *)
Theorem refreshCache_single_flight (h : host) (cfg : config) (kept : gmap string text)
    (evs : list event) (w : world) :
  steps h cfg evs (initial kept) = Some w ->
  (inFlight w <= 1)%nat
  /\ (forall ev w', (0 < inFlight w)%nat -> step h cfg ev w = Some w' ->
        promiseCount (shared w') = promiseCount (shared w))
  /\ (forall ev w' p r, settled w !! p = Some r -> step h cfg ev w = Some w' ->
        settled w' !! p = Some r)
  /\ (forall now s p, refreshPromise s = Some p ->
        run (refreshCache h cfg) now s = (s, [Asked (Await p)], Waiting (Await p) lift))
  /\ (forall now s, refreshPromise s = None ->
        let p := promiseCount s in
        exists tr stb k,
          run (refreshCache h cfg) now s =
            (withRefreshPromise (Some p) (withPromiseCount (S p) s), tr, Waiting (Await p) k)
          /\ calls tr = [(p, stb)]
          /\ forall r now' s',
               run (k r) now' s' = (withRefreshPromise None s', [WroteRefreshPromise None], Done r)).
Proof.
  intros Hsteps.
  pose proof (steps_consistent h cfg evs _ _ (consistent_initial kept) Hsteps) as C.
  split; [exact (inFlight_at_most_one w C)|].
  split.
  { intros ev w' Hf Hstep.
    destruct (step_consistent h cfg ev w w' C Hstep) as [_ [[H|[H _]] _]]; [exact H|].
    destruct (inFlight_refresh w Hf H). }
  split.
  { intros ev w' p r Hs Hstep.
    destruct (step_consistent h cfg ev w w' C Hstep) as [_ [_ Hsub]].
    exact (lookup_weaken _ _ _ _ Hs Hsub). }
  split.
  { intros now s p Hp. simpl. rewrite Hp. reflexivity. }
  intros now s Hp p. simpl. rewrite Hp.
  eexists _, _, _. split; [reflexivity|]. split; [reflexivity|].
  intros [v|e] now' s'; reflexivity.
Qed.

(** The sample run: three callers and one refresh, followed to its end. *)
Lemma refreshCache_single_flight_witness :
  steps Sample.plainHost Sample.memoryConfig Sample.events (initial ∅) = Some Sample.reached
  /\ (inFlight Sample.reached <= 1)%nat.
Proof.
  assert (H : steps Sample.plainHost Sample.memoryConfig Sample.events (initial ∅)
              = Some Sample.reached) by (vm_compute; reflexivity).
  split; [exact H|].
  exact (proj1 (refreshCache_single_flight Sample.plainHost Sample.memoryConfig ∅
                  Sample.events Sample.reached H)).
Defined.

(** Three callers, one refresh: while it is in flight one body has been
    started, and at the end the two requests have been sent the same
    snapshot. *)
Example joined_inFlight :
  inFlight Sample.during = 1%nat
  /\ promiseCount (shared Sample.during) = 1%nat
  /\ inFlight Sample.reached = 0%nat
  /\ promiseCount (shared Sample.reached) = 1%nat
  /\ refreshPromise (shared Sample.reached) = None
  /\ sent (Some Sample.reached) = [(2%nat, Ok (200, Some REFRESH)); (0%nat, Ok (200, Some MISS))]
  /\ map (fun it => match snd it with Ok rep => json rep | Err _ => VNull end)
       (replies Sample.reached)
     = [inMemoryCache (shared Sample.reached); inMemoryCache (shared Sample.reached)].
Proof. repeat split; vm_compute; reflexivity. Qed.

Import Sample.


Import Scenario.

(** C2, as the specification states it, fails with a connected Redis
    client.  Nothing is cached, the refresh fails, and a fallback snapshot
    is built from the snapshot file; Redis refuses its [SET], and the
    exception leaves the handler: the request is sent neither the snapshot
    with status FALLBACK nor the 503 message, and nothing is stored.  The
    same run with a [SET] that succeeds is answered with status FALLBACK. *)
Lemma degrades_counterexample :
  buildFallbackPayloadFromSnapshot plainHost redisConfig clock (snapshotValue snapshotFile)
  = Ok (Some fallbackPayload)
  /\ sent (steps plainHost redisConfig fallbackRefused (initial ∅)) = [(0%nat, Err RedisError)]
  /\ option_map (fun w => (redis w !! cacheKey redisConfig, inMemoryCache (shared w)))
       (steps plainHost redisConfig fallbackRefused (initial ∅))
     = Some (None, VNull)
  /\ sent (steps plainHost redisConfig fallbackStored (initial ∅))
     = [(0%nat, Ok (200, Some FALLBACK))].
Proof. repeat split; vm_compute; reflexivity. Qed.


(** Nothing cached, no snapshot file, GitHub out of reach: the request is
    answered 503 and the store is as empty as before. *)
Example unavailable_leaves_store_empty :
  sent (steps plainHost memoryConfig noFile (initial ∅)) = [(0%nat, Ok (503, None))]
  /\ option_map (store memoryConfig) (steps plainHost memoryConfig noFile (initial ∅))
     = Some (InMemory VNull).
Proof. split; vm_compute; reflexivity. Qed.

Section Store.

Context (h : host) (cfg : config).

Local Opaque buildFallbackPayloadFromSnapshot isPayloadFresh jsonImage.


End Store.


(** Nothing cached, the refresh fails on the network, and the snapshot file
    holds one repository: the reply has status FALLBACK. *)
Lemma get_path_degrades_in_order_witness :
  play (awaitCall (readCachedPayload memoryConfig)) clock start [Turn ATurn clock start]
  = Some (start, [Asked Yield], Done (Ok VNull))
  /\ Js.truthy VNull && isPayloadFresh plainHost memoryConfig clock VNull = false
  /\ Js.truthy VNull = false
  /\ buildFallbackPayloadFromSnapshot plainHost memoryConfig clock (snapshotValue snapshotFile)
     = Ok (Some fallbackPayload)
  /\ exists s' tr,
       play (getDashboard plainHost memoryConfig) clock start
         (([Turn ATurn clock start]
           ++ settleTurns (Err NetworkError) clock start clock start
           ++ fileTurns snapshotFile clock start clock start)
          ++ storeTurns memoryConfig clock start clock start)
       = Some (s', tr, Done (Ok (sendJson (Some FALLBACK) fallbackPayload)))
       /\ writes tr = storeWrites memoryConfig fallbackPayload.
Proof.
  assert (H0 : play (awaitCall (readCachedPayload memoryConfig)) clock start
                 [Turn ATurn clock start]
               = Some (start, [Asked Yield], Done (Ok VNull))) by reflexivity.
  assert (H1 : Js.truthy VNull && isPayloadFresh plainHost memoryConfig clock VNull = false)
    by reflexivity.
  assert (H2 : buildFallbackPayloadFromSnapshot plainHost memoryConfig clock
                 (snapshotValue snapshotFile) = Ok (Some fallbackPayload))
    by (vm_compute; reflexivity).
  split; [exact H0|]. split; [exact H1|]. split; [reflexivity|]. split; [exact H2|].
  exact (proj1 (proj2 (proj2 (proj2 (proj2 (proj2
           (get_path_degrades_in_order plainHost memoryConfig clock start
              [Turn ATurn clock start] start [Asked Yield] VNull H0 H1)
           clock start clock start))
           NetworkError snapshotFile clock start clock start eq_refl))
           fallbackPayload H2) clock start clock start).
Defined.




(** GitHub answers the three required requests and refuses the events. *)
Lemma snapshot_builder_fails_as_a_unit_witness :
  received (okResponse userJson) = Some userJson
  /\ received (okResponse (VArr [repoJson])) = Some (VArr [repoJson])
  /\ received (okResponse readmeJson) = Some readmeJson
  /\ play (awaitCall (fetchCommitHistory plainHost memoryConfig
             (GITHUB_USERNAME memoryConfig) (normalizedHistoryDays memoryConfig)))
       clock start historyTurns
     = Some (fst (fst failedHistory), snd (fst failedHistory), Done (Err (snd failedHistory)))
  /\ length (buildEmptyCommitHistory clock (normalizedHistoryDays memoryConfig))
     = Z.to_nat (normalizedHistoryDays memoryConfig).
Proof.
  assert (H : play (awaitCall (fetchCommitHistory plainHost memoryConfig
                      (GITHUB_USERNAME memoryConfig) (normalizedHistoryDays memoryConfig)))
                clock start historyTurns
              = Some (fst (fst failedHistory), snd (fst failedHistory),
                      Done (Err (snd failedHistory)))) by (vm_compute; reflexivity).
  split; [reflexivity|]. split; [reflexivity|]. split; [reflexivity|]. split; [exact H|].
  exact (proj1 (proj2 (proj2 (snapshot_builder_fails_as_a_unit plainHost memoryConfig)
           (okResponse userJson) (okResponse (VArr [repoJson])) (okResponse readmeJson)
           userJson [repoJson] readmeJson "aGVsbG8="
           (match normalizeUser userJson with Ok u => u | Err _ => VNull end)
           (match rmap normalizeRepo [repoJson] with Ok l => l | Err _ => [] end)
           clock start clock start historyTurns _ _ _
           eq_refl eq_refl eq_refl eq_refl eq_refl eq_refl eq_refl H))).
Defined.

(** No snapshot file. *)
Lemma fallback_loader_fails_cleanly_witness :
  unusable (Err FileError)
  /\ buildFallbackPayloadFromSnapshot plainHost memoryConfig clock (snapshotValue (Err FileError))
     = Ok None.
Proof.
  split; [exact I|].
  exact (proj1 (proj2 (fallback_loader_fails_cleanly plainHost memoryConfig))
           (Err FileError) clock I).
Defined.

(** The time of the sample clock. *)
Lemma snapshot_shape_witness :
  0 <= JsDate.getUTCFullYear clock <= 9999
  /\ isoShape (JsDate.toISOString clock) = true.
Proof.
  assert (H : 0 <= JsDate.getUTCFullYear clock <= 9999) by (vm_compute; split; discriminate).
  split; [exact H|].
  exact (proj2 (proj2 (proj2 (proj2 (proj2 (proj2 (proj2 (proj2 (proj2 (proj2
           (proj1 (snapshot_shape plainHost memoryConfig) clock VNull VNull VNull VNull)
           ))))))))) H).
Defined.


(* ===================================================================== *)
(** * Beyond the coordinator: the helpers, the requests, the store *)
(* ===================================================================== *)

(** ** Sorting the repositories *)

Lemma sortInsert_perm cmp x l : Permutation (sortInsert cmp x l) (x :: l).
Proof.
  induction l as [|y r IH]; simpl; [reflexivity|].
  destruct (cmp x y) as [c|]; [destruct (c <? 0)|]; try reflexivity;
    rewrite IH; apply perm_swap.
Qed.

Lemma fold_sortInsert_perm cmp l : forall acc,
  Permutation (fold_left (fun acc x => sortInsert cmp x acc) l acc) (l ++ acc).
Proof.
  induction l as [|x l IH]; intros acc; simpl; [reflexivity|].
  rewrite IH, sortInsert_perm. symmetry. apply Permutation_middle.
Qed.

Lemma sortBy_perm cmp l : Permutation (sortBy cmp l) l.
Proof. unfold sortBy. rewrite fold_sortInsert_perm, app_nil_r. reflexivity. Qed.

Section Sorting.

Context (h : host).

Lemma byPushedAtDesc_parsed a b ta tb :
  pushedAt h a = Some ta -> pushedAt h b = Some tb ->
  byPushedAtDesc h a b = Some (tb - ta).
Proof. unfold pushedAt, byPushedAtDesc. intros -> ->. reflexivity. Qed.

Lemma sortInsert_sorted x l :
  pushedAt h x <> None -> Forall (fun v => pushedAt h v <> None) l ->
  StronglySorted (notOlder h) l ->
  StronglySorted (notOlder h) (sortInsert (byPushedAtDesc h) x l).
Proof.
  intros Hx Hl Hs. induction Hs as [|y r Hs IH Hy]; simpl.
  - repeat constructor.
  - inversion Hl as [|? ? Hyp Hr]; subst.
    destruct (pushedAt h x) as [tx|] eqn:Ex; [|contradiction].
    destruct (pushedAt h y) as [ty|] eqn:Ey; [|contradiction].
    rewrite (byPushedAtDesc_parsed x y tx ty Ex Ey).
    destruct (ty - tx <? 0) eqn:Ec.
    + apply Z.ltb_lt in Ec. constructor; [constructor; assumption|].
      constructor.
      * exists tx, ty. repeat split; try assumption. lia.
      * eapply Forall_impl; [exact Hy|].
        intros z (ty' & tz & E1 & E2 & Hle). exists tx, tz.
        rewrite Ey in E1. injection E1 as <-. repeat split; try assumption. lia.
    + apply Z.ltb_ge in Ec. constructor; [apply IH; assumption|].
      assert (Hperm := sortInsert_perm (byPushedAtDesc h) x r).
      refine (Permutation_Forall (Permutation_sym Hperm) _).
      constructor; [|exact Hy].
      exists ty, tx. repeat split; try assumption. lia.
Qed.

Lemma fold_sortInsert_sorted l : forall acc,
  Forall (fun v => pushedAt h v <> None) l ->
  Forall (fun v => pushedAt h v <> None) acc ->
  StronglySorted (notOlder h) acc ->
  StronglySorted (notOlder h) (fold_left (fun acc x => sortInsert (byPushedAtDesc h) x acc) l acc).
Proof.
  induction l as [|x l IH]; intros acc Hl Hacc Hs; simpl; [exact Hs|].
  inversion Hl as [|? ? Hx Hl']; subst.
  apply IH; [assumption| |now apply sortInsert_sorted].
  refine (Permutation_Forall (Permutation_sym (sortInsert_perm _ x acc)) _).
  now constructor.
Qed.

(** X1.  The sort by [pushed_at] of [fetchFreshPayload] and of
    [buildFallbackPayloadFromSnapshot] loses and invents no repository: the
    result is a permutation of the list, of the same length.  When every
    [pushed_at] parses, the result is in descending order of the time of
    the last push. *)
Theorem sortBy_pushed_at (l : list value) :
  Permutation (sortBy (byPushedAtDesc h) l) l
  /\ length (sortBy (byPushedAtDesc h) l) = length l
  /\ (Forall (fun repo => pushedAt h repo <> None) l ->
      StronglySorted (notOlder h) (sortBy (byPushedAtDesc h) l)).
Proof.
  split; [apply sortBy_perm|]. split; [apply Permutation_length, sortBy_perm|].
  intros Hl. unfold sortBy. apply fold_sortInsert_sorted; [assumption|constructor|constructor].
Qed.

End Sorting.

(** ** Normalising users and repositories *)

Lemma orElse_orElse v : Js.orElse (Js.orElse v VNull) VNull = Js.orElse v VNull.
Proof. destruct v; reflexivity. Qed.

Lemma orElse_defined v : Js.orElse v VNull <> VUndefined.
Proof. destruct v; discriminate. Qed.

Lemma get_defined v k : Js.nullish v = false -> Js.get v k = Ok (Js.getOpt v k).
Proof. destruct v; try discriminate; reflexivity. Qed.

Lemma get_nullish v k : Js.nullish v = true -> Js.get v k = Err TypeError.
Proof. destruct v; try discriminate; reflexivity. Qed.

Lemma normalizeRepo_nullish repo :
  Js.nullish repo = true -> normalizeRepo repo = Err TypeError.
Proof. intros Hn. unfold normalizeRepo. rewrite (get_nullish _ _ Hn). reflexivity. Qed.

Lemma normalizeRepo_defined repo :
  Js.nullish repo = false -> exists n, normalizeRepo repo = Ok n.
Proof.
  intros Hn. unfold normalizeRepo. rewrite !(get_defined _ _ Hn). cbn [rbind].
  eexists. reflexivity.
Qed.

(** X2.  [normalizeRepo] throws a [TypeError] for [null] and [undefined].
    Of any other value it makes an object with the thirteen properties of a
    repository, in the order of the source: [pushed_at] is the given one,
    [description] and [language] are never [undefined], [topics] is an
    array, [archived] is the truth value of the given one; and normalising
    the result again changes nothing. *)
Theorem normalizeRepo_normal (repo : value) :
  (Js.nullish repo = true -> normalizeRepo repo = Err TypeError)
  /\ (Js.nullish repo = false ->
      exists n,
        normalizeRepo repo = Ok n
        /\ keys n = [ "id"; "name"; "html_url"; "description"; "created_at"; "updated_at";
                      "pushed_at"; "language"; "stargazers_count"; "open_issues_count";
                      "forks_count"; "topics"; "archived" ]
        /\ Js.getOpt n "pushed_at" = Js.getOpt repo "pushed_at"
        /\ Js.getOpt n "description" <> VUndefined
        /\ Js.getOpt n "language" <> VUndefined
        /\ Js.isArray (Js.getOpt n "topics") = true
        /\ Js.getOpt n "archived" = VBool (Js.truthy (Js.getOpt repo "archived"))
        /\ normalizeRepo n = Ok n).
Proof.
  split.
  - intros Hn. unfold normalizeRepo. rewrite (get_nullish _ _ Hn). reflexivity.
  - intros Hn. unfold normalizeRepo. rewrite !(get_defined _ _ Hn). cbn [rbind].
    eexists. split; [reflexivity|]. cbn [keys map fst].
    split; [reflexivity|]. split; [reflexivity|].
    split; [apply orElse_defined|]. split; [apply orElse_defined|].
    split; [cbn; destruct (Js.isArray (Js.getOpt repo "topics")) eqn:E; [exact E|reflexivity]|].
    split; [reflexivity|].
    cbn. rewrite !orElse_orElse.
    destruct (Js.isArray (Js.getOpt repo "topics")) eqn:E; [rewrite E|]; cbn;
      destruct (Js.truthy (Js.getOpt repo "archived")); reflexivity.
Qed.

(** X3.  [normalizeUser] throws a [TypeError] for [null] and [undefined].
    Of any other value it makes an object with the eight properties of a
    user, in the order of the source: [login] is the given one, [name] and
    [bio] are never [undefined]; and normalising the result again changes
    nothing. *)
Theorem normalizeUser_normal (user : value) :
  (Js.nullish user = true -> normalizeUser user = Err TypeError)
  /\ (Js.nullish user = false ->
      exists n,
        normalizeUser user = Ok n
        /\ keys n = [ "login"; "avatar_url"; "html_url"; "name"; "bio"; "followers";
                      "following"; "public_repos" ]
        /\ Js.getOpt n "login" = Js.getOpt user "login"
        /\ Js.getOpt n "name" <> VUndefined
        /\ Js.getOpt n "bio" <> VUndefined
        /\ normalizeUser n = Ok n).
Proof.
  split.
  - intros Hn. unfold normalizeUser. rewrite (get_nullish _ _ Hn). reflexivity.
  - intros Hn. unfold normalizeUser. rewrite !(get_defined _ _ Hn). cbn [rbind].
    eexists. split; [reflexivity|]. cbn [keys map fst].
    split; [reflexivity|]. split; [reflexivity|].
    split; [apply orElse_defined|]. split; [apply orElse_defined|].
    cbn. rewrite !orElse_orElse. reflexivity.
Qed.

(** ** Requests to GitHub *)

Lemma append_nil_r (s : string) : s +:+ "" = s.
Proof.
  induction s as [|c s IH]; [reflexivity|].
  change (String c (s +:+ "") = String c s). now rewrite IH.
Qed.

Lemma play_done {A : Type} (r : result A) (P : prog A) now s turns s' tr st :
  run P now s = (s, [], Done r) ->
  play P now s turns = Some (s', tr, st) ->
  turns = [] /\ s' = s /\ tr = [] /\ st = Done r.
Proof.
  intros Hrun. unfold play. rewrite Hrun.
  destruct turns as [|t rest]; simpl; [intros [= <- <- <-]; auto|discriminate].
Qed.

Section Requests.

Context (h : host) (cfg : config).

Lemma afterFetch_rejects resp t1 s1 t2 s2 :
  ok resp = false ->
  play (afterFetch (Ok resp)) t1 s1 [Turn ATurn t2 s2]
  = Some (s2, [Asked Yield],
          Done (Err (Error (failureHead resp +:+
                              match bodyMessage resp with Some m => " - " +:+ m | None => "" end)))).
Proof.
  intros Hok. unfold play, afterFetch, failureHead, bodyMessage. rewrite Hok. simpl.
  destruct (body resp) as [payload|e]; [|rewrite !append_assoc; reflexivity].
  destruct (Js.getOpt payload "message") as [| | | |m| |]; try (rewrite !append_assoc; reflexivity).
  simpl. destruct (String.eqb m ""); simpl; rewrite !append_assoc; reflexivity.
Qed.

(** X4.  The outcomes of [githubRequest].  The [Authorization] header is
    left out exactly when [GITHUB_TOKEN] is empty.  A failure of [fetch]
    leaves the function as it came.  For a response that is ok, the outcome
    is that of [response.json()].  For a response that is not ok the
    function reads the body and throws an [Error] with the message
    [GitHub request failed: <status> <statusText>], followed by [ - ] and
    the [message] of the body when that is a string that is not empty.  A
    value is returned only for a response that is ok. *)
Theorem githubRequest_outcomes (pathname : string) (now : Z) (s : srv) :
  let url := GITHUB_API_BASE +:+ pathname in
  let ask := Asked (Fetch url (authorization cfg)) in
  (authorization cfg = None <-> GITHUB_TOKEN cfg = "")
  /\ (forall e t1 s1,
        play (githubRequest cfg pathname) now s [Turn (AResponse (Err e)) t1 s1]
        = Some (s1, [ask], Done (Err e)))
  /\ (forall resp t1 s1, ok resp = true ->
        play (githubRequest cfg pathname) now s [Turn (AResponse (Ok resp)) t1 s1]
        = Some (s1, [ask], Done (body resp)))
  /\ (forall resp t1 s1 t2 s2, ok resp = false ->
        exists msg,
          play (githubRequest cfg pathname) now s
            [Turn (AResponse (Ok resp)) t1 s1; Turn ATurn t2 s2]
          = Some (s2, [ask; Asked Yield], Done (Err (Error msg)))
          /\ match bodyMessage resp with
             | Some m => msg = failureHead resp +:+ " - " +:+ m
             | None => msg = failureHead resp
             end)
  /\ (forall turns s' tr v,
        play (githubRequest cfg pathname) now s turns = Some (s', tr, Done (Ok v)) ->
        exists resp t1 s1,
          turns = [Turn (AResponse (Ok resp)) t1 s1] /\ ok resp = true /\ body resp = Ok v).
Proof.
  intros url ask. split; [|split; [|split; [|split]]].
  - unfold authorization. destruct (String.eqb (GITHUB_TOKEN cfg) "") eqn:E.
    + apply String.eqb_eq in E. tauto.
    + apply String.eqb_neq in E. split; [discriminate|contradiction].
  - reflexivity.
  - intros resp t1 s1 Hok. unfold play, githubRequest, afterFetch. simpl. rewrite Hok. simpl.
    destruct (body resp); reflexivity.
  - intros resp t1 s1 t2 s2 Hok. unfold githubRequest. rewrite play_io. simpl coerce.
    cbv iota beta. cbn [at_ found given Turn].
    rewrite (afterFetch_rejects resp t1 s1 t2 s2 Hok).
    eexists. split; [reflexivity|].
    destruct (bodyMessage resp); [reflexivity|apply append_nil_r].
  - intros turns s' tr v. unfold githubRequest.
    destruct turns as [|[a t1 s1] rest]; [discriminate|].
    rewrite play_io. cbn [given at_ found].
    destruct a as [r| | | | | |]; simpl coerce; try discriminate. cbv iota beta.
    destruct (play (afterFetch r) t1 s1 rest) as [[[s2 tr2] st2]|] eqn:Hplay; [|discriminate].
    intros [= -> <- ->].
    destruct r as [resp|e].
    + unfold afterFetch in Hplay. destruct (ok resp) eqn:Hok; simpl in Hplay.
      * destruct (body resp) as [v'|e'] eqn:Hb; simpl in Hplay;
          (eapply play_done in Hplay; [|reflexivity]);
          destruct Hplay as (-> & _ & _ & [= E]); subst.
        exists resp, t1, s1. auto.
      * exfalso. revert Hplay. unfold play. simpl.
        destruct rest as [|[a2 t2 s2] rest]; simpl; [discriminate|].
        destruct a2; simpl; try discriminate.
        destruct rest; simpl; discriminate.
    + simpl in Hplay. eapply play_done in Hplay; [|reflexivity].
      destruct Hplay as (_ & _ & _ & [=]).
Qed.

End Requests.

(** ** Counting the events of a page *)

Lemma eventCommits_positive event : 1 <= eventCommits event.
Proof. unfold eventCommits. lia. Qed.

Lemma tally_nonneg h rs d events : 0 <= tally h rs d events.
Proof.
  induction events as [|event rest IH]; simpl; [lia|].
  pose proof (eventCommits_positive event). destruct (decide _); lia.
Qed.

Section Counting.

Context (h : host) (rangeStart : option Z).

Lemma countEvent_nullish acc event :
  Js.nullish event = true -> countEvent h rangeStart acc event = Err TypeError.
Proof.
  intros Hn. unfold countEvent. destruct acc as [m f]. now rewrite (get_nullish _ _ Hn).
Qed.

(** One event: the count of its day grows, if the day is in the history. *)
Lemma countEvent_defined m f event :
  Js.nullish event = false ->
  exists m',
    countEvent h rangeStart (m, f) event
    = Ok (m', f || match eventTime h event with
                   | Some t => olderThan rangeStart t
                   | None => false
                   end)
    /\ forall d, m' !! d
         = (fun n => n + (if decide (pushDay h rangeStart event = Some d)
                          then eventCommits event else 0)) <$> m !! d.
Proof.
  intros Hn. unfold countEvent, pushDay, eventTime. rewrite (get_defined _ _ Hn). cbn [rbind].
  assert (Hid : forall d (c : Z) (o : option string), o = None ->
            m !! d = (fun n => n + (if decide (o = Some d) then c else 0)) <$> m !! d).
  { intros d c o ->. destruct (decide _) as [F|_]; [discriminate|].
    destruct (m !! d); simpl; [f_equal; lia|reflexivity]. }
  destruct (Date_parse h (Js.getOpt event "created_at")) as [t|].
  - fold (olderThan rangeStart t). destruct (olderThan rangeStart t) eqn:Eo.
    + exists m. rewrite orb_true_r. split; [reflexivity|]. intros d. now apply Hid.
    + rewrite orb_false_r.
      destruct (Js.getOpt event "type") as [| | | |ty| |];
        try (exists m; split; [reflexivity|]; intros d; now apply Hid).
      destruct (String.eqb ty "PushEvent");
        [|exists m; split; [reflexivity|]; intros d; now apply Hid].
      destruct (m !! formatUtcDate t) as [n|] eqn:Em.
      * eexists. split; [reflexivity|]. intros d.
        destruct (decide (Some (formatUtcDate t) = Some d)) as [[= <-]|Hne].
        -- rewrite lookup_insert_eq, Em. reflexivity.
        -- rewrite lookup_insert_ne by congruence.
           destruct (m !! d); simpl; [f_equal; lia|reflexivity].
      * exists m. split; [reflexivity|]. intros d.
        destruct (decide (Some (formatUtcDate t) = Some d)) as [[= <-]|Hne].
        -- rewrite Em. reflexivity.
        -- destruct (m !! d); simpl; [f_equal; lia|reflexivity].
  - exists m. rewrite orb_false_r. split; [reflexivity|]. intros d. now apply Hid.
Qed.

Lemma countEvents_defined events : forall m f,
  Forall (fun event => Js.nullish event = false) events ->
  exists m',
    countEvents h rangeStart (m, f) events = Ok (m', f || reachesOlder h rangeStart events)
    /\ forall d, m' !! d = (fun n => n + tally h rangeStart d events) <$> m !! d.
Proof.
  induction events as [|event rest IH]; intros m f Hall.
  - exists m. simpl. rewrite orb_false_r. split; [reflexivity|].
    intros d. destruct (m !! d); simpl; [f_equal; lia|reflexivity].
  - inversion Hall as [|? ? Hev Hrest]; subst.
    destruct (countEvent_defined m f event Hev) as (m1 & E1 & H1).
    destruct (IH m1 (f || match eventTime h event with
                         | Some t => olderThan rangeStart t
                         | None => false
                         end) Hrest) as (m2 & E2 & H2).
    exists m2. split.
    + cbn [countEvents]. rewrite E1. cbn [rbind]. rewrite E2. cbn [reachesOlder existsb].
      now rewrite orb_assoc.
    + intros d. rewrite H2, H1. destruct (m !! d); simpl; [f_equal; lia|reflexivity].
Qed.

Lemma countEvents_nullish events : forall acc,
  Exists (fun event => Js.nullish event = true) events ->
  countEvents h rangeStart acc events = Err TypeError.
Proof.
  induction events as [|event rest IH]; intros [m f] Hex; [inversion Hex|].
  cbn [countEvents]. destruct (Js.nullish event) eqn:Hn.
  - now rewrite (countEvent_nullish _ _ Hn).
  - destruct (countEvent_defined m f event Hn) as (m1 & -> & _). cbn [rbind].
    apply IH. inversion Hex as [? ? F|]; subst; [congruence|assumption].
Qed.


End Counting.

(** ** The history of the events *)

Lemma countEvents_ok h rangeStart events m f m' f' :
  countEvents h rangeStart (m, f) events = Ok (m', f') ->
  forall d, m' !! d = (fun n => n + tally h rangeStart d events) <$> m !! d.
Proof.
  intros E.
  assert (Hdec : forall event : value,
            {Js.nullish event = false} + {Js.nullish event = true})
    by (intros event; destruct (Js.nullish event); [right|left]; reflexivity).
  destruct (Forall_Exists_dec (fun event => Js.nullish event = false)
              (fun event => Js.nullish event = true) Hdec events) as [Hall|Hex].
  - destruct (countEvents_defined h rangeStart events m f Hall) as (m1 & E1 & H1).
    rewrite E in E1. injection E1 as -> _. exact H1.
  - rewrite (countEvents_nullish h rangeStart events (m, f) Hex) in E. discriminate.
Qed.

Lemma countEvents_countsFrom h rangeStart events m f m' f' low :
  countEvents h rangeStart (m, f) events = Ok (m', f') ->
  countsFrom low m -> countsFrom low m'.
Proof.
  intros E Hm d n Hd. rewrite (countEvents_ok _ _ _ _ _ _ _ E) in Hd.
  destruct (m !! d) as [n0|] eqn:E0; [|discriminate]. simpl in Hd. injection Hd as <-.
  pose proof (Hm d n0 E0). pose proof (tally_nonneg h rangeStart d events). lia.
Qed.

(** The map of the history at the start: every date with count zero. *)
Lemma list_to_map_zero (l : list CommitDayActivity) :
  Forall (fun d => commit_count d = 0) l ->
  forall k n,
    (list_to_map (map (fun day => (date day, commit_count day)) l) : gmap string Z) !! k = Some n ->
    n = 0.
Proof.
  induction 1 as [|d l Hd Hl IH]; intros k n; simpl.
  - rewrite lookup_empty. discriminate.
  - destruct (decide (date d = k)) as [->|Hne].
    + rewrite lookup_insert_eq. intros [= <-]. exact Hd.
    + rewrite lookup_insert_ne by exact Hne. apply IH.
Qed.

(** The history read off the map keeps the dates. *)
Lemma filled_history (base : list CommitDayActivity) (m : gmap string Z) :
  countsFrom 0 m ->
  let hist := map (fun day => {| date := date day;
                                 commit_count := default 0 (m !! date day) |}) base in
  map date hist = map date base /\ Forall (fun d => 0 <= commit_count d) hist.
Proof.
  intros Hm hist. subst hist. split.
  - rewrite map_map. reflexivity.
  - induction base as [|day base IH]; simpl; constructor; [|exact IH]. simpl.
    destruct (m !! date day) as [n|] eqn:E; simpl; [exact (Hm _ _ E)|lia].
Qed.

Section History.

Context (h : host) (cfg : config).

Lemma pagesLoop_countsFrom username rangeStart low left : forall page m,
  countsFrom low m ->
  always (fun r => forall m', r = Ok m' -> countsFrom low m')
    (pagesLoop h cfg username rangeStart left page m).
Proof.
  induction left as [|left IH]; intros page m Hm; cbn [pagesLoop].
  - constructor. intros _ m' [= <-]. exact Hm.
  - apply always_attempt; [apply always_quiet, quiet_awaitCall, quiet_githubRequest|].
    intros [events|e]; [|constructor; discriminate].
    destruct events as [| | | | |items|]; try (constructor; intros _ m' [= <-]; exact Hm).
    destruct items as [|event items]; [constructor; intros _ m' [= <-]; exact Hm|].
    destruct (countEvents h rangeStart (m, false) (event :: items)) as [[m1 f1]|e] eqn:E;
      [|constructor; discriminate].
    pose proof (countEvents_countsFrom _ _ _ _ _ _ _ _ E Hm) as Hm1.
    destruct f1; [constructor; intros _ m' [= <-]; exact Hm1|].
    apply IH. exact Hm1.
Qed.

Lemma fetchCommitHistory_after username days now :
  always (fun r => forall hist, r = Ok hist ->
            map date hist = map date (buildEmptyCommitHistory now days)
            /\ Forall (fun d => 0 <= commit_count d) hist)
    (match buildEmptyCommitHistory now days with
     | [] => Throw TypeError
     | first :: _ =>
         let rangeStart := Date_parse h (VStr (date first +:+ "T00:00:00.000Z")) in
         historyByDate' <- pagesLoop h cfg username rangeStart (maxPages days) 1
                             (list_to_map (map (fun day => (date day, commit_count day))
                                             (rev (buildEmptyCommitHistory now days)))) ;;
         Ret (map (fun day =>
                {| date := date day;
                   commit_count := default 0 (historyByDate' !! date day) |})
                (buildEmptyCommitHistory now days))
     end).
Proof.
  destruct (buildEmptyCommitHistory now days) as [|first rest] eqn:Eb;
    [constructor; discriminate|].
  cbv zeta. eapply always_attempt_gen.
  - apply (pagesLoop_countsFrom username _ 0).
    intros d n Hd. apply list_to_map_zero in Hd; [lia|].
    apply Forall_rev. rewrite <- Eb. apply historyLoop_zero.
  - intros [m'|e] Hm'; [|constructor; discriminate].
    constructor. intros _ hist [= <-].
    exact (filled_history (first :: rest) m' (Hm' m' eq_refl)).
Qed.

Lemma fetchCommitHistory_unfold username days :
  fetchCommitHistory h cfg username days =
  Now (fun now =>
    match buildEmptyCommitHistory now days with
    | [] => Throw TypeError
    | first :: _ =>
        let rangeStart := Date_parse h (VStr (date first +:+ "T00:00:00.000Z")) in
        historyByDate' <- pagesLoop h cfg username rangeStart (maxPages days) 1
                            (list_to_map (map (fun day => (date day, commit_count day))
                                            (rev (buildEmptyCommitHistory now days)))) ;;
        Ret (map (fun day =>
               {| date := date day;
                  commit_count := default 0 (historyByDate' !! date day) |})
               (buildEmptyCommitHistory now days))
    end).
Proof. reflexivity. Qed.

(** X6.  The history [fetchCommitHistory] returns has the dates of
    [buildEmptyCommitHistory(days)] in the same order, one entry per day,
    and no negative count.  When the first page is not an array, or is an
    empty one, the history returned is the empty history itself.  For
    [days <= 0] the function throws a [TypeError] before any request. *)
Theorem fetchCommitHistory_history (username : string) (days : Z) (now : Z) (s : srv) :
  (forall turns s' tr hist,
     play (fetchCommitHistory h cfg username days) now s turns = Some (s', tr, Done (Ok hist)) ->
     map date hist = map date (buildEmptyCommitHistory now days)
     /\ length hist = Z.to_nat days
     /\ Forall (fun d => 0 <= commit_count d) hist)
  /\ (forall events t1 s1 t2 s2, 0 < days -> lastPage events ->
        exists tr,
          play (fetchCommitHistory h cfg username days) now s
            [ Turn (AResponse (Ok {| ok := true; status := 200; statusText := "OK";
                                     body := Ok events |})) t1 s1;
              Turn ATurn t2 s2 ]
          = Some (s2, tr, Done (Ok (buildEmptyCommitHistory now days))))
  /\ (days <= 0 ->
        run (fetchCommitHistory h cfg username days) now s = (s, [], Done (Err TypeError))).
Proof.
  split; [|split].
  - intros turns s' tr hist Hplay.
    rewrite fetchCommitHistory_unfold, play_now in Hplay.
    destruct (always_play _ _ _ _ _ _ _ _ (fetchCommitHistory_after username days now) Hplay
                hist eq_refl) as [Hd Hc].
    split; [exact Hd|]. split; [|exact Hc].
    rewrite <- (length_map date), Hd, length_map. apply buildEmptyCommitHistory_length.
  - intros events t1 s1 t2 s2 Hdays Hlast.
    rewrite fetchCommitHistory_unfold, play_now.
    assert (Hbase : Forall (fun d => commit_count d = 0) (buildEmptyCommitHistory now days))
      by apply historyLoop_zero.
    assert (Hlen := buildEmptyCommitHistory_length now days).
    destruct (buildEmptyCommitHistory now days) as [|first rest] eqn:Eb;
      [simpl in Hlen; lia|].
    cbv zeta.
    assert (Hpages : exists left, maxPages days = S left).
    { unfold maxPages. repeat destruct (_ <=? _); eauto. }
    destruct Hpages as [left ->]. cbn [pagesLoop].
    set (m0 := (list_to_map (map (fun day => (date day, commit_count day)) (rev (first :: rest)))
                : gmap string Z)).
    assert (Hzero : map (fun day => {| date := date day;
                                      commit_count := default 0 (m0 !! date day) |})
                      (first :: rest) = first :: rest).
    { rewrite <- (map_id (first :: rest)) at 2. apply map_ext_Forall.
      eapply Forall_impl; [exact Hbase|]. intros [d c] Hc. simpl in *. subst c. f_equal.
      destruct (m0 !! d) as [n|] eqn:E; [|reflexivity]. simpl.
      apply (list_to_map_zero (rev (first :: rest))) in E; [exact E|].
      apply Forall_rev. exact Hbase. }
    unfold play, bind, awaitCall, githubRequest. simpl.
    cbn [map] in Hzero.
    destruct events as [| | | | |items|]; simpl; try (rewrite Hzero; eexists; reflexivity).
    destruct items as [|event items]; [|contradiction]. simpl.
    rewrite Hzero. eexists. reflexivity.
  - intros Hdays. rewrite fetchCommitHistory_unfold. simpl.
    unfold buildEmptyCommitHistory. replace (Z.to_nat days) with 0%nat by lia. reflexivity.
Qed.

End History.

(** ** The pages that are asked for *)

Lemma fetched_app tr1 tr2 : fetched (tr1 ++ tr2) = fetched tr1 ++ fetched tr2.
Proof.
  induction tr1 as [|a tr1 IH]; [reflexivity|].
  destruct a as [| | |e|]; simpl; try exact IH.
  destruct e; simpl; try exact IH. now rewrite IH.
Qed.

Lemma fetched_acknowledged e a : fetched (acknowledged e a) = [].
Proof. destruct e, a; try reflexivity. destruct r; reflexivity. Qed.

Lemma asksOnly_run {A : Type} (P : prog A) urls :
  asksOnly urls P ->
  forall now s s' tr st, run P now s = (s', tr, st) ->
  exists rest, urls = fetched tr ++ rest /\ asksOnlyP rest st.
Proof.
  induction 1 as [urls a|urls e|urls k Hk IH|urls k Hk IH|urls v k Hk IH|urls k Hk IH
                 |urls p k Hk IH|url auth rest k Hk IH|urls e k He Hk IH];
    intros now s s' tr st Hrun; simpl in Hrun.
  - injection Hrun as <- <- <-. exists urls. split; [reflexivity|exact I].
  - injection Hrun as <- <- <-. exists urls. split; [reflexivity|exact I].
  - eapply IH, Hrun.
  - eapply IH, Hrun.
  - destruct (run k now (withCache v s)) as [[s1 tr1] st1] eqn:E.
    injection Hrun as <- <- <-. apply (IH _ _ _ _ _ E).
  - eapply IH, Hrun.
  - destruct (run k now (withRefreshPromise p s)) as [[s1 tr1] st1] eqn:E.
    injection Hrun as <- <- <-. apply (IH _ _ _ _ _ E).
  - injection Hrun as <- <- <-. exists rest. split; [reflexivity|exact Hk].
  - injection Hrun as <- <- <-. exists urls. split; [|exact Hk].
    destruct e; try reflexivity. exfalso. eapply He. reflexivity.
Qed.

Lemma asksOnly_follow {A : Type} turns : forall (st : progress A) urls s s' tr st',
  asksOnlyP urls st ->
  follow st s turns = Some (s', tr, st') ->
  exists rest, urls = fetched tr ++ rest /\ asksOnlyP rest st'.
Proof.
  induction turns as [|t turns IH]; intros st urls s s' tr st' Hst Hf; simpl in Hf.
  - injection Hf as <- <- <-. exists urls. split; [reflexivity|exact Hst].
  - destruct st as [r|e k]; simpl in Hf; [discriminate|].
    destruct (coerce e (given t)) as [x|]; [|discriminate].
    destruct (run (k x) (at_ t) (found t)) as [[s1 tr1] st1] eqn:E.
    destruct (follow st1 s1 turns) as [[[s2 tr2] st2]|] eqn:F; [|discriminate].
    injection Hf as <- <- <-.
    destruct (asksOnly_run _ _ (Hst x) _ _ _ _ _ E) as (rest1 & -> & H1).
    destruct (IH _ _ _ _ _ _ H1 F) as (rest2 & -> & H2).
    exists rest2. split; [|exact H2].
    rewrite !fetched_app, fetched_acknowledged, <- app_assoc. reflexivity.
Qed.

(** The single requests of a task are the first of the list it keeps to. *)
Lemma asksOnly_play {A : Type} (P : prog A) urls now s turns s' tr st :
  asksOnly urls P ->
  play P now s turns = Some (s', tr, st) ->
  exists rest, urls = fetched tr ++ rest.
Proof.
  intros HP. unfold play.
  destruct (run P now s) as [[s1 tr1] st1] eqn:E.
  destruct (follow st1 s1 turns) as [[[s2 tr2] st2]|] eqn:F; [|discriminate].
  intros [= <- <- <-].
  destruct (asksOnly_run _ _ HP _ _ _ _ _ E) as (rest1 & -> & H1).
  destruct (asksOnly_follow _ _ _ _ _ _ _ H1 F) as (rest2 & -> & _).
  exists rest2. rewrite fetched_app, <- app_assoc. reflexivity.
Qed.

Lemma asksOnly_silent {A : Type} (P : prog A) urls : asksOnly [] P -> asksOnly urls P.
Proof.
  intros HP. remember [] as none eqn:Hn.
  induction HP; subst; try discriminate; constructor; auto.
Qed.

Lemma asksOnly_attempt {A B : Type} (P : prog A) (k : result A -> prog B) urls :
  asksOnly urls P -> (forall r, asksOnly [] (k r)) -> asksOnly urls (attempt P k).
Proof.
  intros HP Hk.
  induction HP; simpl; try (constructor; auto; fail); apply asksOnly_silent, Hk.
Qed.

Lemma asksOnly_then {A B : Type} (P : prog A) (k : result A -> prog B) urls :
  asksOnly [] P -> (forall r, asksOnly urls (k r)) -> asksOnly urls (attempt P k).
Proof.
  intros HP Hk. remember [] as none eqn:Hn.
  induction HP; subst; try discriminate; simpl; try (constructor; auto; fail); apply Hk.
Qed.

Lemma asksOnly_lift {A : Type} (r : result A) urls : asksOnly urls (lift r).
Proof. destruct r; constructor. Qed.

Lemma asksOnly_afterFetch r : asksOnly [] (afterFetch r).
Proof.
  unfold afterFetch. destruct r as [resp|e]; [|constructor].
  destruct (ok resp); simpl; [apply asksOnly_lift|].
  apply asksOnly_io; [discriminate|]. intros _. constructor.
Qed.

Section Pages.

Context (h : host) (cfg : config).

Lemma asksOnly_pagesLoop username rangeStart left : forall page m,
  asksOnly (map (pageUrl username) (pagesFrom page left))
    (pagesLoop h cfg username rangeStart left page m).
Proof.
  induction left as [|left IH]; intros page m; cbn [pagesLoop pagesFrom map]; [constructor|].
  unfold bind, awaitCall, githubRequest. cbn [attempt].
  apply asksOnly_fetch. intros x.
  apply asksOnly_then.
  - apply asksOnly_then; [apply asksOnly_afterFetch|].
    intros r. apply asksOnly_io; [discriminate|]. intros _. apply asksOnly_lift.
  - intros [events|e]; [|constructor].
    destruct events as [| | | | |items|]; try constructor.
    destruct items as [|event items]; [constructor|].
    destruct (countEvents h rangeStart (m, false) (event :: items)) as [[m1 f1]|e];
      [|constructor].
    destruct f1; [constructor|apply IH].
Qed.

Lemma asksOnly_fetchCommitHistory username days :
  asksOnly (map (pageUrl username) (pagesFrom 1 (maxPages days)))
    (fetchCommitHistory h cfg username days).
Proof.
  rewrite fetchCommitHistory_unfold. constructor. intros now.
  destruct (buildEmptyCommitHistory now days); [constructor|]. cbv zeta.
  apply asksOnly_attempt; [apply asksOnly_pagesLoop|].
  intros [m|e]; constructor.
Qed.

Lemma pagesFrom_length page n : length (pagesFrom page n) = n.
Proof. revert page. induction n as [|n IH]; intros page; simpl; [reflexivity|now rewrite IH]. Qed.

(** X7.  Whatever the answers, the requests [fetchCommitHistory] has made
    at any point are the first of the pages 1, 2, ..., [maxPages] of the
    public events of the user, in this order: never more than [maxPages],
    which is at most ten, and at most three for thirty days or fewer. *)
Theorem fetchCommitHistory_requests (username : string) (days now : Z) (s : srv)
    (turns : list turn) (s' : srv) (tr : list action) (st : progress (list CommitDayActivity)) :
  play (fetchCommitHistory h cfg username days) now s turns = Some (s', tr, st) ->
  (exists rest,
     map (pageUrl username) (pagesFrom 1 (maxPages days)) = fetched tr ++ rest)
  /\ (length (fetched tr) <= maxPages days)%nat
  /\ (maxPages days <= 10)%nat
  /\ (days <= 30 -> (length (fetched tr) <= 3)%nat).
Proof.
  intros Hplay.
  destruct (asksOnly_play _ _ _ _ _ _ _ _ (asksOnly_fetchCommitHistory username days) Hplay)
    as [rest Hrest].
  assert (Hlen : (length (fetched tr) <= maxPages days)%nat).
  { apply (f_equal (@length string)) in Hrest.
    rewrite length_map, pagesFrom_length, length_app in Hrest. lia. }
  split; [exists rest; exact Hrest|]. split; [exact Hlen|]. split.
  - unfold maxPages. repeat destruct (_ <=? _); lia.
  - intros Hd. unfold maxPages in Hlen. apply Z.leb_le in Hd. rewrite Hd in Hlen. exact Hlen.
Qed.

End Pages.

(** ** One page of events *)

Lemma list_to_map_has (l : list CommitDayActivity) (day : CommitDayActivity) :
  In day l ->
  is_Some ((list_to_map (map (fun day => (date day, commit_count day)) l) : gmap string Z)
           !! date day).
Proof.
  induction l as [|d l IH]; intros Hin; [destruct Hin|]. simpl.
  destruct (decide (date d = date day)) as [->|Hne].
  - rewrite lookup_insert_eq. eauto.
  - rewrite lookup_insert_ne by exact Hne. destruct Hin as [->|Hin]; [contradiction|auto].
Qed.

(** At the start every day of the history is in the map, with count zero. *)
Lemma start_map_lookup (base : list CommitDayActivity) (day : CommitDayActivity) :
  Forall (fun d => commit_count d = 0) base -> In day base ->
  (list_to_map (map (fun day => (date day, commit_count day)) (rev base)) : gmap string Z)
  !! date day = Some 0.
Proof.
  intros Hz Hin.
  destruct (list_to_map_has (rev base) day) as [n Hn]; [now apply in_rev in Hin|].
  rewrite Hn. f_equal. eapply list_to_map_zero; [|exact Hn]. now apply Forall_rev.
Qed.

Lemma map_ext_In {A B : Type} (f g : A -> B) (l : list A) :
  (forall x, In x l -> f x = g x) -> map f l = map g l.
Proof.
  induction l as [|x l IH]; intros H; [reflexivity|]. simpl. f_equal.
  - apply H. now left.
  - apply IH. intros y Hy. apply H. now right.
Qed.

Section OnePage.

Context (h : host) (cfg : config).

Lemma awaitCall_githubRequest pathname v now s t1 s1 t2 s2 :
  play (awaitCall (githubRequest cfg pathname)) now s
    [ Turn (AResponse (Ok {| ok := true; status := 200; statusText := "OK"; body := Ok v |})) t1 s1;
      Turn ATurn t2 s2 ]
  = Some (s2, [Asked (Fetch (GITHUB_API_BASE +:+ pathname) (authorization cfg)); Asked Yield],
          Done (Ok v)).
Proof. reflexivity. Qed.


End OnePage.

(** ** The fallback snapshot *)

Lemma rmap_normalizeRepo_defined items :
  Forall (fun repo => Js.nullish repo = false) items ->
  exists normalized,
    rmap normalizeRepo items = Ok normalized /\ length normalized = length items.
Proof.
  induction 1 as [|repo items Hrepo Hitems (normalized & E & Hlen)].
  - exists []. split; reflexivity.
  - destruct (normalizeRepo_defined repo Hrepo) as (n & En).
    exists (n :: normalized). cbn [rmap]. rewrite En. cbn [rbind]. rewrite E. cbn [rbind].
    split; [reflexivity|]. simpl. now rewrite Hlen.
Qed.

Lemma rmap_normalizeRepo_nullish items :
  Exists (fun repo => Js.nullish repo = true) items ->
  rmap normalizeRepo items = Err TypeError.
Proof.
  induction items as [|repo items IH]; intros Hex; [inversion Hex|].
  cbn [rmap]. destruct (Js.nullish repo) eqn:Hn.
  - rewrite (normalizeRepo_nullish repo Hn). reflexivity.
  - destruct (normalizeRepo_defined repo Hn) as (n & ->). cbn [rbind].
    rewrite IH; [reflexivity|]. inversion Hex as [? ? F|]; subst; [congruence|assumption].
Qed.

Lemma normalizeRepo_pushed_at repo n :
  normalizeRepo repo = Ok n -> Js.getOpt n "pushed_at" = Js.getOpt repo "pushed_at".
Proof.
  destruct (Js.nullish repo) eqn:Hn.
  - rewrite (normalizeRepo_nullish repo Hn). discriminate.
  - unfold normalizeRepo. rewrite !(get_defined _ _ Hn). cbn [rbind].
    intros [= <-]. reflexivity.
Qed.

Lemma rmap_normalizeRepo_pushed_at h items : forall normalized,
  rmap normalizeRepo items = Ok normalized ->
  Forall (fun repo => pushedAt h repo <> None) items ->
  Forall (fun repo => pushedAt h repo <> None) normalized.
Proof.
  induction items as [|repo items IH]; intros normalized; cbn [rmap].
  - intros [= <-] _. constructor.
  - destruct (normalizeRepo repo) as [n|e] eqn:En; cbn [rbind]; [|discriminate].
    destruct (rmap normalizeRepo items) as [ns|e]; cbn [rbind]; [|discriminate].
    intros [= <-] Hall. inversion Hall as [|? ? Hrepo Hitems]; subst.
    constructor; [|now apply IH].
    unfold pushedAt in *. now rewrite (normalizeRepo_pushed_at _ _ En).
Qed.

Section Fallback.

Context (h : host) (cfg : config).


End Fallback.

(** ** Freshness *)

Lemma toISOString_truthy t : Js.truthy (VStr (JsDate.toISOString t)) = true.
Proof.
  simpl. apply negb_true_iff, String.eqb_neq. intros E.
  apply (f_equal String.length) in E. unfold JsDate.toISOString in E.
  rewrite !append_length in E. simpl in E. lia.
Qed.

(** Induction on values, through arrays and objects. *)
Lemma value_nested_ind (P : value -> Prop) :
  P VUndefined -> P VNull -> (forall b, P (VBool b)) -> (forall n, P (VNum n)) ->
  (forall s, P (VStr s)) ->
  (forall items, Forall P items -> P (VArr items)) ->
  (forall fields, Forall (fun kv => P (snd kv)) fields -> P (VObj fields)) ->
  forall v, P v.
Proof.
  intros HU HN HB HZ HS HA HO. fix IH 1. intros [| |b|n|s|items|fields].
  - exact HU.
  - exact HN.
  - apply HB.
  - apply HZ.
  - apply HS.
  - apply HA. revert items. fix IHl 1. intros [|x items]; constructor; [apply IH|apply IHl].
  - apply HO. revert fields. fix IHl 1. intros [|[k x] fields]; constructor; [apply IH|apply IHl].
Qed.

Lemma jsonImage_undefined v : jsonImage v = VUndefined -> v = VUndefined.
Proof. destruct v; simpl; intros E; try discriminate; reflexivity. Qed.

(** The image of a value under [JSON.stringify] has no [undefined] in it,
    so that a second round changes nothing. *)
Lemma jsonImage_idempotent : forall v, jsonImage (jsonImage v) = jsonImage v.
Proof.
  apply value_nested_ind; try reflexivity.
  - intros items Hitems. simpl. f_equal. rewrite map_map.
    induction Hitems as [|x items Hx Hitems IHl]; [reflexivity|]. simpl. f_equal; [|exact IHl].
    destruct x; try reflexivity; destruct (jsonImage _) eqn:E; try exact Hx;
      apply jsonImage_undefined in E; discriminate.
  - intros fields Hfields. simpl. f_equal.
    induction Hfields as [|[k x] fields Hx Hfields IHl]; [reflexivity|].
    simpl in Hx. destruct x; simpl; try (f_equal; exact IHl); try exact IHl.
    + f_equal; [|exact IHl]. f_equal. exact Hx.
    + f_equal; [|exact IHl]. f_equal. exact Hx.
Qed.

Section Freshness.

Context (h : host) (cfg : config).

Lemma fetchedAt_buildPayload t0 user repos readme hist :
  fetchedAt (buildPayload cfg t0 user repos readme hist) = VStr (JsDate.toISOString t0).
Proof. reflexivity. Qed.

Lemma fetchedAt_image t0 user repos readme hist :
  fetchedAt (jsonImage (buildPayload cfg t0 user repos readme hist))
  = VStr (JsDate.toISOString t0).
Proof. reflexivity. Qed.

Lemma isPayloadFresh_built payload t0 now :
  fetchedAt payload = VStr (JsDate.toISOString t0) ->
  Date_parse h (VStr (JsDate.toISOString t0)) = Some t0 ->
  isPayloadFresh h cfg now payload = (now - t0 <=? normalizedTtlMinutes cfg * 60000).
Proof.
  unfold fetchedAt. intros Hf Hparse. unfold isPayloadFresh. rewrite Hf.
  rewrite toISOString_truthy, Hparse. reflexivity.
Qed.

(** X10.  A snapshot built at [t0], whose [fetched_at] parses back to
    [t0], is fresh exactly while [now - t0 <= normalizedTtlMinutes * 60000],
    also after a round trip through JSON.  A fallback snapshot found in the
    cache is served with status HIT within that time; after it the read
    endpoint goes to [refreshCache] and waits for the refresh. *)
Theorem built_payload_fresh_window (t0 now : Z) (s : srv) :
  Date_parse h (VStr (JsDate.toISOString t0)) = Some t0 ->
  let window := normalizedTtlMinutes cfg * 60000 in
  (forall user repos readme hist,
     let payload := buildPayload cfg t0 user repos readme hist in
     isPayloadFresh h cfg now payload = (now - t0 <=? window)
     /\ isPayloadFresh h cfg now (jsonImage payload) = (now - t0 <=? window))
  /\ (forall snapshot payload,
        buildFallbackPayloadFromSnapshot h cfg t0 snapshot = Ok (Some payload) ->
        (now - t0 <= window ->
           run (getAfterRead h cfg payload) now s
           = (s, [], Done (Ok (sendJson (Some HIT) payload))))
        /\ (window < now - t0 ->
            exists s1 tr1 p k,
              run (getAfterRead h cfg payload) now s = (s1, tr1, Waiting (Await p) k)
              /\ refreshPromise s1 = Some p))
  /\ (forall snapshot payload t s0 turns0 tr0,
        buildFallbackPayloadFromSnapshot h cfg t0 snapshot = Ok (Some payload) ->
        play (awaitCall (readCachedPayload cfg)) t s0 turns0
        = Some (s, tr0, Done (Ok payload)) ->
        lastTime t turns0 = now ->
        (now - t0 <= window ->
           play (getDashboard h cfg) t s0 turns0
           = Some (s, tr0, Done (Ok (sendJson (Some HIT) payload))))
        /\ (window < now - t0 ->
            exists s1 tr1 p k,
              play (getDashboard h cfg) t s0 turns0 = Some (s1, tr1, Waiting (Await p) k)
              /\ refreshPromise s1 = Some p)).
Proof.
  intros Hparse window.
  assert (Hafter : forall snapshot payload,
            buildFallbackPayloadFromSnapshot h cfg t0 snapshot = Ok (Some payload) ->
            (now - t0 <= window ->
               run (getAfterRead h cfg payload) now s
               = (s, [], Done (Ok (sendJson (Some HIT) payload))))
            /\ (window < now - t0 ->
                exists s1 tr1 p k,
                  run (getAfterRead h cfg payload) now s = (s1, tr1, Waiting (Await p) k)
                  /\ refreshPromise s1 = Some p)).
  { intros snapshot payload Hfb.
    destruct (buildFallback_payload h cfg _ _ _ Hfb) as (items & user & repos & _ & _ & ->).
    pose proof (isPayloadFresh_built _ t0 now
                  (fetchedAt_buildPayload t0 user repos (VStr "")
                     (historyValue (buildEmptyCommitHistory t0 (normalizedHistoryDays cfg))))
                  Hparse) as Hfresh.
    split.
    + intros Hin. unfold getAfterRead. cbn [run]. rewrite Hfresh.
      replace (now - t0 <=? normalizedTtlMinutes cfg * 60000) with true
        by (symmetry; apply Z.leb_le; exact Hin).
      reflexivity.
    + intros Hout. unfold getAfterRead. cbn [run]. rewrite Hfresh.
      replace (now - t0 <=? normalizedTtlMinutes cfg * 60000) with false
        by (symmetry; apply Z.leb_gt; exact Hout).
      cbn [andb Js.truthy buildPayload].
      apply awaits_refresh. }
  split; [|split; [exact Hafter|]].
  - intros user repos readme hist payload. split.
    + apply isPayloadFresh_built; [apply fetchedAt_buildPayload|exact Hparse].
    + apply isPayloadFresh_built; [apply fetchedAt_image|exact Hparse].
  - intros snapshot payload t s0 turns0 tr0 Hfb Hread Hnow.
    destruct (getDashboard_after_read h cfg t s0 turns0 s tr0 payload [] Hread) as [E _].
    rewrite app_nil_r, Hnow in E. rewrite E. unfold play.
    destruct (Hafter snapshot payload Hfb) as [Hin Hout]. split.
    + intros Hw. rewrite (Hin Hw). simpl. now rewrite app_nil_r.
    + intros Hw. destruct (Hout Hw) as (s1 & tr1 & p & k & Hrun & Hp).
      rewrite Hrun. simpl. eexists _, _, _, _. split; [reflexivity|exact Hp].
Qed.

End Freshness.

(** ** The scheduler, the warm-up, the replies *)

Section Background.

Context (h : host) (cfg : config).

Lemma always_refreshCache : always (fun _ => True) (refreshCache h cfg).
Proof.
  unfold always, refreshCache. constructor. intros [p|].
  - unfold awaitPromise. constructor. intros [v|e]; constructor; auto.
  - constructor; [apply refreshBody_starts|]. intros p. constructor.
    unfold tryFinally, awaitPromise. simpl. constructor. intros r. simpl.
    destruct r; simpl; constructor; constructor; auto.
Qed.

Lemma always_scheduledRefresh : always (fun r => r = Ok tt) (scheduledRefresh h cfg).
Proof.
  unfold scheduledRefresh. apply always_attempt; [apply always_refreshCache|].
  intros r. constructor. reflexivity.
Qed.

(** X12.  The callback of [setInterval] swallows the failure of the
    refresh: whenever [refreshCache().catch(...)] ends, it ends normally,
    and the task itself has written nothing.  It joins the refresh in
    flight, or starts one, and is over when that refresh settles, with
    whatever outcome. *)
Theorem scheduledRefresh_swallows (now : Z) (s : srv) :
  (forall turns s' tr r,
     play (scheduledRefresh h cfg) now s turns = Some (s', tr, Done r) ->
     r = Ok tt /\ writes tr = [])
  /\ (forall outcome t2 s2,
        exists s' tr,
          play (scheduledRefresh h cfg) now s [Turn (ASettled outcome) t2 s2]
          = Some (s', tr, Done (Ok tt))
          /\ match refreshPromise s with
             | Some p => s' = s2 /\ calls tr = []
             | None => s' = withRefreshPromise None s2 /\ length (calls tr) = 1%nat
             end).
Proof.
  split.
  - intros turns s' tr r Hplay. split.
    + exact (always_play _ _ _ _ _ _ _ _ always_scheduledRefresh Hplay).
    + destruct (writes tr) eqn:E; [reflexivity|].
      destruct (written_play _ _ _ _ _ _ _ _ (readonly_scheduledRefresh h cfg) Hplay).
      rewrite E. discriminate.
  - intros outcome t2 s2. unfold play, scheduledRefresh. simpl.
    destruct (refreshPromise s) as [p|]; simpl; destruct outcome; simpl;
      eexists _, _; (split; [reflexivity|]); split; reflexivity.
Qed.

(** X13.  The warm-up at start.  When the first refresh succeeds nothing
    more is written.  When it fails the repository snapshot file is read:
    a fallback snapshot built from it is written to the store, and this is
    the only write; when the file gives no snapshot nothing is written. *)
Theorem warmUp_loads_fallback (now : Z) (s : srv) :
  (forall fresh t2 s2,
     exists s' tr,
       play (warmUp h cfg) now s [Turn (ASettled (Ok fresh)) t2 s2] = Some (s', tr, Done (Ok tt))
       /\ writes tr = [])
  /\ (forall e read t2 s2 t4 s4 t5 s5,
        (forall payload t6 s6 t7 s7,
           buildFallbackPayloadFromSnapshot h cfg t5 (snapshotValue read) = Ok (Some payload) ->
           exists s' tr,
             play (warmUp h cfg) now s
               (Turn (ASettled (Err e)) t2 s2 :: fileTurns read t4 s4 t5 s5
                ++ storeTurns cfg t6 s6 t7 s7)
             = Some (s', tr, Done (Ok tt))
             /\ writes tr = storeWrites cfg payload)
        /\ (buildFallbackPayloadFromSnapshot h cfg t5 (snapshotValue read) = Ok None ->
            exists s' tr,
              play (warmUp h cfg) now s
                (Turn (ASettled (Err e)) t2 s2 :: fileTurns read t4 s4 t5 s5)
              = Some (s', tr, Done (Ok tt))
              /\ writes tr = [])).
Proof.
  split.
  - intros fresh t2 s2. unfold play, warmUp. simpl.
    destruct (refreshPromise s) as [p|]; simpl; eexists _, _; split; reflexivity.
  - intros e read t2 s2 t4 s4 t5 s5. split.
    + intros payload t6 s6 t7 s7 Hfb.
      destruct (buildFallback_payload h cfg _ _ _ Hfb) as (items & user & repos & _ & _ & Hp).
      unfold play, warmUp, storeTurns, storeWrites, writeCachedPayload.
      cbn -[buildFallbackPayloadFromSnapshot jsonImage].
      destruct (refreshPromise s) as [p|]; cbn -[buildFallbackPayloadFromSnapshot jsonImage];
        rewrite Hfb; cbn -[buildFallbackPayloadFromSnapshot jsonImage];
        destruct (redisClient cfg); cbn -[buildFallbackPayloadFromSnapshot jsonImage];
        rewrite ?Hp, ?stringify_payload; cbn -[buildFallbackPayloadFromSnapshot jsonImage];
        eexists _, _; split; reflexivity.
    + intros Hfb. unfold play, warmUp. cbn -[buildFallbackPayloadFromSnapshot].
      destruct (refreshPromise s) as [p|]; cbn -[buildFallbackPayloadFromSnapshot];
        rewrite Hfb; cbn; eexists _, _; split; reflexivity.
Qed.

Lemma always_bind_quiet {A B : Type} (G : result B -> Prop) (P : prog A) (f : A -> prog B) :
  quiet P -> (forall a, always G (f a)) -> (forall e, G (Err e)) -> always G (bind P f).
Proof.
  intros HP Hf He. apply always_attempt; [now apply always_quiet|].
  intros [a|e]; [apply Hf | constructor; intros _; apply He].
Qed.

Lemma always_awaitCall_refresh :
  always (fun _ => True) (awaitCall (refreshCache h cfg)).
Proof. apply written_awaitCall, always_refreshCache. Qed.

Lemma always_getAfterFailure cached :
  always dashboardReply (getAfterFailure h cfg cached).
Proof.
  unfold getAfterFailure. destruct (Js.truthy cached).
  - constructor. intros _. left. split; [reflexivity|eauto].
  - apply always_bind_quiet; [apply quiet_awaitCall, quiet_loadRepoSnapshot| |exact (fun _ => I)].
    intros snapshot. constructor. intros t.
    apply always_bind_quiet; [apply quiet_lift| |exact (fun _ => I)].
    intros [payload|].
    + apply always_bind_quiet;
        [apply quiet_awaitCall, quiet_writeCachedPayload| |exact (fun _ => I)].
      intros _. constructor. intros _. left. split; [reflexivity|eauto].
    + constructor. intros _. right. reflexivity.
Qed.

(** X14.  What the endpoints send.  The read endpoint, when it answers,
    sends status 200 with an [X-Cache-Status] header, or the 503 message.
    The handler of the manual-refresh endpoint never ends with an
    exception: whenever it ends it has sent 401, a snapshot with status
    REFRESH, or the 503 message of a failed refresh.  And it does end: at
    once with 401 when the token is refused, and otherwise on the turn
    after the refresh it awaits has settled, with the snapshot of the
    refresh or with the 503 message. *)
Theorem endpoint_replies (now : Z) (s : srv) :
  (forall turns s' tr r,
     play (getDashboard h cfg) now s turns = Some (s', tr, Done r) -> dashboardReply r)
  /\ (forall token turns s' tr r,
        play (postRefresh h cfg token) now s turns = Some (s', tr, Done r) -> refreshReply r)
  /\ (forall token,
        run (postRefresh h cfg token) now s
        = (s, [], Done (Ok (sendMessage 401 "Unauthorized refresh request.")))
        \/ (exists s1 tr1 p k,
              run (postRefresh h cfg token) now s = (s1, tr1, Waiting (Await p) k)
              /\ refreshPromise s1 = Some p)
           /\ forall outcome t2 s2 t3 s3,
                exists s' tr rep,
                  play (postRefresh h cfg token) now s (settleTurns outcome t2 s2 t3 s3)
                  = Some (s', tr, Done (Ok rep))
                  /\ rep = match outcome with
                           | Ok payload => sendJson (Some REFRESH) payload
                           | Err _ => sendMessage 503 "GitHub cache refresh failed."
                           end).
Proof.
  split; [|split].
  - intros turns s' tr r Hplay.
    refine (always_play dashboardReply _ _ _ _ _ _ _ _ Hplay).
    unfold getDashboard.
    apply always_bind_quiet;
      [apply quiet_awaitCall, quiet_readCachedPayload| |exact (fun _ => I)].
    intros cached. unfold getAfterRead. constructor. intros t.
    destruct (Js.truthy cached && isPayloadFresh h cfg t cached).
    + constructor. intros _. left. split; [reflexivity|eauto].
    + apply always_attempt; [apply always_awaitCall_refresh|].
      intros [fresh|e]; [|apply always_getAfterFailure].
      constructor. intros _. left. split; [reflexivity|eauto].
  - intros token turns s' tr r Hplay.
    refine (always_play refreshReply _ _ _ _ _ _ _ _ Hplay).
    unfold postRefresh.
    destruct (negb (String.eqb (CACHE_REFRESH_TOKEN cfg) "") && _).
    + constructor. intros _. eexists. split; [reflexivity|]. left. reflexivity.
    + apply always_attempt; [apply always_awaitCall_refresh|].
      intros [payload|e]; constructor; intros _; eexists; (split; [reflexivity|]).
      * right. left. eauto.
      * right. right. reflexivity.
  - intros token. unfold play, postRefresh.
    destruct (negb (String.eqb (CACHE_REFRESH_TOKEN cfg) "") && _); [left; reflexivity|].
    right. split; [apply awaits_refresh|].
    intros [payload|e] t2 s2 t3 s3; simpl;
      destruct (refreshPromise s) as [p|]; simpl; eexists _, _, _; split; reflexivity.
Qed.

End Background.

(** ** Midnight *)

(** X15.  For a time from 1970 on that a [Date] can hold, [startOfUtcDay]
    gives the midnight (UTC) of the day: the last multiple of a day that is
    not after the given time, which is less than a day earlier and not
    before 1970.  It is idempotent, and [formatUtcDate] prints the same
    date for it as for the given time. *)
Theorem startOfUtcDay_midnight (t : Z) :
  0 <= t <= 8640000000000000 ->
  startOfUtcDay t = JsDate.Day t * JsDate.msPerDay
  /\ 0 <= startOfUtcDay t <= t
  /\ t < startOfUtcDay t + JsDate.msPerDay
  /\ JsDate.TimeWithinDay (startOfUtcDay t) = 0
  /\ JsDate.Day (startOfUtcDay t) = JsDate.Day t
  /\ startOfUtcDay (startOfUtcDay t) = startOfUtcDay t
  /\ formatUtcDate (startOfUtcDay t) = formatUtcDate t.
Proof.
  intros Ht.
  assert (Hday : JsDate.Day (JsDate.Day t * JsDate.msPerDay) = JsDate.Day t).
  { unfold JsDate.Day at 1. apply Z.div_mul. unfold JsDate.msPerDay. lia. }
  rewrite !startOfUtcDay_Day. split; [reflexivity|].
  assert (Hdiv : JsDate.Day t * JsDate.msPerDay <= t < JsDate.Day t * JsDate.msPerDay + JsDate.msPerDay
                 /\ 0 <= JsDate.Day t).
  { unfold JsDate.Day, JsDate.msPerDay.
    pose proof (Z.div_mod t 86400000 ltac:(lia)).
    pose proof (Z.mod_pos_bound t 86400000 ltac:(lia)).
    pose proof (Z.div_pos t 86400000 ltac:(lia) ltac:(lia)). lia. }
  split; [unfold JsDate.msPerDay in *; lia|]. split; [lia|].
  split; [|split; [exact Hday|split]].
  - unfold JsDate.TimeWithinDay. apply Z.mod_mul. unfold JsDate.msPerDay. lia.
  - rewrite Hday. reflexivity.
  - apply formatUtcDate_same_day. exact Hday.
Qed.

(** ** Dates as strings *)

Section Dates.

Import JsDate.

Lemma dom_bounds doe : 0 <= doe < daysPerEra -> 1 <= dom_of_doe doe <= 31.
Proof.
  intros H. destruct (yoe_bounds doe H) as [_ Hd]. unfold dom_of_doe, mp_of_doe.
  Z.div_mod_to_equations. lia.
Qed.

Lemma append_inj (a a' b b' : string) :
  String.length a = String.length a' -> a +:+ b = a' +:+ b' -> a = a' /\ b = b'.
Proof.
  revert a'. induction a as [|x a IH]; intros [|x' a'] Hlen E; try discriminate.
  - split; [reflexivity|exact E].
  - change (String x (a +:+ b) = String x' (a' +:+ b')) in E.
    injection E as -> E. simpl in Hlen. injection Hlen as Hlen.
    destruct (IH a' Hlen E) as [-> ->]. split; reflexivity.
Qed.

Lemma pad_app w : forall n acc, pad w n acc = pad w n "" +:+ acc.
Proof.
  induction w as [|w IH]; intros n acc; [reflexivity|]. cbn [pad].
  rewrite (IH _ (String (digit n) acc)), (IH _ (String (digit n) "")).
  rewrite append_assoc. reflexivity.
Qed.

Lemma digit_inj n n' : digit n = digit n' -> n mod 10 = n' mod 10.
Proof.
  unfold digit. intros E.
  pose proof (Z.mod_pos_bound n 10 ltac:(lia)). pose proof (Z.mod_pos_bound n' 10 ltac:(lia)).
  apply (f_equal nat_of_ascii) in E.
  rewrite !nat_ascii_embedding in E by lia. lia.
Qed.

Lemma pad_inj w : forall n n',
  0 <= n < 10 ^ Z.of_nat w -> 0 <= n' < 10 ^ Z.of_nat w ->
  pad w n "" = pad w n' "" -> n = n'.
Proof.
  induction w as [|w IH]; intros n n' Hn Hn' E.
  - simpl in Hn, Hn'. lia.
  - cbn [pad] in E. rewrite (pad_app w (n / 10)), (pad_app w (n' / 10)) in E.
    apply append_inj in E; [|now rewrite !pad_length].
    destruct E as [E1 E2]. injection E2 as E2. apply digit_inj in E2.
    rewrite Nat2Z.inj_succ, Z.pow_succ_r in Hn, Hn' by lia.
    assert (n / 10 = n' / 10).
    { apply IH; [| |exact E1]; split;
        try (apply Z.div_pos; lia); apply Z.div_lt_upper_bound; lia. }
    pose proof (Z.div_mod n 10 ltac:(lia)). pose proof (Z.div_mod n' 10 ltac:(lia)). lia.
Qed.

Lemma slice0_all n s : (String.length s <= n)%nat -> slice0 n s = s.
Proof.
  revert n. induction s as [|c s IH]; intros [|n] H; simpl in *; try reflexivity; try lia.
  f_equal. apply IH. lia.
Qed.

(** The date of a day in the years 0 to 9999 is ten characters,
    YYYY-MM-DD. *)
Lemma datePart_short day :
  0 <= year_of_day day <= 9999 ->
  datePart day
  = pad 4 (year_of_day day) ""
    +:+ "-" +:+ pad 2 (month_of_doe (doe_of_day day)) ""
    +:+ "-" +:+ pad 2 (dom_of_doe (doe_of_day day)) ""
  /\ String.length (datePart day) = 10%nat.
Proof.
  intros Hy. unfold datePart, isoYear.
  replace ((0 <=? year_of_day day) && (year_of_day day <=? 9999)) with true
    by (symmetry; apply andb_true_iff; split; apply Z.leb_le; lia).
  replace (month_of_doe (doe_of_day day) - 1 + 1) with (month_of_doe (doe_of_day day)) by lia.
  split; [reflexivity|]. rewrite !append_length, !pad_length. reflexivity.
Qed.

Lemma datePart_inj day day' :
  0 <= year_of_day day <= 9999 -> 0 <= year_of_day day' <= 9999 ->
  datePart day = datePart day' -> day = day'.
Proof.
  intros Hy Hy' E.
  destruct (datePart_short day Hy) as [E1 _]. destruct (datePart_short day' Hy') as [E2 _].
  rewrite E1, E2 in E. clear E1 E2.
  apply (append_inj (pad 4 _ "") (pad 4 _ "")) in E; [|now rewrite !pad_length].
  destruct E as [Ey E].
  apply (append_inj "-" "-") in E; [|reflexivity]. destruct E as [_ E].
  apply (append_inj (pad 2 _ "") (pad 2 _ "")) in E; [|now rewrite !pad_length].
  destruct E as [Em E].
  apply (append_inj "-" "-") in E; [|reflexivity]. destruct E as [_ Ed].
  pose proof (month_index day) as Hm. pose proof (month_index day') as Hm'.
  pose proof (dom_bounds _ (doe_range day)) as Hd.
  pose proof (dom_bounds _ (doe_range day')) as Hd'.
  apply pad_inj in Ey; [|simpl; lia..].
  apply pad_inj in Em; [|simpl; lia..].
  apply pad_inj in Ed; [|simpl; lia..].
  pose proof (first_of_month day) as F. pose proof (first_of_month day') as F'.
  cbv zeta in F, F'. rewrite Ey, Em in F. lia.
Qed.

End Dates.

Lemma formatUtcDate_inj (t1 t2 : Z) :
  0 <= JsDate.getUTCFullYear t1 <= 9999 -> 0 <= JsDate.getUTCFullYear t2 <= 9999 ->
  formatUtcDate t1 = formatUtcDate t2 -> JsDate.Day t1 = JsDate.Day t2.
Proof.
  intros H1 H2. unfold JsDate.getUTCFullYear in H1, H2.
  rewrite !formatUtcDate_Day, !slice0_all
    by (rewrite (proj2 (datePart_short _ H1)) || rewrite (proj2 (datePart_short _ H2)); lia).
  now apply datePart_inj.
Qed.

(** X16.  For the years 0 to 9999 [formatUtcDate] gives a string of ten
    characters, and two times give the same string exactly when they lie on
    the same day (UTC). *)
Theorem formatUtcDate_names_the_day (t1 t2 : Z) :
  0 <= JsDate.getUTCFullYear t1 <= 9999 -> 0 <= JsDate.getUTCFullYear t2 <= 9999 ->
  String.length (formatUtcDate t1) = 10%nat
  /\ (formatUtcDate t1 = formatUtcDate t2 <-> JsDate.Day t1 = JsDate.Day t2).
Proof.
  intros H1 H2. split.
  - unfold JsDate.getUTCFullYear in H1.
    destruct (datePart_short _ H1) as [_ L1].
    rewrite formatUtcDate_Day, slice0_all by lia. exact L1.
  - split; [now apply formatUtcDate_inj|].
    intros E. apply formatUtcDate_same_day. exact E.
Qed.

Lemma nth_error_map_date (l : list CommitDayActivity) i :
  nth_error (map date l) i = option_map date (nth_error l i).
Proof. revert i. induction l as [|d l IH]; intros [|i]; simpl; auto. Qed.

(** X17.  As long as the years stay within 0 to 9999, the dates of
    [buildEmptyCommitHistory] are pairwise distinct, so that the map
    [historyByDate] of [fetchCommitHistory] has one key for each day. *)
Theorem history_dates_distinct (now days : Z) :
  (forall i, 0 <= i < days ->
     0 <= JsDate.getUTCFullYear (now - i * JsDate.msPerDay) <= 9999) ->
  NoDup (map date (buildEmptyCommitHistory now days))
  /\ size (list_to_map (map (fun day => (date day, commit_count day))
                          (rev (buildEmptyCommitHistory now days))) : gmap string Z)
     = Z.to_nat days.
Proof.
  intros Hyears.
  assert (Hnth : forall i, (i < Z.to_nat days)%nat ->
            nth_error (map date (buildEmptyCommitHistory now days)) i
            = Some (formatUtcDate (now - (days - 1 - Z.of_nat i) * JsDate.msPerDay))).
  { intros i Hi. rewrite nth_error_map_date.
    rewrite <- (Nat2Z.id i) at 1. rewrite buildEmptyCommitHistory_nth by lia. reflexivity. }
  assert (Hlen : length (map date (buildEmptyCommitHistory now days)) = Z.to_nat days)
    by (rewrite length_map; apply buildEmptyCommitHistory_length).
  assert (Hnodup : NoDup (map date (buildEmptyCommitHistory now days))).
  { apply NoDup_ListNoDup, NoDup_nth_error. intros i j Hi E. rewrite Hlen in Hi.
    assert (Hj : (j < Z.to_nat days)%nat).
    { destruct (Nat.lt_ge_cases j (Z.to_nat days)) as [H|H]; [exact H|].
      rewrite <- Hlen in H. apply nth_error_None in H.
      rewrite H, (Hnth i Hi) in E. discriminate. }
    rewrite (Hnth i Hi), (Hnth j Hj) in E. injection E as E.
    apply formatUtcDate_inj in E; [|apply Hyears; lia..].
    rewrite !Day_shift in E. lia. }
  split; [exact Hnodup|].
  rewrite map_size_list_to_map.
  - rewrite length_map, length_rev. apply buildEmptyCommitHistory_length.
  - rewrite map_map. cbn [fst]. rewrite map_rev.
    apply NoDup_ListNoDup, NoDup_rev, NoDup_ListNoDup. exact Hnodup.
Qed.

(** ** The page *)

(** X18.  [getDaysSince] is never negative: 999 for a date that does not
    parse, 0 for a date in the future.  A repository is [active] until
    fifteen full days have passed since its last push, [warm] from then
    until sixty-one full days have passed, and [stale] from then on and
    when the date does not parse. *)
Theorem repo_activity (h : host) (now : Z) (date : value) :
  let bucket := getActivityBucket (getDaysSince h now date) in
  0 <= getDaysSince h now date
  /\ (Date_parse h date = None -> getDaysSince h now date = 999 /\ bucket = stale)
  /\ (forall parsed, Date_parse h date = Some parsed ->
        (now <= parsed -> getDaysSince h now date = 0)
        /\ (bucket = active <-> now - parsed < 15 * 86400000)
        /\ (bucket = warm <-> 15 * 86400000 <= now - parsed < 61 * 86400000)
        /\ (bucket = stale <-> 61 * 86400000 <= now - parsed)).
Proof.
  intros bucket. subst bucket. unfold getDaysSince, getActivityBucket.
  destruct (Date_parse h date) as [p|].
  - cbv zeta. split; [lia|]. split; [discriminate|]. intros parsed [= <-].
    assert (Hq : forall k, 0 <= k -> (Z.max 0 ((now - p) / 86400000) <= k
                                       <-> now - p < (k + 1) * 86400000)).
    { intros k Hk.
      pose proof (Z.div_mod (now - p) 86400000 ltac:(lia)).
      pose proof (Z.mod_pos_bound (now - p) 86400000 ltac:(lia)). lia. }
    pose proof (Hq 14 ltac:(lia)) as H14. pose proof (Hq 60 ltac:(lia)) as H60.
    split.
    + intros Hfuture. pose proof (Hq 0 ltac:(lia)). lia.
    + destruct (Z.max 0 ((now - p) / 86400000) <=? 14) eqn:E14;
        [apply Z.leb_le in E14 | apply Z.leb_gt in E14];
        [|destruct (Z.max 0 ((now - p) / 86400000) <=? 60) eqn:E60;
            [apply Z.leb_le in E60 | apply Z.leb_gt in E60]];
        repeat split; intros; try discriminate; try lia.
  - split; [lia|]. split; [split; reflexivity|discriminate].
Qed.

Lemma ratio_le (c m a b : Z) :
  0 < m -> (0 < b)%Z ->
  Qle_bool (inject_Z c / inject_Z m) (a # Z.to_pos b) = true <-> c * b <= a * m.
Proof.
  intros Hm Hb. rewrite Qle_bool_iff. unfold Qle, Qdiv, Qmult, Qinv, inject_Z.
  destruct m as [|pm|pm]; try lia. destruct b as [|pb|pb]; try lia. simpl. lia.
Qed.

Lemma getCommitLevel_cases c m :
  (c <= 0 /\ getCommitLevel c m = 0)
  \/ (0 < c /\ m <= 1 /\ getCommitLevel c m = 4)
  \/ (0 < c /\ 1 < m /\ 4 * c <= m /\ getCommitLevel c m = 1)
  \/ (0 < c /\ 1 < m /\ m < 4 * c /\ 2 * c <= m /\ getCommitLevel c m = 2)
  \/ (0 < c /\ 1 < m /\ m < 2 * c /\ 4 * c <= 3 * m /\ getCommitLevel c m = 3)
  \/ (0 < c /\ 1 < m /\ 3 * m < 4 * c /\ getCommitLevel c m = 4).
Proof.
  unfold getCommitLevel.
  destruct (c <=? 0) eqn:Ec; [apply Z.leb_le in Ec; auto | apply Z.leb_gt in Ec].
  destruct (m <=? 1) eqn:Em; [apply Z.leb_le in Em; auto | apply Z.leb_gt in Em].
  cbv zeta.
  pose proof (ratio_le c m 1 4 ltac:(lia) ltac:(lia)) as H4.
  pose proof (ratio_le c m 1 2 ltac:(lia) ltac:(lia)) as H2.
  pose proof (ratio_le c m 3 4 ltac:(lia) ltac:(lia)) as H3.
  change (Z.to_pos 4) with 4%positive in H4, H3. change (Z.to_pos 2) with 2%positive in H2.
  destruct (Qle_bool (inject_Z c / inject_Z m) (1 # 4)).
  { assert (c * 4 <= 1 * m) by (apply H4; reflexivity).
    right; right; left. repeat split; lia. }
  assert (N4 : ~ c * 4 <= 1 * m) by (intros F; apply H4 in F; discriminate).
  destruct (Qle_bool (inject_Z c / inject_Z m) (1 # 2)).
  { assert (c * 2 <= 1 * m) by (apply H2; reflexivity).
    right; right; right; left. repeat split; lia. }
  assert (N2 : ~ c * 2 <= 1 * m) by (intros F; apply H2 in F; discriminate).
  destruct (Qle_bool (inject_Z c / inject_Z m) (3 # 4)).
  { assert (c * 4 <= 3 * m) by (apply H3; reflexivity).
    right; right; right; right; left. repeat split; lia. }
  assert (N3 : ~ c * 4 <= 3 * m) by (intros F; apply H3 in F; discriminate).
  right; right; right; right; right. repeat split; lia.
Qed.

Lemma fold_max_ge (l : list CommitDayActivity) : forall a,
  a <= fold_left (fun max day => Z.max max (commit_count day)) l a
  /\ Forall (fun day => commit_count day
                        <= fold_left (fun max day => Z.max max (commit_count day)) l a) l.
Proof.
  induction l as [|d l IH]; intros a; simpl; [split; [lia|constructor]|].
  destruct (IH (Z.max a (commit_count d))) as [H1 H2]. split; [lia|].
  constructor; [lia|exact H2].
Qed.

(** X19.  For counts below 2^52 in absolute value, [getCommitLevel] is a
    level from 0 to 4, which is 0 exactly when there is no commit, and
    which does not go down when the number of commits goes up; with a
    maximum above one, the levels 1, 2 and 3 end at a quarter, a half and
    three quarters of the maximum.  [maxDailyCommits] is not negative and
    no day has more commits; a day with commits that reaches it has level
    4, and in a history without commits every day has level 0. *)
Theorem commit_levels (displayed : list CommitDayActivity) :
  let max := maxDailyCommits displayed in
  (forall c m, Z.abs c < 2 ^ 52 -> Z.abs m < 2 ^ 52 ->
     0 <= getCommitLevel c m <= 4
     /\ (getCommitLevel c m = 0 <-> c <= 0)
     /\ (forall c', Z.abs c' < 2 ^ 52 -> c <= c' -> getCommitLevel c m <= getCommitLevel c' m)
     /\ (0 < c -> 1 < m ->
         (getCommitLevel c m <= 1 <-> 4 * c <= m)
         /\ (getCommitLevel c m <= 2 <-> 2 * c <= m)
         /\ (getCommitLevel c m <= 3 <-> 4 * c <= 3 * m)))
  /\ 0 <= max
  /\ Forall (fun day =>
               commit_count day <= max
               /\ (0 < commit_count day -> commit_count day = max -> max < 2 ^ 52 ->
                   getCommitLevel (commit_count day) max = 4)) displayed
  /\ (Forall (fun day => commit_count day = 0) displayed ->
      max = 0 /\ Forall (fun day => getCommitLevel (commit_count day) max = 0) displayed).
Proof.
  intros max. split; [|split; [|split]].
  - intros c m _ _. split; [|split; [|split]].
    + destruct (getCommitLevel_cases c m) as [H|[H|[H|[H|[H|H]]]]]; lia.
    + destruct (getCommitLevel_cases c m) as [H|[H|[H|[H|[H|H]]]]]; lia.
    + intros c' _ Hc.
      destruct (getCommitLevel_cases c m) as [H|[H|[H|[H|[H|H]]]]];
        destruct (getCommitLevel_cases c' m) as [H'|[H'|[H'|[H'|[H'|H']]]]]; lia.
    + intros Hc Hm.
      destruct (getCommitLevel_cases c m) as [H|[H|[H|[H|[H|H]]]]]; lia.
  - apply (fold_max_ge displayed 0).
  - destruct (fold_max_ge displayed 0) as [_ H]. fold (maxDailyCommits displayed) in H.
    fold max in H. eapply Forall_impl; [exact H|]. intros day Hle. split; [exact Hle|].
    intros Hpos Heq _. rewrite Heq.
    destruct (getCommitLevel_cases max max) as [H'|[H'|[H'|[H'|[H'|H']]]]]; lia.
  - intros Hzero.
    assert (Hmax : max = 0).
    { subst max. unfold maxDailyCommits.
      induction Hzero as [|d l Hd Hl IH]; simpl; [reflexivity|].
      rewrite Hd. exact IH. }
    split; [exact Hmax|]. eapply Forall_impl; [exact Hzero|].
    intros day ->. reflexivity.
Qed.

(** ** A refresh that succeeds *)

Section Refresh.

Context (h : host) (cfg : config).

Lemma fetchFreshPayload_built : always (builtOutcome cfg) (fetchFreshPayload h cfg).
Proof.
  assert (Herr : forall e, builtOutcome cfg (Err e)) by (intros e v F; discriminate F).
  unfold fetchFreshPayload, always. constructor. intros rs. cbn [orb storedBy].
  destruct rs as [|r1 [|r2 [|r3 [|r4 rs]]]]; try (constructor; intros _; apply Herr).
  apply always_bind_quiet; [apply quiet_afterFetch | intros userResponse | exact Herr].
  apply always_bind_quiet; [apply quiet_afterFetch | intros reposResponse | exact Herr].
  apply always_bind_quiet; [apply quiet_afterFetch | intros readmeResponse | exact Herr].
  destruct reposResponse; try (constructor; intros _; apply Herr).
  apply always_bind_quiet; [apply quiet_lift | intros encoding | exact Herr].
  destruct encoding; try (constructor; intros _; apply Herr).
  destruct (Js.getOpt readmeResponse "content"); try (constructor; intros _; apply Herr).
  destruct (String.eqb _ _); [|constructor; intros _; apply Herr].
  constructor. intros now0.
  apply always_attempt;
    [apply always_quiet, quiet_awaitCall, quiet_fetchCommitHistory | intros fetched].
  apply always_bind_quiet; [apply quiet_lift | intros normalized | exact Herr].
  apply always_bind_quiet; [apply quiet_lift | intros user | exact Herr].
  constructor. intros t. constructor. intros _ v [= <-]. repeat eexists.
Qed.

(** X20.  A [fetchFreshPayload] that succeeds returns a snapshot built by
    [buildPayload], and the refresh then writes this snapshot to the store,
    as its only write, and resolves with it. *)
Theorem successful_refresh_stores (now : Z) (s : srv) (turns : list turn)
    (s1 : srv) (tr1 : list action) (payload : value) :
  play (awaitCall (fetchFreshPayload h cfg)) now s turns = Some (s1, tr1, Done (Ok payload)) ->
  built cfg payload
  /\ forall t6 s6 t7 s7,
       exists s' tr,
         play (refreshBody h cfg) now s (turns ++ storeTurns cfg t6 s6 t7 s7)
         = Some (s', tr, Done (Ok payload))
         /\ writes tr = storeWrites cfg payload.
Proof.
  intros Hfetch.
  assert (Hbuilt : built cfg payload).
  { refine (always_play (builtOutcome cfg) _ _ _ _ _ _ _ _ Hfetch payload eq_refl).
    apply written_awaitCall, fetchFreshPayload_built. }
  split; [exact Hbuilt|]. intros t6 s6 t7 s7.
  destruct Hbuilt as (t & user & repos & readme & hist & ->).
  assert (Hnone : writes tr1 = []).
  { destruct (writes tr1) eqn:E; [reflexivity|].
    destruct (written_play _ _ _ _ _ _ _ _
                (written_awaitCall _ _ _ (readonly_fetchFreshPayload h cfg)) Hfetch).
    rewrite E. discriminate. }
  unfold refreshBody, bind at 1.
  rewrite (play_attempt _ _ _ _ turns _ _ _ _ Hfetch).
  unfold play, storeTurns, storeWrites, writeCachedPayload.
  destruct (redisClient cfg); rewrite ?stringify_payload; cbn -[jsonImage buildPayload];
    eexists _, _; (split; [reflexivity|]);
    rewrite writes_app, Hnone; reflexivity.
Qed.

End Refresh.

(** ** Programs that store snapshots only *)

Section Keeps.

Context (cfg : config).

Lemma keeps_attempt {A B : Type} (G1 : result A -> Prop) (G : result B -> Prop)
    (P : prog A) (k : result A -> prog B) :
  keeps cfg G1 P -> (forall r, G1 r -> keeps cfg G (k r)) -> keeps cfg G (attempt P k).
Proof.
  intros HP Hk.
  revert B G k Hk.
  induction HP as [A G1 a Ha|A G1 e He|A G1 f Hf IH|A G1 f Hf IH|A G1 v f Hv Hf IH
                  |A G1 f Hf IH|A G1 p f Hf IH|A G1 body f Hb IHb Hf IH|A G1 e f He Hf IH];
    intros B G k Hk; simpl; try (constructor; auto; fail); auto.
Qed.

Lemma keeps_weaken {A : Type} (G G' : result A -> Prop) (P : prog A) :
  (forall r, G r -> G' r) -> keeps cfg G P -> keeps cfg G' P.
Proof.
  intros HG HP.
  induction HP; constructor; auto.
Qed.

Lemma keeps_lift {A : Type} (G : result A -> Prop) (r : result A) :
  G r -> keeps cfg G (lift r).
Proof. destruct r; constructor; assumption. Qed.

Lemma keeps_awaitCall {A : Type} (G : result A -> Prop) (P : prog A) :
  keeps cfg G P -> keeps cfg G (awaitCall P).
Proof.
  intros HP. unfold awaitCall. apply (keeps_attempt G G); [exact HP|].
  intros r Hr. constructor; [exact I|]. intros _ _. now apply keeps_lift.
Qed.

Lemma keeps_bind {A B : Type} (G1 : result A -> Prop) (G : result B -> Prop)
    (P : prog A) (f : A -> prog B) :
  keeps cfg G1 P -> (forall a, G1 (Ok a) -> keeps cfg G (f a)) -> (forall e, G (Err e)) ->
  keeps cfg G (bind P f).
Proof.
  intros HP Hf He. apply (keeps_attempt G1 G); [exact HP|].
  intros [a|e] Hr; [now apply Hf|constructor; apply He].
Qed.

(** A program that keeps the discipline leaves a store of snapshots. *)
Lemma keeps_run {A : Type} (G : result A -> Prop) (P : prog A) :
  keeps cfg G P ->
  forall now s s' tr st,
    cachedValue cfg (inMemoryCache s) ->
    run P now s = (s', tr, st) ->
    cachedValue cfg (inMemoryCache s')
    /\ keepsP cfg G st
    /\ Forall (fun c => keepsP cfg (builtOutcome cfg) (snd c)) (calls tr).
Proof.
  intros HP.
  induction HP as [A G a Ha|A G e He|A G f Hf IH|A G f Hf IH|A G v f Hv Hf IH|A G f Hf IH
                  |A G p f Hf IH|A G body f Hb IHb Hf IH|A G e f He Hf IH];
    intros now s s' tr st Hs Hrun; simpl in Hrun.
  - injection Hrun as <- <- <-. repeat split; [exact Hs|exact Ha|constructor].
  - injection Hrun as <- <- <-. repeat split; [exact Hs|exact He|constructor].
  - eapply IH; eauto.
  - eapply IH; eauto.
  - destruct (run f now (withCache v s)) as [[s1 tr1] st1] eqn:E.
    injection Hrun as <- <- <-.
    apply (IH now (withCache v s) s1 tr1 st1); [right; exact Hv|exact E].
  - eapply IH; eauto.
  - destruct (run f now (withRefreshPromise p s)) as [[s1 tr1] st1] eqn:E.
    injection Hrun as <- <- <-.
    apply (IH now (withRefreshPromise p s) s1 tr1 st1); [exact Hs|exact E].
  - destruct (run body now s) as [[s1 tr1] st1] eqn:E1.
    destruct (run (f (promiseCount s1)) now (withPromiseCount (S (promiseCount s1)) s1))
      as [[s2 tr2] st2] eqn:E2.
    injection Hrun as <- <- <-.
    destruct (IHb _ _ _ _ _ Hs E1) as (Hs1 & Hst1 & Hc1).
    destruct (IH _ now (withPromiseCount (S (promiseCount s1)) s1) _ _ _ Hs1 E2)
      as (Hs2 & Hst2 & Hc2).
    split; [exact Hs2|]. split; [exact Hst2|].
    rewrite calls_app. apply Forall_app. split; [exact Hc1|].
    simpl. constructor; [exact Hst1|exact Hc2].
  - injection Hrun as <- <- <-. repeat split; [exact Hs|exact He|exact Hf|constructor].
Qed.

End Keeps.

(** ** Every program of the server is one *)

Section Kept.

Context (h : host) (cfg : config).

Local Abbreviation any := (fun _ => True).

Lemma keeps_afterFetch r : keeps cfg any (afterFetch r).
Proof.
  unfold afterFetch. destruct r as [resp|e]; [|now constructor].
  destruct (ok resp); simpl; [now apply keeps_lift|].
  constructor; [exact I|]. intros _ _. now constructor.
Qed.

Lemma keeps_githubRequest pathname : keeps cfg any (githubRequest cfg pathname).
Proof. unfold githubRequest. constructor; [exact I|]. intros x _. apply keeps_afterFetch. Qed.

Lemma keeps_pagesLoop username rangeStart left : forall page m,
  keeps cfg any (pagesLoop h cfg username rangeStart left page m).
Proof.
  induction left as [|left IH]; intros page m; cbn [pagesLoop]; [now constructor|].
  apply (keeps_bind cfg any); [apply keeps_awaitCall, keeps_githubRequest| |auto].
  intros events _. destruct events as [| | | | |items|]; try now constructor.
  destruct items as [|event items]; [now constructor|].
  destruct (countEvents h rangeStart (m, false) (event :: items)) as [[m1 f1]|e];
    [|now constructor].
  destruct f1; [now constructor|apply IH].
Qed.

Lemma keeps_fetchCommitHistory username days :
  keeps cfg any (fetchCommitHistory h cfg username days).
Proof.
  rewrite fetchCommitHistory_unfold. constructor. intros now.
  destruct (buildEmptyCommitHistory now days); [now constructor|]. cbv zeta.
  apply (keeps_bind cfg any); [apply keeps_pagesLoop| |auto].
  intros m _. now constructor.
Qed.

Lemma builtOutcome_err e : builtOutcome cfg (Err e).
Proof. intros v F. discriminate F. Qed.

Lemma keeps_fetchFreshPayload : keeps cfg (builtOutcome cfg) (fetchFreshPayload h cfg).
Proof.
  pose proof builtOutcome_err as Herr.
  unfold fetchFreshPayload. constructor; [exact I|]. intros rs _.
  destruct rs as [|r1 [|r2 [|r3 [|r4 rs]]]]; try (constructor; apply Herr).
  apply (keeps_bind cfg any); [apply keeps_afterFetch|intros userResponse _|exact Herr].
  apply (keeps_bind cfg any); [apply keeps_afterFetch|intros reposResponse _|exact Herr].
  apply (keeps_bind cfg any); [apply keeps_afterFetch|intros readmeResponse _|exact Herr].
  destruct reposResponse; try (constructor; apply Herr).
  apply (keeps_bind cfg any); [now apply keeps_lift|intros encoding _|exact Herr].
  destruct encoding; try (constructor; apply Herr).
  destruct (Js.getOpt readmeResponse "content"); try (constructor; apply Herr).
  destruct (String.eqb _ _); [|constructor; apply Herr].
  constructor. intros now0.
  apply (keeps_attempt cfg any);
    [apply keeps_awaitCall, keeps_fetchCommitHistory|intros fetched _].
  apply (keeps_bind cfg any); [now apply keeps_lift|intros normalized _|exact Herr].
  apply (keeps_bind cfg any); [now apply keeps_lift|intros user _|exact Herr].
  constructor. intros t. constructor. intros v [= <-]. repeat eexists.
Qed.

Lemma keeps_writeCachedPayload payload :
  built cfg payload -> keeps cfg any (writeCachedPayload cfg payload).
Proof.
  intros Hb. unfold writeCachedPayload.
  apply (keeps_bind cfg any); [| |auto].
  - destruct (redisClient cfg); [|now constructor].
    destruct Hb as (t & user & repos & readme & hist & ->). rewrite stringify_payload.
    constructor; [|intros x _; now apply keeps_lift].
    split; [reflexivity|]. eexists. split; [|reflexivity]. repeat eexists.
  - intros _ _. constructor; [exact Hb|now constructor].
Qed.

Lemma keeps_loadRepoSnapshot : keeps cfg any loadRepoSnapshot.
Proof. unfold loadRepoSnapshot. constructor; [exact I|]. intros x _. now constructor. Qed.

Lemma keeps_refreshBody : keeps cfg (builtOutcome cfg) (refreshBody h cfg).
Proof.
  unfold refreshBody.
  apply (keeps_bind cfg (builtOutcome cfg));
    [apply keeps_awaitCall, keeps_fetchFreshPayload| |apply builtOutcome_err].
  intros payload Hp.
  apply (keeps_bind cfg any);
    [apply keeps_awaitCall, keeps_writeCachedPayload, (Hp payload eq_refl)|
    |apply builtOutcome_err].
  intros _ _. constructor. exact Hp.
Qed.

Lemma keeps_refreshCache : keeps cfg (builtOutcome cfg) (refreshCache h cfg).
Proof.
  unfold refreshCache. constructor. intros [p|].
  - unfold awaitPromise. constructor; [exact I|]. intros r Hr. now apply keeps_lift.
  - constructor; [apply keeps_refreshBody|]. intros p. constructor.
    unfold tryFinally, awaitPromise. cbn [attempt]. constructor; [exact I|].
    intros r Hr. cbn [attempt lift]. destruct r; cbn [attempt bind];
      constructor; now constructor.
Qed.

(** What the handlers do once the refresh has failed. *)
Lemma keeps_fallback {A : Type} (G : result A -> Prop) (f : option value -> prog A) t snapshot :
  (forall payload, built cfg payload -> keeps cfg G (f (Some payload))) ->
  keeps cfg G (f None) -> (forall e, G (Err e)) ->
  keeps cfg G (fallbackPayload <- lift (buildFallbackPayloadFromSnapshot h cfg t snapshot) ;;
               f fallbackPayload).
Proof.
  intros Hsome Hnone He.
  destruct (buildFallbackPayloadFromSnapshot h cfg t snapshot) as [[payload|]|e] eqn:E;
    cbn [lift bind attempt]; [|exact Hnone|constructor; apply He].
  apply Hsome.
  destruct (buildFallback_payload h cfg _ _ _ E) as (items & user & repos & _ & _ & ->).
  repeat eexists.
Qed.

Lemma snapshotReply_err e : snapshotReply cfg (Err e).
Proof. intros _ rep F. discriminate F. Qed.

Lemma snapshotReply_message c m : c <> 200 -> snapshotReply cfg (Ok (sendMessage c m)).
Proof. intros Hc _ rep [= <-] F. simpl in F. contradiction. Qed.

Lemma snapshotReply_json st v :
  (redisClient cfg = false -> built cfg v) -> snapshotReply cfg (Ok (sendJson st v)).
Proof. intros Hv Hmem rep [= <-] _. exact (Hv Hmem). Qed.

Lemma truthy_cached v : cachedValue cfg v -> Js.truthy v = true -> built cfg v.
Proof. intros [->|Hb] Ht; [discriminate Ht|exact Hb]. Qed.

Lemma keeps_getAfterFailure cached :
  (redisClient cfg = false -> cachedValue cfg cached) ->
  keeps cfg (snapshotReply cfg) (getAfterFailure h cfg cached).
Proof.
  intros Hc. unfold getAfterFailure. destruct (Js.truthy cached) eqn:Ht.
  - constructor. apply snapshotReply_json. intros Hmem. exact (truthy_cached _ (Hc Hmem) Ht).
  - apply (keeps_bind cfg any);
      [apply keeps_awaitCall, keeps_loadRepoSnapshot| |apply snapshotReply_err].
    intros snapshot _. constructor. intros t.
    apply keeps_fallback; [| |apply snapshotReply_err].
    + intros payload Hp.
      apply (keeps_bind cfg any);
        [now apply keeps_awaitCall, keeps_writeCachedPayload| |apply snapshotReply_err].
      intros _ _. constructor. apply snapshotReply_json. intros _. exact Hp.
    + constructor. apply snapshotReply_message. discriminate.
Qed.

Lemma keeps_awaitRefresh : keeps cfg (builtOutcome cfg) (awaitCall (refreshCache h cfg)).
Proof. apply keeps_awaitCall, keeps_refreshCache. Qed.

Lemma keeps_getAfterRead cached :
  (redisClient cfg = false -> cachedValue cfg cached) ->
  keeps cfg (snapshotReply cfg) (getAfterRead h cfg cached).
Proof.
  intros Hc. unfold getAfterRead. constructor. intros t.
  destruct (Js.truthy cached && isPayloadFresh h cfg t cached) eqn:E.
  - apply andb_true_iff in E as [Ht _].
    constructor. apply snapshotReply_json. intros Hmem. exact (truthy_cached _ (Hc Hmem) Ht).
  - apply (keeps_attempt cfg (builtOutcome cfg)); [apply keeps_awaitRefresh|].
    intros [fresh|e] Hr; [|now apply keeps_getAfterFailure].
    constructor. apply snapshotReply_json. intros _. exact (Hr fresh eq_refl).
Qed.

Lemma keeps_readCachedPayload :
  keeps cfg (fun r => redisClient cfg = false -> forall v, r = Ok v -> cachedValue cfg v)
    (readCachedPayload cfg).
Proof.
  unfold readCachedPayload. destruct (redisClient cfg) eqn:Hredis.
  - constructor; [exact I|]. intros got _.
    destruct got as [[raw|]|e]; try (constructor; discriminate).
    destruct raw; [apply keeps_lift|constructor|apply keeps_lift]; discriminate.
  - constructor. intros v Hv. constructor. intros _ v' [= <-]. exact Hv.
Qed.

Lemma keeps_getDashboard : keeps cfg (snapshotReply cfg) (getDashboard h cfg).
Proof.
  unfold getDashboard.
  eapply keeps_bind; [apply keeps_awaitCall, keeps_readCachedPayload| |apply snapshotReply_err].
  intros cached Hc. apply keeps_getAfterRead. intros Hmem. exact (Hc Hmem cached eq_refl).
Qed.

Lemma keeps_postRefresh token : keeps cfg (snapshotReply cfg) (postRefresh h cfg token).
Proof.
  unfold postRefresh. destruct (negb (String.eqb (CACHE_REFRESH_TOKEN cfg) "") && _).
  - constructor. apply snapshotReply_message. discriminate.
  - apply (keeps_attempt cfg (builtOutcome cfg)); [apply keeps_awaitRefresh|].
    intros [payload|e] Hr; constructor.
    + apply snapshotReply_json. intros _. exact (Hr payload eq_refl).
    + apply snapshotReply_message. discriminate.
Qed.

Lemma keeps_scheduledRefresh : keeps cfg any (scheduledRefresh h cfg).
Proof.
  unfold scheduledRefresh.
  apply (keeps_attempt cfg (builtOutcome cfg)); [apply keeps_refreshCache|].
  intros r _. now constructor.
Qed.

Lemma keeps_warmUp : keeps cfg any (warmUp h cfg).
Proof.
  unfold warmUp.
  apply (keeps_attempt cfg (builtOutcome cfg)); [apply keeps_refreshCache|].
  intros [v|e] _; [now constructor|].
  apply (keeps_bind cfg any); [apply keeps_awaitCall, keeps_loadRepoSnapshot| |auto].
  intros snapshot _. constructor. intros t.
  apply keeps_fallback; [| |auto].
  - intros payload Hp.
    eapply keeps_weaken; [|apply keeps_awaitCall, keeps_writeCachedPayload, Hp]. auto.
  - now constructor.
Qed.

End Kept.

(** ** The worlds the server reaches *)

Section Worlds.

Context (h : host) (cfg : config) (kept : gmap string text).

Lemma snapshots_initial : snapshotsOnly cfg kept (initial kept).
Proof.
  constructor; simpl.
  - left. reflexivity.
  - intros raw Hraw. left. exact Hraw.
  - intros p r F. rewrite lookup_empty in F. discriminate.
  - intros t x F. rewrite lookup_empty in F. discriminate.
  - intros t r [].
Qed.

Lemma snapshots_withShared s w :
  cachedValue cfg (inMemoryCache s) -> snapshotsOnly cfg kept w ->
  snapshotsOnly cfg kept (withShared s w).
Proof. intros Hs [? ? ? ? ?]. constructor; simpl; assumption. Qed.

Lemma snapshots_withTaskCount n w :
  snapshotsOnly cfg kept w -> snapshotsOnly cfg kept (withTaskCount n w).
Proof. intros [? ? ? ? ?]. constructor; simpl; assumption. Qed.

Lemma snapshots_adopt cs : forall w,
  Forall (fun c => keepsP cfg (builtOutcome cfg) (snd c)) cs ->
  snapshotsOnly cfg kept w -> snapshotsOnly cfg kept (adopt cs w).
Proof.
  induction cs as [|[p st] cs IH]; intros w Hcs Hw; [exact Hw|].
  inversion Hcs as [|? ? Hst Hrest]; subst. simpl in Hst.
  destruct Hw as [H1 H2 H3 H4 H5].
  destruct st as [r|e k]; cbn [adopt]; apply IH; try exact Hrest; constructor; simpl;
    try assumption.
  - intros q r' Hq. destruct (decide (p = q)) as [->|Hne].
    + rewrite lookup_insert_eq in Hq. injection Hq as <-. exact Hst.
    + rewrite lookup_insert_ne in Hq by exact Hne. eapply H3, Hq.
  - intros t x Hx. destruct (decide (taskCount w = t)) as [<-|Hne].
    + rewrite lookup_insert_eq in Hx. injection Hx as <-. exact Hst.
    + rewrite lookup_insert_ne in Hx by exact Hne. eapply H4, Hx.
Qed.

Lemma snapshots_tasks w ts :
  (forall t x, ts !! t = Some x -> taskKeeps cfg x) ->
  snapshotsOnly cfg kept w -> snapshotsOnly cfg kept (withTasks ts w).
Proof. intros Hts [? ? ? ? ?]. constructor; simpl; assumption. Qed.

Lemma tasks_insert w t x :
  taskKeeps cfg x -> snapshotsOnly cfg kept w ->
  forall t' x', <[t := x]> (tasks w) !! t' = Some x' -> taskKeeps cfg x'.
Proof.
  intros Hx Hw t' x' H'. destruct (decide (t = t')) as [->|Hne].
  - rewrite lookup_insert_eq in H'. injection H' as <-. exact Hx.
  - rewrite lookup_insert_ne in H' by exact Hne. eapply tasks_keep; eauto.
Qed.

Lemma tasks_delete w t :
  snapshotsOnly cfg kept w ->
  forall t' x', delete t (tasks w) !! t' = Some x' -> taskKeeps cfg x'.
Proof.
  intros Hw t' x' H'. apply lookup_delete_Some in H' as [_ H']. eapply tasks_keep; eauto.
Qed.

Lemma snapshots_placeRequest t st w :
  keepsP cfg (snapshotReply cfg) st -> snapshotsOnly cfg kept w ->
  snapshotsOnly cfg kept (placeRequest t st w).
Proof.
  intros Hst Hw. destruct st as [r|e k]; cbn [placeRequest].
  - pose proof (tasks_delete w t Hw) as Ht. destruct Hw as [H1 H2 H3 H4 H5].
    constructor; simpl; try assumption.
    intros t' r' Hin. apply in_app_or in Hin as [Hin|[[= <- <-]|[]]]; [eapply H5, Hin|exact Hst].
  - apply snapshots_tasks; [|exact Hw]. now apply tasks_insert.
Qed.

Lemma snapshots_placeBackground t st w :
  keepsP cfg (fun _ => True) st -> snapshotsOnly cfg kept w ->
  snapshotsOnly cfg kept (placeBackground t st w).
Proof.
  intros Hst Hw. destruct st as [r|e k]; cbn [placeBackground];
    (apply snapshots_tasks; [|exact Hw]); [now apply tasks_delete|now apply tasks_insert].
Qed.

Lemma snapshots_placeRefresh t p st w :
  keepsP cfg (builtOutcome cfg) st -> snapshotsOnly cfg kept w ->
  snapshotsOnly cfg kept (placeRefresh t p st w).
Proof.
  intros Hst Hw. destruct st as [r|e k]; cbn [placeRefresh].
  - pose proof (tasks_delete w t Hw) as Ht. destruct Hw as [H1 H2 H3 H4 H5].
    constructor; simpl; try assumption.
    intros q r' Hq. destruct (decide (p = q)) as [->|Hne].
    + rewrite lookup_insert_eq in Hq. injection Hq as <-. exact Hst.
    + rewrite lookup_insert_ne in Hq by exact Hne. eapply H3, Hq.
  - apply snapshots_tasks; [|exact Hw]. now apply tasks_insert.
Qed.

(** The answer to an awaited operation: the world stays one of snapshots,
    and the answer is what the task may assume. *)
Lemma snapshots_answerOf w e o a w1 x :
  snapshotsOnly cfg kept w -> allowedIo cfg e ->
  answerOf w e o = Some (a, w1) -> coerce e a = Some x ->
  snapshotsOnly cfg kept w1 /\ answerOk cfg e x /\ tasks w1 = tasks w.
Proof.
  intros Hw He Ha Hx.
  destruct e as [url auth|urls auth|key|key raw|path|p|]; destruct o as [r|rs|r| |];
    simpl in Ha; try discriminate;
    try (injection Ha as <- <-; split; [exact Hw|split; [exact I|reflexivity]]).
  - injection Ha as <- <-. split; [|split; [exact I|reflexivity]].
    destruct He as [-> Hraw]. destruct Hw as [H1 H2 H3 H4 H5].
    constructor; simpl; try assumption.
    intros raw'. rewrite lookup_insert_eq. intros [= <-]. right. exact Hraw.
  - destruct (settled w !! p) as [r|] eqn:Hp; [|discriminate].
    injection Ha as <- <-. simpl in Hx. injection Hx as <-.
    split; [exact Hw|]. split; [|reflexivity]. exact (settled_snapshot _ _ _ Hw _ _ Hp).
Qed.

(** A task has run: what it leaves is placed in the world. *)
Lemma snapshots_after_run {A : Type} (G : result A -> Prop) (P : prog A) now w s tr st :
  keeps cfg G P -> snapshotsOnly cfg kept w ->
  run P now (shared w) = (s, tr, st) ->
  snapshotsOnly cfg kept (adopt (calls tr) (withShared s w)) /\ keepsP cfg G st.
Proof.
  intros HP Hw Hrun.
  destruct (keeps_run cfg G P HP now (shared w) s tr st (cache_snapshot _ _ _ Hw) Hrun)
    as (Hs & Hst & Hc).
  split; [|exact Hst]. apply snapshots_adopt; [exact Hc|]. now apply snapshots_withShared.
Qed.

Lemma snapshots_arrive r now w :
  snapshotsOnly cfg kept w -> snapshotsOnly cfg kept (arrive h cfg r now w).
Proof.
  intros Hw. pose proof (snapshots_withTaskCount (S (taskCount w)) w Hw) as Hw0.
  unfold arrive. destruct r as [|token| |].
  - destruct (run (getDashboard h cfg) now (shared w)) as [[s tr] st] eqn:E.
    destruct (snapshots_after_run _ _ now (withTaskCount (S (taskCount w)) w) s tr st
                (keeps_getDashboard h cfg) Hw0 E) as [H1 H2].
    now apply snapshots_placeRequest.
  - destruct (run (postRefresh h cfg token) now (shared w)) as [[s tr] st] eqn:E.
    destruct (snapshots_after_run _ _ now (withTaskCount (S (taskCount w)) w) s tr st
                (keeps_postRefresh h cfg token) Hw0 E) as [H1 H2].
    now apply snapshots_placeRequest.
  - destruct (run (scheduledRefresh h cfg) now (shared w)) as [[s tr] st] eqn:E.
    destruct (snapshots_after_run _ _ now (withTaskCount (S (taskCount w)) w) s tr st
                (keeps_scheduledRefresh h cfg) Hw0 E) as [H1 H2].
    now apply snapshots_placeBackground.
  - destruct (run (warmUp h cfg) now (shared w)) as [[s tr] st] eqn:E.
    destruct (snapshots_after_run _ _ now (withTaskCount (S (taskCount w)) w) s tr st
                (keeps_warmUp h cfg) Hw0 E) as [H1 H2].
    now apply snapshots_placeBackground.
Qed.

Lemma snapshots_deliver t o now w w' :
  snapshotsOnly cfg kept w -> deliver t o now w = Some w' ->
  snapshotsOnly cfg kept w'.
Proof.
  intros Hw. unfold deliver.
  destruct (tasks w !! t) as [x|] eqn:Ht; [|discriminate].
  pose proof (tasks_keep _ _ _ Hw _ _ Ht) as Hx.
  destruct x as [e k|e k|p e k]; simpl in Hx; destruct Hx as [He Hk];
    (destruct (answerOf w e o) as [[a w1]|] eqn:Ha; [|discriminate]);
    (destruct (coerce e a) as [x|] eqn:Hc; [|discriminate]);
    destruct (snapshots_answerOf _ _ _ _ _ _ Hw He Ha Hc) as (Hw1 & Hx & _);
    destruct (run (k x) now (shared w1)) as [[s tr] st] eqn:E;
    intros [= <-];
    destruct (snapshots_after_run _ _ now w1 s tr st (Hk x Hx) Hw1 E) as [H1 H2].
  - now apply snapshots_placeRequest.
  - now apply snapshots_placeBackground.
  - now apply snapshots_placeRefresh.
Qed.

Lemma snapshots_steps evs : forall w w',
  snapshotsOnly cfg kept w -> steps h cfg evs w = Some w' -> snapshotsOnly cfg kept w'.
Proof.
  induction evs as [|ev evs IH]; intros w w' Hw Hsteps; simpl in Hsteps.
  - injection Hsteps as <-. exact Hw.
  - destruct (step h cfg ev w) as [w1|] eqn:E; [|discriminate].
    apply (IH w1 w'); [|exact Hsteps].
    destruct ev as [r now|t o now]; simpl in E.
    + injection E as <-. now apply snapshots_arrive.
    + eapply snapshots_deliver; eauto.
Qed.

(** X21.  Along every run of the server, started with any content of
    Redis: [inMemoryCache] holds [null] or a snapshot built by
    [buildPayload]; the text under [cacheKey] in Redis is the one found at
    start or the JSON text of such a snapshot; every refresh that succeeded
    resolved with such a snapshot; and, with the in-memory store, every
    reply with status 200 carries one. *)
Theorem store_holds_snapshots (evs : list event) (w : world) :
  steps h cfg evs (initial kept) = Some w ->
  cachedValue cfg (inMemoryCache (shared w))
  /\ (forall raw, redis w !! cacheKey cfg = Some raw ->
        kept !! cacheKey cfg = Some raw \/ snapshotText cfg raw)
  /\ (forall p v, settled w !! p = Some (Ok v) -> built cfg v)
  /\ (redisClient cfg = false ->
      forall t rep, In (t, Ok rep) (replies w) -> code rep = 200 -> built cfg (json rep)).
Proof.
  intros Hsteps.
  destruct (snapshots_steps evs _ _ snapshots_initial Hsteps) as [H1 H2 H3 H4 H5].
  split; [exact H1|]. split; [exact H2|]. split.
  - intros p v Hp. exact (H3 _ _ Hp v eq_refl).
  - intros Hmem t rep Hin Hcode. exact (H5 _ _ Hin Hmem rep eq_refl Hcode).
Qed.

End Worlds.

(** ** The calendar of the profile card *)

Lemma nth_error_dates (hist base : list CommitDayActivity) (j : nat) (day : CommitDayActivity) :
  map date hist = map date base ->
  nth_error base j = Some day ->
  exists c, nth_error hist j = Some {| date := date day; commit_count := c |}.
Proof.
  intros Hd Hb.
  assert (Hm : nth_error (map date hist) j = Some (date day))
    by (rewrite Hd; apply map_nth_error; exact Hb).
  rewrite nth_error_map in Hm.
  destruct (nth_error hist j) as [[d c]|]; [|discriminate].
  injection Hm as Hm. cbn in Hm. subst d. exists c. reflexivity.
Qed.

(** X22.  The commit calendar of the profile card shows the last
    [min(days, 180)] days of a history of [days] days: what is shown is the
    end of the history, and entry [i] of it is the day
    [min(days, 180) - 1 - i] days before today. *)
Theorem displayed_history_recent (now days : Z) (hist : list CommitDayActivity) :
  map date hist = map date (buildEmptyCommitHistory now days) ->
  let shown := Z.min days 180 in
  length (displayedCommitHistory hist) = Z.to_nat shown
  /\ (exists earlier, hist = earlier ++ displayedCommitHistory hist)
  /\ (forall i, 0 <= i < shown ->
        exists c,
          nth_error (displayedCommitHistory hist) (Z.to_nat i)
          = Some {| date := formatUtcDate (now - (shown - 1 - i) * JsDate.msPerDay);
                    commit_count := c |}).
Proof.
  intros Hd shown.
  assert (Hlen : length hist = Z.to_nat days).
  { rewrite <- (length_map date hist), Hd, length_map.
    apply buildEmptyCommitHistory_length. }
  unfold displayedCommitHistory. split; [|split].
  - rewrite length_skipn, Hlen. unfold shown. lia.
  - exists (firstn (length hist - 180) hist). symmetry. apply firstn_skipn.
  - intros i Hi.
    assert (Hj : 0 <= days - shown + i < days) by (unfold shown in *; lia).
    pose proof (buildEmptyCommitHistory_nth now days _ Hj) as Hb.
    destruct (nth_error_dates hist _ _ _ Hd Hb) as [c Hc]. exists c.
    rewrite nth_error_skipn, Hlen.
    replace (Z.to_nat days - 180 + Z.to_nat i)%nat with (Z.to_nat (days - shown + i))
      by (unfold shown in *; lia).
    rewrite Hc. cbn [date]. do 3 f_equal. lia.
Qed.

(* ===================================================================== *)
(** * Instances of the theorems above *)
(* ===================================================================== *)

Import Cases.

(** The page of the two sample events, on the history of three days. *)
Example tally_of_sample_page :
  let rangeStart := rangeStartOf plainHost (buildEmptyCommitHistory clock 3) in
  rangeStart = Some 1793404800000
  /\ reachesOlder plainHost rangeStart [pushEvent; oldEvent] = true
  /\ map (fun day => (date day, tally plainHost rangeStart (date day) [pushEvent; oldEvent]))
       (buildEmptyCommitHistory clock 3)
     = [("2026-10-31", 0); ("2026-11-01", 2); ("2026-11-02", 0)].
Proof. repeat split; vm_compute; reflexivity. Qed.

Example sorted_sample_repos :
  sortBy (byPushedAtDesc plainHost) [olderRepoJson; repoJson] = [repoJson; olderRepoJson].
Proof. vm_compute. reflexivity. Qed.

(** Two repositories with dates that parse. *)
Lemma sortBy_pushed_at_witness :
  Forall (fun repo => pushedAt plainHost repo <> None) [olderRepoJson; repoJson]
  /\ StronglySorted (notOlder plainHost)
       (sortBy (byPushedAtDesc plainHost) [olderRepoJson; repoJson]).
Proof.
  assert (H : Forall (fun repo => pushedAt plainHost repo <> None) [olderRepoJson; repoJson])
    by (repeat constructor; vm_compute; discriminate).
  split; [exact H|].
  exact (proj2 (proj2 (sortBy_pushed_at plainHost [olderRepoJson; repoJson])) H).
Defined.

Lemma normalizeRepo_normal_witness :
  Js.nullish olderRepoJson = false
  /\ exists n, normalizeRepo olderRepoJson = Ok n /\ normalizeRepo n = Ok n.
Proof.
  split; [reflexivity|].
  destruct (proj2 (normalizeRepo_normal olderRepoJson) eq_refl)
    as (n & E & _ & _ & _ & _ & _ & _ & Hn).
  exists n. split; [exact E|exact Hn].
Defined.

Lemma normalizeUser_normal_witness :
  Js.nullish userJson = false
  /\ exists n, normalizeUser userJson = Ok n /\ normalizeUser n = Ok n.
Proof.
  split; [reflexivity|].
  destruct (proj2 (normalizeUser_normal userJson) eq_refl) as (n & E & _ & _ & _ & _ & Hn).
  exists n. split; [exact E|exact Hn].
Defined.

(** The rate limit of GitHub. *)
Lemma githubRequest_outcomes_witness :
  ok limited = false
  /\ exists msg,
       play (githubRequest memoryConfig "/users/nyxnix") clock start
         [Turn (AResponse (Ok limited)) clock start; Turn ATurn clock start]
       = Some (start,
               [Asked (Fetch (GITHUB_API_BASE +:+ "/users/nyxnix") (authorization memoryConfig));
                Asked Yield],
               Done (Err (Error msg)))
       /\ msg = "GitHub request failed: 403 Forbidden - API rate limit exceeded".
Proof.
  split; [reflexivity|].
  destruct (proj1 (proj2 (proj2 (proj2
              (githubRequest_outcomes memoryConfig "/users/nyxnix" clock start))))
              limited clock start clock start eq_refl) as (msg & E & Hmsg).
  exists msg. split; [exact E|]. rewrite Hmsg. vm_compute. reflexivity.
Defined.


Lemma fetchCommitHistory_history_witness :
  0 < 3 /\ lastPage (VArr [])
  /\ exists tr,
       play (fetchCommitHistory plainHost memoryConfig "nyxnix" 3) clock start
         [okPage (VArr []); Turn ATurn clock start]
       = Some (start, tr, Done (Ok (buildEmptyCommitHistory clock 3))).
Proof.
  split; [lia|]. split; [exact I|].
  exact (proj1 (proj2 (fetchCommitHistory_history plainHost memoryConfig "nyxnix" 3 clock start))
           (VArr []) clock start clock start ltac:(lia) I).
Defined.

Lemma fetchCommitHistory_requests_witness :
  play (fetchCommitHistory plainHost memoryConfig "nyxnix" 3) clock start
    [okPage (VArr []); Turn ATurn clock start]
  = Some (fst (fst pageRun), snd (fst pageRun), snd pageRun)
  /\ (length (fetched (snd (fst pageRun))) <= maxPages 3)%nat.
Proof.
  assert (H : play (fetchCommitHistory plainHost memoryConfig "nyxnix" 3) clock start
                [okPage (VArr []); Turn ATurn clock start]
              = Some (fst (fst pageRun), snd (fst pageRun), snd pageRun))
    by (vm_compute; reflexivity).
  split; [exact H|].
  exact (proj1 (proj2 (fetchCommitHistory_requests plainHost memoryConfig "nyxnix" 3 clock start
                         _ _ _ _ H))).
Defined.



(** A snapshot built at [clock], looked at one minute later. *)
Lemma built_payload_fresh_window_witness :
  Date_parse plainHost (VStr (JsDate.toISOString clock)) = Some clock
  /\ isPayloadFresh plainHost memoryConfig (clock + 60000)
       (buildPayload memoryConfig clock userJson (VArr [repoJson]) (VStr "") (VArr []))
     = (clock + 60000 - clock <=? normalizedTtlMinutes memoryConfig * 60000).
Proof.
  assert (H : Date_parse plainHost (VStr (JsDate.toISOString clock)) = Some clock)
    by (vm_compute; reflexivity).
  split; [exact H|].
  exact (proj1 (proj1 (built_payload_fresh_window plainHost memoryConfig clock (clock + 60000)
                         start H) userJson (VArr [repoJson]) (VStr "") (VArr []))).
Defined.

Lemma scheduledRefresh_swallows_witness :
  play (scheduledRefresh plainHost memoryConfig) clock joining
    [Turn (ASettled (Err NetworkError)) clock joining]
  = Some (fst (fst tickRun), snd (fst tickRun), Done (Ok tt))
  /\ writes (snd (fst tickRun)) = [].
Proof.
  assert (H : play (scheduledRefresh plainHost memoryConfig) clock joining
                [Turn (ASettled (Err NetworkError)) clock joining]
              = Some (fst (fst tickRun), snd (fst tickRun), Done (Ok tt)))
    by (vm_compute; reflexivity).
  split; [exact H|].
  exact (proj2 (proj1 (scheduledRefresh_swallows plainHost memoryConfig clock joining)
                  _ _ _ _ H)).
Defined.

Lemma warmUp_loads_fallback_witness :
  buildFallbackPayloadFromSnapshot plainHost memoryConfig clock (snapshotValue snapshotFile)
  = Ok (Some fallbackPayload)
  /\ exists s' tr,
       play (warmUp plainHost memoryConfig) clock start
         (Turn (ASettled (Err NetworkError)) clock start
          :: fileTurns snapshotFile clock start clock start
          ++ storeTurns memoryConfig clock start clock start)
       = Some (s', tr, Done (Ok tt))
       /\ writes tr = storeWrites memoryConfig fallbackPayload.
Proof.
  assert (H : buildFallbackPayloadFromSnapshot plainHost memoryConfig clock
                (snapshotValue snapshotFile) = Ok (Some fallbackPayload))
    by (vm_compute; reflexivity).
  split; [exact H|].
  exact (proj1 (proj2 (warmUp_loads_fallback plainHost memoryConfig clock start)
                  NetworkError snapshotFile clock start clock start clock start)
           fallbackPayload clock start clock start H).
Defined.

Lemma endpoint_replies_witness :
  play (postRefresh plainHost memoryConfig VUndefined) clock joining
    (settleTurns (Ok freshPayload) clock joining clock joining)
  = Some (joining, [Asked (Await 0%nat); Asked Yield],
          Done (Ok (sendJson (Some REFRESH) freshPayload)))
  /\ refreshReply (Ok (sendJson (Some REFRESH) freshPayload)).
Proof.
  assert (H : play (postRefresh plainHost memoryConfig VUndefined) clock joining
                (settleTurns (Ok freshPayload) clock joining clock joining)
              = Some (joining, [Asked (Await 0%nat); Asked Yield],
                      Done (Ok (sendJson (Some REFRESH) freshPayload))))
    by reflexivity.
  split; [exact H|].
  exact (proj1 (proj2 (endpoint_replies plainHost memoryConfig clock joining)) _ _ _ _ _ H).
Defined.

(** The sample clock. *)
Lemma startOfUtcDay_midnight_witness :
  0 <= clock <= 8640000000000000
  /\ startOfUtcDay (startOfUtcDay clock) = startOfUtcDay clock.
Proof.
  assert (H : 0 <= clock <= 8640000000000000) by (vm_compute; split; discriminate).
  split; [exact H|].
  exact (proj1 (proj2 (proj2 (proj2 (proj2 (proj2 (startOfUtcDay_midnight clock H))))))).
Defined.

Lemma formatUtcDate_names_the_day_witness :
  0 <= JsDate.getUTCFullYear clock <= 9999
  /\ 0 <= JsDate.getUTCFullYear (clock + 1) <= 9999
  /\ String.length (formatUtcDate clock) = 10%nat.
Proof.
  assert (H1 : 0 <= JsDate.getUTCFullYear clock <= 9999) by (vm_compute; split; discriminate).
  assert (H2 : 0 <= JsDate.getUTCFullYear (clock + 1) <= 9999)
    by (vm_compute; split; discriminate).
  split; [exact H1|]. split; [exact H2|].
  exact (proj1 (formatUtcDate_names_the_day clock (clock + 1) H1 H2)).
Defined.

Lemma history_dates_distinct_witness :
  (forall i, 0 <= i < 3 ->
     0 <= JsDate.getUTCFullYear (clock - i * JsDate.msPerDay) <= 9999)
  /\ NoDup (map date (buildEmptyCommitHistory clock 3)).
Proof.
  assert (H : forall i, 0 <= i < 3 ->
            0 <= JsDate.getUTCFullYear (clock - i * JsDate.msPerDay) <= 9999).
  { intros i Hi. assert (Hc : i = 0 \/ i = 1 \/ i = 2) by lia.
    destruct Hc as [->|[->| ->]]; vm_compute; split; discriminate. }
  split; [exact H|].
  exact (proj1 (history_dates_distinct clock 3 H)).
Defined.

(** A date that does not parse. *)
Lemma repo_activity_witness :
  Date_parse plainHost (VStr "last week") = None
  /\ getDaysSince plainHost clock (VStr "last week") = 999
  /\ getActivityBucket (getDaysSince plainHost clock (VStr "last week")) = stale.
Proof.
  assert (H : Date_parse plainHost (VStr "last week") = None) by reflexivity.
  split; [exact H|].
  exact (proj1 (proj2 (repo_activity plainHost clock (VStr "last week"))) H).
Defined.

Lemma commit_levels_witness :
  Z.abs 3 < 2 ^ 52 /\ Z.abs 4 < 2 ^ 52 /\ 0 < 3 /\ 1 < 4
  /\ (getCommitLevel 3 4 <= 3 <-> 4 * 3 <= 3 * 4).
Proof.
  assert (H1 : Z.abs 3 < 2 ^ 52) by (vm_compute; reflexivity).
  assert (H2 : Z.abs 4 < 2 ^ 52) by (vm_compute; reflexivity).
  assert (H3 : 0 < 3) by lia.
  assert (H4 : 1 < 4) by lia.
  split; [exact H1|]. split; [exact H2|]. split; [exact H3|]. split; [exact H4|].
  exact (proj2 (proj2 (proj2 (proj2 (proj2 (proj1 (commit_levels []) 3 4 H1 H2))) H3 H4))).
Defined.

Lemma successful_refresh_stores_witness :
  play (awaitCall (fetchFreshPayload plainHost memoryConfig)) clock start freshTurns
  = Some (fst (fst freshRun), snd (fst freshRun), Done (Ok (snd freshRun)))
  /\ built memoryConfig (snd freshRun).
Proof.
  assert (H : play (awaitCall (fetchFreshPayload plainHost memoryConfig)) clock start freshTurns
              = Some (fst (fst freshRun), snd (fst freshRun), Done (Ok (snd freshRun))))
    by (vm_compute; reflexivity).
  split; [exact H|].
  exact (proj1 (successful_refresh_stores plainHost memoryConfig clock start freshTurns
                  _ _ _ H)).
Defined.

Lemma store_holds_snapshots_witness :
  steps plainHost memoryConfig events (initial ∅) = Some reached
  /\ cachedValue memoryConfig (inMemoryCache (shared reached)).
Proof.
  assert (H : steps plainHost memoryConfig events (initial ∅) = Some reached)
    by (vm_compute; reflexivity).
  split; [exact H|].
  exact (proj1 (store_holds_snapshots plainHost memoryConfig ∅ events reached H)).
Defined.

Lemma displayed_history_recent_witness :
  map date (buildEmptyCommitHistory clock 200) = map date (buildEmptyCommitHistory clock 200)
  /\ length (displayedCommitHistory (buildEmptyCommitHistory clock 200)) = 180%nat.
Proof.
  assert (H : map date (buildEmptyCommitHistory clock 200)
              = map date (buildEmptyCommitHistory clock 200)) by reflexivity.
  split; [exact H|].
  exact (proj1 (displayed_history_recent clock 200 (buildEmptyCommitHistory clock 200) H)).
Defined.
